(** * Valence ledger: a shallow embedding of [simulation_v1.py]

    The script defines [InteractionPoint] (a validated record), the
    hash-chained [ValenceLedger] (genesis block, [log_event],
    [verify_integrity]), the keyword scorer [analyze_text] and the
    simulation block that drives them.

    Python objects that the script mutates or aliases (the entry dicts and
    their nested [point_data] dicts) live in an explicit store of dict
    objects addressed by reference; everything else is a plain value.
    [json.dumps(..., sort_keys=True)] and [hashlib.sha256] are embedded
    executably so that closed ledgers can be evaluated. *)

From Stdlib Require Import ZArith List String Ascii Bool Lia.
From stdpp Require Import base list pretty.
Import ListNotations.

Local Open Scope string_scope.
Local Open Scope Z_scope.

(** ** Python [str]

    A [str] is a sequence of code points.  The embedding covers the code
    points below 256 (one [ascii] each); the script's own literals are all
    in that range. *)

Module PyStr.

Definition code (c : ascii) : Z := Z.of_N (N_of_ascii c).
Definition chr (z : Z) : ascii := ascii_of_N (Z.to_N z).

(** [str.lower()] on the code points below 256: A-Z, and the upper-case
    letters of the Latin-1 block (0xC0-0xDE except the sign 0xD7). *)
Definition lower_char (c : ascii) : ascii :=
  let n := code c in
  if (65 <=? n) && (n <=? 90) then chr (n + 32)
  else if (192 <=? n) && (n <=? 222) && negb (n =? 215) then chr (n + 32)
  else c.

Fixpoint lower (s : string) : string :=
  match s with
  | EmptyString => EmptyString
  | String c r => String (lower_char c) (lower r)
  end.

(** [s.startswith(w)] *)
Fixpoint startswith (w s : string) : bool :=
  match w, s with
  | EmptyString, _ => true
  | String _ _, EmptyString => false
  | String a w', String b s' => Ascii.eqb a b && startswith w' s'
  end.

(** [s[:n]] *)
Fixpoint take (n : nat) (s : string) : string :=
  match n, s with
  | O, _ => EmptyString
  | S _, EmptyString => EmptyString
  | S n', String c r => String c (take n' r)
  end.

(** [s.count(w)] for a non-empty [w]: the number of non-overlapping
    occurrences, scanning from the left.  [skip] is the number of
    characters still covered by the occurrence just counted. *)
Fixpoint count_from (w : string) (skip : nat) (s : string) : Z :=
  match s with
  | EmptyString => 0
  | String _ r =>
      match skip with
      | S k => count_from w k r
      | O => if startswith w s
             then 1 + count_from w (Nat.pred (String.length w)) r
             else count_from w 0 r
      end
  end.

Definition count (s w : string) : Z := count_from w 0 s.

(** [w in s] for a non-empty [w]. *)
Fixpoint contains (w : string) (s : string) : bool :=
  match s with
  | EmptyString => false
  | String _ r => startswith w s || contains w r
  end.

(** [s.encode()]: UTF-8; two bytes for the code points 128..255. *)
Definition encode_char (c : ascii) : list Z :=
  let n := code c in
  if n <? 128 then [n]
  else [Z.lor 192 (Z.shiftr n 6); Z.lor 128 (Z.land n 63)].

Fixpoint encode (s : string) : list Z :=
  match s with
  | EmptyString => []
  | String c r => encode_char c ++ encode r
  end.

End PyStr.

(** ** [hashlib.sha256(...).hexdigest()] *)

Module Sha256.

Definition w32 (x : Z) : Z := Z.land x 0xffffffff.
Definition add32 (x y : Z) : Z := w32 (x + y).
Definition rotr (n x : Z) : Z := Z.lor (Z.shiftr x n) (w32 (Z.shiftl x (32 - n))).
Definition not32 (x : Z) : Z := Z.lxor x 0xffffffff.

Definition Ch (x y z : Z) : Z := Z.lxor (Z.land x y) (Z.land (not32 x) z).
Definition Maj (x y z : Z) : Z :=
  Z.lxor (Z.lxor (Z.land x y) (Z.land x z)) (Z.land y z).
Definition Sig0 (x : Z) : Z := Z.lxor (Z.lxor (rotr 2 x) (rotr 13 x)) (rotr 22 x).
Definition Sig1 (x : Z) : Z := Z.lxor (Z.lxor (rotr 6 x) (rotr 11 x)) (rotr 25 x).
Definition sig0 (x : Z) : Z := Z.lxor (Z.lxor (rotr 7 x) (rotr 18 x)) (Z.shiftr x 3).
Definition sig1 (x : Z) : Z := Z.lxor (Z.lxor (rotr 17 x) (rotr 19 x)) (Z.shiftr x 10).

(** The integer [k]-th root of [x], built bit by bit from bit [n-1] down. *)
Fixpoint iroot (k : Z) (n : nat) (x acc : Z) : Z :=
  match n with
  | O => acc
  | S n' =>
      let c := Z.lor acc (Z.shiftl 1 (Z.of_nat n')) in
      if c ^ k <=? x then iroot k n' x c else iroot k n' x acc
  end.

Definition is_prime (n : Z) : bool :=
  forallb (fun d => negb (n mod d =? 0)) (map Z.of_nat (seq 2 (Z.to_nat n - 2))).

Definition primes : list Z :=
  Eval vm_compute in filter is_prime (map Z.of_nat (seq 2 310)).

(** The first 32 bits of the fractional part of the [k]-th root of [p]. *)
Definition frac32 (k p : Z) : Z := w32 (iroot k 40 (p * 2 ^ (32 * k)) 0).

(** The round constants come from the cube roots of the first 64 primes,
    the initial hash value from the square roots of the first 8. *)
Definition K : list Z := Eval vm_compute in map (frac32 3) primes.
Definition H0 : list Z := Eval vm_compute in map (frac32 2) (firstn 8 primes).

(** Big-endian rendering of [x] on [n] bytes. *)
Fixpoint be_bytes (n : nat) (x : Z) : list Z :=
  match n with
  | O => []
  | S n' => Z.land (Z.shiftr x (8 * Z.of_nat n')) 255 :: be_bytes n' x
  end.

Definition pad (msg : list Z) : list Z :=
  let len := Z.of_nat (length msg) in
  let zeros := Z.to_nat ((55 - len) mod 64) in
  msg ++ [128] ++ repeat 0 zeros ++ be_bytes 8 (8 * len).

Fixpoint be_words (n : nat) (bs : list Z) : list Z :=
  match n, bs with
  | S n', b0 :: b1 :: b2 :: b3 :: r =>
      (Z.shiftl b0 24 + Z.shiftl b1 16 + Z.shiftl b2 8 + b3) :: be_words n' r
  | _, _ => []
  end.

(** The message schedule, built most-recent-first: [ws] holds
    W[t-1], W[t-2], ... *)
Fixpoint schedule (n : nat) (ws : list Z) : list Z :=
  match n with
  | O => ws
  | S n' =>
      let w := add32 (add32 (sig1 (nth 1 ws 0)) (nth 6 ws 0))
                     (add32 (sig0 (nth 14 ws 0)) (nth 15 ws 0)) in
      schedule n' (w :: ws)
  end.

Definition st : Type := (Z * Z * Z * Z * Z * Z * Z * Z)%type.

Definition round (s : st) (kw : Z * Z) : st :=
  let '(a, b, c, d, e, f, g, h) := s in
  let t1 := add32 (add32 (add32 h (Sig1 e)) (add32 (Ch e f g) (fst kw))) (snd kw) in
  let t2 := add32 (Sig0 a) (Maj a b c) in
  (add32 t1 t2, a, b, c, add32 d t1, e, f, g).

Definition compress (s : st) (block : list Z) : st :=
  let w := List.rev (schedule 48 (List.rev (be_words 16 block))) in
  let '(a, b, c, d, e, f, g, h) := fold_left round (combine K w) s in
  let '(a0, b0, c0, d0, e0, f0, g0, h0) := s in
  (add32 a0 a, add32 b0 b, add32 c0 c, add32 d0 d,
   add32 e0 e, add32 f0 f, add32 g0 g, add32 h0 h).

Fixpoint blocks (n : nat) (bs : list Z) (s : st) : st :=
  match n with
  | O => s
  | S n' => blocks n' (skipn 64 bs) (compress s (firstn 64 bs))
  end.

Definition init : st :=
  match H0 with
  | [a; b; c; d; e; f; g; h] => (a, b, c, d, e, f, g, h)
  | _ => (0, 0, 0, 0, 0, 0, 0, 0)
  end.

Definition digest (msg : list Z) : list Z :=
  let p := pad msg in
  let '(a, b, c, d, e, f, g, h) := blocks (Nat.div (length p) 64) p init in
  concat (map (be_bytes 4) [a; b; c; d; e; f; g; h]).

Definition hex_digit (n : Z) : ascii :=
  if n <? 10 then PyStr.chr (48 + n) else PyStr.chr (87 + n).

Fixpoint hex_of_bytes (bs : list Z) : string :=
  match bs with
  | [] => EmptyString
  | b :: r => String (hex_digit (Z.shiftr b 4)) (String (hex_digit (Z.land b 15)) (hex_of_bytes r))
  end.

Definition hexdigest (msg : list Z) : string := hex_of_bytes (digest msg).

End Sha256.

(** ** Python values and the object store *)

(** A reference to a dict object: its position in the store. *)
Abbreviation loc := nat (only parsing).

(** A Python [float] is kept as the text [repr] gives for it (the shortest
    literal that reads back to the same float); the script only reads the
    clock into it and serialises it. *)
Record pyfloat : Type := Float { float_repr : string }.

#[warnings="-register-all"] Inductive val : Type :=
| VInt (n : Z)
| VFloat (x : pyfloat)
| VStr (s : string)
| VTuple (items : list val)
| VList (items : list val)
| VDict (l : loc).

(** The contents of a dict object with [str] keys, in insertion order. *)
Abbreviation dict := (list (string * val)) (only parsing).

Record store : Type := Store {
  objs : list dict;        (* the dict objects allocated so far *)
  stdout : list string     (* the lines printed so far *)
}.

Inductive exn : Type :=
| ValueError (msg : string)
| KeyError (key : string)
| IndexError (msg : string).

(** The result of running a piece of the script: a value, a Python
    exception, or [Stuck] when the run leaves the embedded fragment
    (a reference to no object, a comparison that is not embedded, or a
    value nested deeper than the serialiser is embedded for). *)
Inductive outcome (A : Type) : Type :=
| Ok (a : A)
| Raise (e : exn)
| Stuck.
Arguments Ok {A} a.
Arguments Raise {A} e.
Arguments Stuck {A}.

Module Dict.

(** [d[k]] *)
Fixpoint get (k : string) (d : dict) : option val :=
  match d with
  | [] => None
  | (k', v) :: r => if String.eqb k' k then Some v else get k r
  end.

(** [d[k] = v]: in place when the key is present, at the end otherwise. *)
Fixpoint set (k : string) (v : val) (d : dict) : dict :=
  match d with
  | [] => [(k, v)]
  | (k', v') :: r =>
      if String.eqb k' k then (k', v) :: r else (k', v') :: set k v r
  end.

(** [del d[k]] *)
Fixpoint del (k : string) (d : dict) : dict :=
  match d with
  | [] => []
  | (k', v') :: r => if String.eqb k' k then r else (k', v') :: del k r
  end.

End Dict.

(** ** [json.dumps(v, sort_keys=True)] *)

Module Json.

Definition hex4 (n : Z) : string :=
  String (Sha256.hex_digit (Z.land (Z.shiftr n 12) 15))
  (String (Sha256.hex_digit (Z.land (Z.shiftr n 8) 15))
  (String (Sha256.hex_digit (Z.land (Z.shiftr n 4) 15))
  (String (Sha256.hex_digit (Z.land n 15)) EmptyString))).

(** One character under [ensure_ascii=True]: the short escapes, a
    [\uXXXX] escape for everything outside [' '..'~'], itself otherwise. *)
Definition escape_char (c : ascii) : string :=
  let n := PyStr.code c in
  if n =? 34 then "\" ++ String c EmptyString
  else if n =? 92 then "\\"
  else if n =? 10 then "\n"
  else if n =? 13 then "\r"
  else if n =? 9 then "\t"
  else if n =? 12 then "\f"
  else if n =? 8 then "\b"
  else if (n <? 32) || (126 <? n) then "\u" ++ hex4 n
  else String c EmptyString.

Fixpoint escape (s : string) : string :=
  match s with
  | EmptyString => EmptyString
  | String c r => escape_char c ++ escape r
  end.

Definition quote : string := String (PyStr.chr 34) EmptyString.

Definition encode_str (s : string) : string := quote ++ escape s ++ quote.

(** Floats are written by [float.__repr__], except the three special
    values. *)
Definition encode_float (x : pyfloat) : string :=
  let r := float_repr x in
  if String.eqb r "nan" then "NaN"
  else if String.eqb r "inf" then "Infinity"
  else if String.eqb r "-inf" then "-Infinity"
  else r.

Fixpoint join (sep : string) (l : list string) : string :=
  match l with
  | [] => EmptyString
  | [x] => x
  | x :: r => x ++ sep ++ join sep r
  end.

(** [sorted(dct.items())]: keys are unique, so only they are compared. *)
Fixpoint insert_item (kv : string * val) (l : dict) : dict :=
  match l with
  | [] => [kv]
  | kv' :: r =>
      if String.leb (fst kv) (fst kv') then kv :: l else kv' :: insert_item kv r
  end.

Fixpoint sort_items (d : dict) : dict :=
  match d with
  | [] => []
  | kv :: r => insert_item kv (sort_items r)
  end.

(** Left-to-right evaluation of the pieces: the first one that does not
    produce text decides. *)
Fixpoint sequence (l : list (outcome string)) : outcome (list string) :=
  match l with
  | [] => Ok []
  | Ok s :: r =>
      match sequence r with
      | Ok ss => Ok (s :: ss)
      | Raise e => Raise e
      | Stuck => Stuck
      end
  | Raise e :: _ => Raise e
  | Stuck :: _ => Stuck
  end.

Definition wrap (op cl : string) (parts : outcome (list string)) : outcome string :=
  match parts with
  | Ok ss => Ok (op ++ join ", " ss ++ cl)
  | Raise e => Raise e
  | Stuck => Stuck
  end.

Definition item (render : val -> outcome string) (kv : string * val) : outcome string :=
  match render (snd kv) with
  | Ok s => Ok (encode_str (fst kv) ++ ": " ++ s)
  | Raise e => Raise e
  | Stuck => Stuck
  end.

Fixpoint mem (l : loc) (m : list loc) : bool :=
  match m with
  | [] => false
  | x :: r => Nat.eqb x l || mem l r
  end.

(** [int.__repr__] as the encoder calls it: CPython refuses to convert an
    [int] of more than [sys.get_int_max_str_digits()] = 4300 digits, the
    sign not counted. *)
Definition int_limit : Z := Eval vm_compute in 10 ^ 4300.

Definition digits_ok (n : Z) : bool := Z.abs n <? int_limit.

Definition int_error : exn :=
  ValueError ("Exceeds the limit (4300 digits) for integer string conversion; "
              ++ "use sys.set_int_max_str_digits() to increase the limit").

Definition int_text (n : Z) : outcome string :=
  if digits_ok n then Ok (pretty n) else Raise int_error.

(** The encoder enters a list, a tuple or a dict through CPython's
    recursion guard, which raises [RecursionError] at a depth that depends
    on the interpreter's stack (about 1000 frames by default).  The
    embedding covers [max_depth] nested containers, well below that;
    deeper values are left out of it. *)
Definition max_depth : nat := 100.

(** The encoder.  [markers] holds the dict objects being encoded further
    up (the encoder's circular-reference check); [fuel] is the number of
    nested containers that may still be entered. *)
Fixpoint encode (fuel : nat) (h : list dict) (markers : list loc) (v : val)
  : outcome string :=
  match v with
  | VInt n => int_text n
  | VFloat x => Ok (encode_float x)
  | VStr s => Ok (encode_str s)
  | VTuple items | VList items =>
      match fuel with
      | O => Stuck
      | S n => wrap "[" "]" (sequence (map (encode n h markers) items))
      end
  | VDict l =>
      if mem l markers then Raise (ValueError "Circular reference detected")
      else
        match fuel with
        | O => Stuck
        | S n =>
            match h !! l with
            | None => Stuck
            | Some d =>
                wrap "{" "}"
                  (sequence (map (item (encode n h (l :: markers))) (sort_items d)))
            end
        end
  end.

Definition dumps (h : list dict) (v : val) : outcome string :=
  encode max_depth h [] v.

End Json.

(** ** Running the script: state and exceptions *)

(** A computation reads and updates the store and ends in an [outcome];
    the store survives an exception, as it does in Python. *)
Definition M (A : Type) : Type := store -> outcome A * store.

Definition ret {A} (a : A) : M A := fun s => (Ok a, s).

Definition bind {A B} (c : M A) (k : A -> M B) : M B :=
  fun s =>
    match c s with
    | (Ok a, s') => k a s'
    | (Raise e, s') => (Raise e, s')
    | (Stuck, s') => (Stuck, s')
    end.

Definition raise {A} (e : exn) : M A := fun s => (Raise e, s).
Definition stuck {A} : M A := fun s => (Stuck, s).

Definition lift {A} (o : outcome A) : M A := fun s => (o, s).

Notation "x <- c1 ;; c2" := (bind c1 (fun x => c2))
  (at level 100, c1 at next level, right associativity).
Notation "c1 ;; c2" := (bind c1 (fun _ => c2))
  (at level 100, right associativity).

(** A dict display or [dict.copy()]: a new object at the end of the store. *)
Definition new_dict (d : dict) : M loc :=
  fun s => (Ok (length (objs s)), Store (objs s ++ [d]) (stdout s)).

Definition read (l : loc) : M dict :=
  fun s => match objs s !! l with
           | Some d => (Ok d, s)
           | None => (Stuck, s)
           end.

Definition write (l : loc) (d : dict) : M unit :=
  fun s => (Ok tt, Store (<[l := d]> (objs s)) (stdout s)).

(** [l[k]] *)
Definition getitem (l : loc) (k : string) : M val :=
  d <- read l ;;
  match Dict.get k d with
  | Some v => ret v
  | None => raise (KeyError k)
  end.

(** [l[k] = v] *)
Definition setitem (l : loc) (k : string) (v : val) : M unit :=
  d <- read l ;; write l (Dict.set k v d).

(** [del l[k]] *)
Definition delitem (l : loc) (k : string) : M unit :=
  d <- read l ;;
  match Dict.get k d with
  | Some _ => write l (Dict.del k d)
  | None => raise (KeyError k)
  end.

(** [l.copy()]: a shallow copy, the values are shared. *)
Definition copy (l : loc) : M loc :=
  d <- read l ;; new_dict d.

Definition print (line : string) : M unit :=
  fun s => (Ok tt, Store (objs s) (stdout s ++ [line])).

(** [a != b], embedded where one side is a [str] (a [str] equals only an
    equal [str]) or both are [int]. *)
Definition py_ne (a b : val) : M bool :=
  match a, b with
  | VStr x, VStr y => ret (negb (String.eqb x y))
  | VStr _, _ | _, VStr _ => ret true
  | VInt x, VInt y => ret (negb (x =? y))
  | _, _ => stuck
  end.

(** ** class InteractionPoint *)

Module InteractionPoint.

Record t : Type := Point {
  timestamp : pyfloat;
  arousal : Z;
  valence : Z;
  impact_scope : Z;
  description : string;
  source_text : string;
  coordinates : Z * Z * Z
}.

(** [InteractionPoint(arousal, valence, impact_scope, description,
    source_text)]; [now] is what [time.time()] returns to the constructor. *)
Definition __init__ (now : pyfloat) (arousal valence impact_scope : Z)
    (description source_text : string) : outcome t :=
  if negb ((0 <=? arousal) && (arousal <=? 100)
           && ((-50 <=? valence) && (valence <=? 50))
           && (impact_scope >=? 1))
  then Raise (ValueError "Invalid parameters for InteractionPoint.")
  else Ok (Point now arousal valence impact_scope description source_text
                 (arousal, valence, impact_scope)).

(** The dict display of [to_dict]. *)
Definition fields (self : t) : dict :=
  let '(a, v, s) := coordinates self in
  [("timestamp", VFloat (timestamp self));
   ("arousal", VInt (arousal self));
   ("valence", VInt (valence self));
   ("impact_scope", VInt (impact_scope self));
   ("description", VStr (description self));
   ("source_text", VStr (source_text self));
   ("coordinates", VTuple [VInt a; VInt v; VInt s])].

Definition to_dict (self : t) : M loc := new_dict (fields self).

End InteractionPoint.

(** ** class ValenceLedger *)

Module ValenceLedger.

(** [self.chain]: the list of entry objects. *)
Record t : Type := Ledger { chain : list loc }.

Definition _hash_entry (entry_data : loc) : M string :=
  fun s =>
    match Json.dumps (objs s) (VDict entry_data) with
    | Ok entry_string => (Ok (Sha256.hexdigest (PyStr.encode entry_string)), s)
    | Raise e => (Raise e, s)
    | Stuck => (Stuck, s)
    end.

Definition _create_genesis_block (now : pyfloat) (self : t) : M t :=
  genesis_point <- lift (InteractionPoint.__init__ now 0 0 1 "Ledger Initialized" EmptyString) ;;
  point_data <- InteractionPoint.to_dict genesis_point ;;
  genesis_entry <- new_dict [("index", VInt 0);
                             ("point_data", VDict point_data);
                             ("previous_hash", VStr "0")] ;;
  h <- _hash_entry genesis_entry ;;
  setitem genesis_entry "hash" (VStr h) ;;
  ret (Ledger (chain self ++ [genesis_entry])).

Definition __init__ (now : pyfloat) : M t :=
  _create_genesis_block now (Ledger []).

(** [self.chain[i]] for [i >= 0] *)
Definition chain_at (self : t) (i : nat) : M loc :=
  match chain self !! i with
  | Some e => ret e
  | None => raise (IndexError "list index out of range")
  end.

(** [self.chain[-1]] *)
Definition chain_last (self : t) : M loc :=
  match last (chain self) with
  | Some e => ret e
  | None => raise (IndexError "list index out of range")
  end.

Definition log_event (self : t) (point : InteractionPoint.t) : M (loc * t) :=
  last_entry <- chain_last self ;;
  previous_hash <- getitem last_entry "hash" ;;
  point_data <- InteractionPoint.to_dict point ;;
  new_entry <- new_dict [("index", VInt (Z.of_nat (length (chain self))));
                         ("point_data", VDict point_data);
                         ("previous_hash", previous_hash)] ;;
  h <- _hash_entry new_entry ;;
  setitem new_entry "hash" (VStr h) ;;
  ret (new_entry, Ledger (chain self ++ [new_entry])).

(** The body of the [for] loop of [verify_integrity], over the indices
    still to visit. *)
Fixpoint verify_from (self : t) (indices : list nat) : M bool :=
  match indices with
  | [] => ret true
  | i :: rest =>
      current <- chain_at self i ;;
      previous <- chain_at self (i - 1) ;;
      cur_prev <- getitem current "previous_hash" ;;
      prev_hash <- getitem previous "hash" ;;
      broken <- py_ne cur_prev prev_hash ;;
      if broken : bool then
        print ("Integrity check failed: Hash chain broken at index "
               ++ pretty i ++ ".") ;;
        ret false
      else
        entry_to_verify <- copy current ;;
        delitem entry_to_verify "hash" ;;
        h <- _hash_entry entry_to_verify ;;
        cur_hash <- getitem current "hash" ;;
        tampered <- py_ne (VStr h) cur_hash ;;
        if tampered : bool then
          print ("Integrity check failed: Data tampered at index "
                 ++ pretty i ++ ".") ;;
          ret false
        else verify_from self rest
  end.

Definition verify_integrity (self : t) : M bool :=
  verify_from self (seq 1 (length (chain self) - 1)).

End ValenceLedger.

(** ** [analyze_text] *)

Definition positive_words : list string := ["love"; "happy"; "great"; "good"; "thanks"; "help"].
Definition negative_words : list string := ["hate"; "sad"; "bad"; "harm"; "hurt"; "delete"].
Definition arousal_words : list string := ["!"; "now"; "urgent"; "emergency"; "help"].

(** [sum(text_lower.count(w) for w in words)] *)
Definition count_all (text_lower : string) (words : list string) : Z :=
  fold_left Z.add (map (PyStr.count text_lower) words) 0.

Definition analyze_text (now : pyfloat) (text : string) : outcome InteractionPoint.t :=
  let text_lower := PyStr.lower text in
  let valence := count_all text_lower positive_words * 10 in
  let valence := valence - count_all text_lower negative_words * 10 in
  let arousal := count_all text_lower arousal_words * 20 in
  let arousal := arousal + 5 in
  let impact_scope :=
    if PyStr.contains "everyone" text_lower || PyStr.contains "all users" text_lower
    then 1000 else 1 in
  let valence := Z.max (-50) (Z.min 50 valence) in
  let arousal := Z.max 0 (Z.min 100 arousal) in
  let description :=
    "Text analysis result for: '" ++ PyStr.take 30 text ++ "...'" in
  InteractionPoint.__init__ now arousal valence impact_scope description text.

(** The tampering of the demonstration driver:
    [ledger.chain[i]['point_data'][key] = value]. *)
Definition tamper (ledger : ValenceLedger.t) (i : nat) (key : string) (value : val) : M unit :=
  entry <- ValenceLedger.chain_at ledger i ;;
  point_data <- getitem entry "point_data" ;;
  match point_data with
  | VDict p => setitem p key value
  | _ => stuck
  end.

(** ** Writing to an entry from outside the class *)

(** [ledger.chain[i][key] = value] *)
Definition assign (ledger : ValenceLedger.t) (i : nat) (key : string) (value : val) : M unit :=
  entry <- ValenceLedger.chain_at ledger i ;;
  setitem entry key value.

(** [del ledger.chain[i][key]] *)
Definition remove (ledger : ValenceLedger.t) (i : nat) (key : string) : M unit :=
  entry <- ValenceLedger.chain_at ledger i ;;
  delitem entry key.

(** ** The simulation block *)

(** [s * n] *)
Fixpoint str_mul (s : string) (n : nat) : string :=
  match n with
  | O => EmptyString
  | S k => (s ++ str_mul s k)%string
  end.

Definition newline : string := String (PyStr.chr 10) EmptyString.

Definition test_cases : list string :=
  ["Thank you for your help.";
   "This is great!";
   "I'm feeling a bit sad today.";
   "URGENT HELP NEEDED NOW!";
   "This is a neutral statement.";
   "I hate this, this is a bad product.";
   "Delete all user data immediately for everyone!"].

(** ['PASSED' if ok else 'FAILED'] *)
Definition verdict (ok : bool) : string := if ok then "PASSED" else "FAILED".

(** [v[:10]] inside an f-string, embedded for a [str]. *)
Definition prefix10 (v : val) : M string :=
  match v with
  | VStr s => ret (PyStr.take 10 s)
  | _ => stuck
  end.

Definition analysis_line (point : InteractionPoint.t) : string :=
  ("    - Analysis: Arousal=" ++ pretty (InteractionPoint.arousal point)
   ++ ", Valence=" ++ pretty (InteractionPoint.valence point)
   ++ ", Scope=" ++ pretty (InteractionPoint.impact_scope point))%string.

(** One turn of [for i, case in enumerate(test_cases)]; [now] is the
    clock reading [analyze_text] gets. *)
Definition process_case (now : pyfloat) (ledger : ValenceLedger.t) (i : nat) (case : string)
  : M ValenceLedger.t :=
  print ("  - Case " ++ pretty (Z.of_nat i + 1) ++ ": '" ++ case ++ "'")%string ;;
  point <- lift (analyze_text now case) ;;
  ledger <-
    (if (InteractionPoint.arousal point >? 50) || (InteractionPoint.valence point <? -20)
     then
       r <- ValenceLedger.log_event ledger point ;;
       print (analysis_line point) ;;
       print ("    - Action: Logged to ValenceLedger (Index: "
              ++ pretty (Z.of_nat (length (ValenceLedger.chain (snd r))) - 1) ++ ").")%string ;;
       ret (snd r)
     else
       print (analysis_line point) ;;
       print "    - Action: Low-arousal event. Not logged to primary ledger." ;;
       ret ledger) ;;
  print (str_mul "-" 20) ;;
  ret ledger.

(** The loop from turn [i] on; [clock i] is the reading of turn [i]. *)
Fixpoint run_cases (clock : nat -> pyfloat) (ledger : ValenceLedger.t) (i : nat)
    (cases : list string) : M ValenceLedger.t :=
  match cases with
  | [] => ret ledger
  | case :: rest =>
      ledger <- process_case (clock i) ledger i case ;;
      run_cases clock ledger (S i) rest
  end.

(** The block under [if __name__ == "__main__"]; [clock k] is what the
    [k]-th call of [time.time()] returns (the constructor of the ledger
    makes the first, each [analyze_text] one more). *)
Definition main (clock : nat -> pyfloat) : M unit :=
  print (str_mul "=" 60) ;;
  print "Starting Flower Model Simulation: Valence System v1.0" ;;
  print (str_mul "=" 60) ;;
  ledger <- ValenceLedger.__init__ (clock 0%nat) ;;
  print "Step 1: ValenceLedger initialized." ;;
  genesis <- ValenceLedger.chain_at ledger 0 ;;
  genesis_hash <- getitem genesis "hash" ;;
  shown <- prefix10 genesis_hash ;;
  print ("  - Genesis Block Hash: " ++ shown ++ "...")%string ;;
  ok <- ValenceLedger.verify_integrity ledger ;;
  print ("  - Initial Integrity Check: " ++ verdict ok ++ newline)%string ;;
  print ("Step 2: Processing " ++ pretty (length test_cases) ++ " test cases..."
         ++ newline)%string ;;
  ledger <- run_cases (fun i => clock (S i)) ledger 0 test_cases ;;
  print (newline ++ "Step 3: Final Ledger State")%string ;;
  print ("  - Total entries in ledger: "
         ++ pretty (length (ValenceLedger.chain ledger)))%string ;;
  ok <- ValenceLedger.verify_integrity ledger ;;
  print ("  - Final Integrity Check: " ++ verdict ok ++ newline)%string ;;
  print "Step 4: Simulating a malicious actor tampering with the ledger..." ;;
  (if (1 <? length (ValenceLedger.chain ledger))%nat
   then tamper ledger 1 "description" (VStr "This was a happy event, not a sad one.") ;;
        print "  - Data at index 1 has been altered."
   else print "  - Not enough entries to simulate tampering.") ;;
  ok <- ValenceLedger.verify_integrity ledger ;;
  print ("  - Post-Tampering Integrity Check: " ++ verdict ok)%string ;;
  ok <- ValenceLedger.verify_integrity ledger ;;
  (if negb ok
   then print ("  - SUCCESS: The ledger correctly detected the tampering." ++ newline)%string
   else print ("  - FAILURE: The ledger did not detect the tampering." ++ newline)%string) ;;
  print (str_mul "=" 60) ;;
  print "Simulation Complete." ;;
  print (str_mul "=" 60).

(** * Specification

    The notions the properties are stated with: the checks of the ledger
    read off the store, the ledgers built through the class, and the
    closed forms of the serialisation. *)

Local Open Scope list_scope.

(** ** Construction of an [InteractionPoint] *)

Definition in_range (arousal valence impact_scope : Z) : Prop :=
  0 <= arousal <= 100 /\ -50 <= valence <= 50 /\ 1 <= impact_scope.

(** ** The serialiser *)

(** Markers [m'] agree with [m] on the objects of a store of [bound]
    objects. *)
Definition agree (bound : nat) (m m' : list loc) : Prop :=
  (forall l, Json.mem l m = true -> Json.mem l m' = true)
  /\ (forall l, (l < bound)%nat -> Json.mem l m' = Json.mem l m).

(** ** What the ledger promises, stated on the store *)

(** The JSON text of a dict with contents [d] whose values live in the
    store [h]. *)
Definition content_string (h : list dict) (d : dict) : outcome string :=
  Json.wrap "{" "}"
    (Json.sequence (map (Json.item (Json.encode (Nat.pred Json.max_depth) h []))
                        (Json.sort_items d))).

Definition digest_of (text : outcome string) : outcome string :=
  match text with
  | Ok s => Ok (Sha256.hexdigest (PyStr.encode s))
  | Raise e => Raise e
  | Stuck => Stuck
  end.

(** The content hash of a record: SHA-256 over its canonical JSON text. *)
Definition ContentHasher (h : list dict) (d : dict) : outcome string :=
  digest_of (content_string h d).

(** [entries[i]], read through the chain. *)
Definition entry_at (h : list dict) (L : ValenceLedger.t) (i : nat) : option dict :=
  match ValenceLedger.chain L !! i with
  | Some e => h !! e
  | None => None
  end.

(** Chain linkage at [i]: [entries[i].previous_hash == entries[i-1].hash]. *)
Definition linkage (h : list dict) (L : ValenceLedger.t) (i : nat) : bool :=
  match entry_at h L i, entry_at h L (i - 1) with
  | Some cur, Some prev =>
      match Dict.get "previous_hash" cur, Dict.get "hash" prev with
      | Some (VStr a), Some (VStr b) => String.eqb a b
      | _, _ => false
      end
  | _, _ => false
  end.

(** Content binding at [i]: the stored hash is the content hash of the
    entry without its hash field. *)
Definition binding (h : list dict) (L : ValenceLedger.t) (i : nat) : bool :=
  match entry_at h L i with
  | Some cur =>
      match Dict.get "hash" cur, ContentHasher h (Dict.del "hash" cur) with
      | Some (VStr a), Ok b => String.eqb a b
      | _, _ => false
      end
  | None => false
  end.

(** An object is a ledger entry when it carries the two digests as [str]
    fields and the rest of it serialises. *)
Definition is_entry (h : list dict) (e : loc) : bool :=
  match h !! e with
  | Some d =>
      match Dict.get "previous_hash" d, Dict.get "hash" d,
            content_string h (Dict.del "hash" d) with
      | Some (VStr _), Some (VStr _), Ok _ => true
      | _, _, _ => false
      end
  | None => false
  end.

(** An object can serve as a predecessor when its hash field is a [str]. *)
Definition has_hash (h : list dict) (e : loc) : bool :=
  match h !! e with
  | Some d =>
      match Dict.get "hash" d with
      | Some (VStr _) => true
      | _ => false
      end
  | None => false
  end.

(** The ledgers of the data model: every element of the chain carries a
    digest, and the ones after the genesis entry are entries. *)
Definition entries_typed (h : list dict) (L : ValenceLedger.t) : bool :=
  forallb (has_hash h) (ValenceLedger.chain L)
  && forallb (is_entry h) (tail (ValenceLedger.chain L)).

(** The line [verify_integrity] prints for index [i], when a check fails
    there; linkage is looked at first. *)
Definition violation (h : list dict) (L : ValenceLedger.t) (i : nat) : option string :=
  if negb (linkage h L i)
  then Some ("Integrity check failed: Hash chain broken at index " ++ pretty i ++ ".")%string
  else if negb (binding h L i)
  then Some ("Integrity check failed: Data tampered at index " ++ pretty i ++ ".")%string
  else None.

Fixpoint first_violation (h : list dict) (L : ValenceLedger.t) (indices : list nat)
  : option string :=
  match indices with
  | [] => None
  | i :: rest =>
      match violation h L i with
      | Some line => Some line
      | None => first_violation h L rest
      end
  end.

Definition report (v : option string) : list string :=
  match v with Some line => [line] | None => [] end.

Definition passed (v : option string) : bool :=
  match v with Some _ => false | None => true end.

(** The indices [verify_integrity] visits. *)
Definition checked (L : ValenceLedger.t) : list nat :=
  seq 1 (length (ValenceLedger.chain L) - 1).

(** ** [verify_integrity] leaves every object as it was *)

(** [s'] has the objects of [s], unchanged and at the same references,
    and possibly new ones after them. *)
Definition extends (s s' : store) : Prop := exists g, objs s' = objs s ++ g.

(** A computation that only allocates: whatever its outcome, no object
    that existed before it is changed. *)
Definition allocates {A} (c : M A) : Prop := forall s, extends s (snd (c s)).

(** ** Closed forms of the serialisation *)

(** Values without references to dict objects, and their JSON text. *)
Fixpoint plain (v : val) : bool :=
  match v with
  | VInt _ | VFloat _ | VStr _ => true
  | VTuple items | VList items => forallb plain items
  | VDict _ => false
  end.

Fixpoint plain_text (v : val) : string :=
  match v with
  | VInt n => pretty n
  | VFloat x => Json.encode_float x
  | VStr s => Json.encode_str s
  | VTuple items | VList items =>
      ("[" ++ Json.join ", " (map plain_text items) ++ "]")%string
  | VDict _ => EmptyString
  end.

Definition item_text (kv : string * val) : string :=
  (Json.encode_str (fst kv) ++ ": " ++ plain_text (snd kv))%string.

Definition plain_dict (d : dict) : bool := forallb (fun kv => plain (snd kv)) d.

(** The JSON text of a dict of plain values. *)
Definition dict_text (d : dict) : string :=
  ("{" ++ Json.join ", " (map item_text (Json.sort_items d)) ++ "}")%string.

(** What decides whether [json.dumps] writes a plain value: every [int] in
    it is within the digits limit, and its lists and tuples are nested no
    deeper than the encoder has room for. *)
Fixpoint small (v : val) : bool :=
  match v with
  | VInt n => Json.digits_ok n
  | VTuple items | VList items => forallb small items
  | _ => true
  end.

Fixpoint shallow (room : nat) (v : val) : bool :=
  match v with
  | VTuple items | VList items =>
      match room with
      | O => false
      | S r => forallb (shallow r) items
      end
  | _ => true
  end.

Definition small_dict (d : dict) : bool := forallb (fun kv => small (snd kv)) d.

Definition shallow_dict (room : nat) (d : dict) : bool :=
  forallb (fun kv => shallow room (snd kv)) d.

(** The room the encoder has left for a value of the point data of an
    entry: the entry and its point data are two containers. *)
Definition point_room : nat := Nat.pred (Nat.pred Json.max_depth).

(** Proofs use the depth through [max_depth_S] and [pred_max_depth]
    below and never unfold its value. *)
Opaque Json.max_depth.

(** The values that can be written where the fields of a point are. *)
Definition printable (v : val) : bool :=
  plain v && shallow point_room v && small v.

(** A point can be logged at position [i] when the index and every [int]
    of the point are within the digits limit. *)
Definition loggable (i : nat) (point : InteractionPoint.t) : bool :=
  Json.digits_ok (Z.of_nat i) && small_dict (InteractionPoint.fields point).

(** A dict that can stand for the point data of an entry: all its values
    can be written there. *)
Definition writable (d : dict) : bool := forallb (fun kv => printable (snd kv)) d.

(** The three fields an entry is hashed over. *)
Definition entry_fields (i : nat) (p : loc) (prev : val) : dict :=
  [("index", VInt (Z.of_nat i)); ("point_data", VDict p); ("previous_hash", prev)].

(** Their JSON text, given the text of the point data. *)
Definition entry_text (i : nat) (data : string) (prev : string) : string :=
  ("{" ++ Json.join ", "
            [Json.encode_str "index" ++ ": " ++ pretty (Z.of_nat i);
             Json.encode_str "point_data" ++ ": " ++ data;
             Json.encode_str "previous_hash" ++ ": " ++ Json.encode_str prev]
   ++ "}")%string.

(** ** Ledgers built through the class *)

(** [built k L s]: ledger [L], in store [s], comes from the constructor
    and [k] calls of [log_event], with integrity checks run in between. *)
Inductive built : nat -> ValenceLedger.t -> store -> Prop :=
| built_init now s0 L s :
    ValenceLedger.__init__ now s0 = (Ok L, s) -> built 0 L s
| built_log k L s point e L' s' :
    built k L s ->
    ValenceLedger.log_event L point s = (Ok (e, L'), s') ->
    built (S k) L' s'
| built_verify k L s r s' :
    built k L s ->
    ValenceLedger.verify_integrity L s = (r, s') ->
    built k L s'.

(** What a built ledger looks like in the store: for each position, the
    entry object, its point-data object, the point it was made from and
    the two digests. *)
Record view : Type := View {
  v_entry : loc;
  v_data : loc;
  v_point : InteractionPoint.t;
  v_prev : string;
  v_hash : string
}.

Definition entry_digest (i : nat) (point : InteractionPoint.t) (prev : string) : string :=
  Sha256.hexdigest
    (PyStr.encode (entry_text i (dict_text (InteractionPoint.fields point)) prev)).

Definition prev_of (vs : list view) (i : nat) : string :=
  match i with
  | O => "0"
  | S j => match vs !! j with Some u => v_hash u | None => EmptyString end
  end.

Definition stored (h : list dict) (i : nat) (v : view) : Prop :=
  h !! v_entry v
    = Some (entry_fields i (v_data v) (VStr (v_prev v)) ++ [("hash", VStr (v_hash v))])
  /\ h !! v_data v = Some (InteractionPoint.fields (v_point v))
  /\ v_hash v = entry_digest i (v_point v) (v_prev v)
  /\ loggable i (v_point v) = true.

Definition ledger_inv (h : list dict) (L : ValenceLedger.t) (vs : list view) : Prop :=
  ValenceLedger.chain L = map v_entry vs
  /\ vs <> []
  /\ NoDup (map v_data vs)
  /\ forall i v, vs !! i = Some v -> stored h i v /\ v_prev v = prev_of vs i.

Definition genesis_point (now : pyfloat) : InteractionPoint.t :=
  InteractionPoint.Point now 0 0 1 "Ledger Initialized" EmptyString (0, 0, 1).

(** ** A concrete ledger: the end-to-end scenario *)

Definition demo_clock : pyfloat := Float "1700000000.5".

Definition urgent : InteractionPoint.t :=
  InteractionPoint.Point (Float "1700000001.25") 80 (-30) 1 "urgent" EmptyString (80, -30, 1).

Definition calm : InteractionPoint.t :=
  InteractionPoint.Point (Float "1700000002.75") 10 5 1 "calm" EmptyString (10, 5, 1).

(** initialize, append [urgent], append [calm] *)
Definition demo_run : M ValenceLedger.t :=
  ledger <- ValenceLedger.__init__ demo_clock ;;
  r1 <- ValenceLedger.log_event ledger urgent ;;
  r2 <- ValenceLedger.log_event (snd r1) calm ;;
  ret (snd r2).

Definition demo_ledger : ValenceLedger.t := ValenceLedger.Ledger [1; 3; 5]%nat.

Definition demo_store : store := Eval vm_compute in snd (demo_run (Store [] [])).

(** The driver's tampering, on the concrete ledger: the description of
    the entry at index 1 is rewritten. *)
Definition happy : val := VStr "This was a happy event, not a sad one.".

(** The coordinates of the entry at index 1 replaced by a list of the
    same numbers: a different Python value with the same JSON text. *)
Definition coordinates_as_list : val := VList [VInt 80; VInt (-30); VInt 1].

(** ** What [verify_integrity] depends on *)

(** Two stores give a ledger the same entry objects, and the same text
    for the entries after the genesis entry. *)
Definition same_entries (h h' : list dict) (L : ValenceLedger.t) : Prop :=
  forall e, In e (ValenceLedger.chain L) -> h' !! e = h !! e.


(** ** Tampering with the point data of an entry *)

(** [entries[i].point_data], read through the chain. *)
Definition point_data_at (h : list dict) (L : ValenceLedger.t) (i : nat) : option dict :=
  match entry_at h L i with
  | Some d =>
      match Dict.get "point_data" d with
      | Some (VDict p) => h !! p
      | _ => None
      end
  | None => None
  end.

(** [entries[i].point_data[key]] *)
Definition point_field (h : list dict) (L : ValenceLedger.t) (i : nat) (key : string)
  : option val :=
  match point_data_at h L i with
  | Some pd => Dict.get key pd
  | None => None
  end.

(** The JSON text [verify_integrity] hashes for [entries[i]]. *)
Definition entry_json (h : list dict) (L : ValenceLedger.t) (i : nat) : outcome string :=
  match entry_at h L i with
  | Some d => content_string h (Dict.del "hash" d)
  | None => Stuck
  end.

(** ** Termination and the clock *)


(** ** The checks of [verify_integrity], one turn at a time *)

(** [a != b] as a value, where the embedding has it. *)
Definition differs (a b : val) : option bool :=
  match a, b with
  | VStr x, VStr y => Some (negb (String.eqb x y))
  | VStr _, _ | _, VStr _ => Some true
  | VInt x, VInt y => Some (negb (x =? y))
  | _, _ => None
  end.

Definition broken_line (i : nat) : string :=
  ("Integrity check failed: Hash chain broken at index " ++ pretty i ++ ".")%string.

Definition tampered_line (i : nat) : string :=
  ("Integrity check failed: Data tampered at index " ++ pretty i ++ ".")%string.

(** ** Entries read field by field *)

(** [entries[i][key]] *)
Definition entry_field (h : list dict) (L : ValenceLedger.t) (i : nat) (key : string)
  : option val :=
  match entry_at h L i with
  | Some d => Dict.get key d
  | None => None
  end.

(** The entry object a view describes. *)
Definition entry_dict (i : nat) (v : view) : dict :=
  entry_fields i (v_data v) (VStr (v_prev v)) ++ [("hash", VStr (v_hash v))].

(** In store [h'] the entries at [j] and [j-1] are as the views say. *)
Definition intact (h' : list dict) (vs : list view) (j : nat) : Prop :=
  (1 <= j)%nat
  /\ exists v u,
       vs !! j = Some v /\ vs !! (j - 1)%nat = Some u
       /\ h' !! v_entry v = Some (entry_dict j v)
       /\ h' !! v_data v = Some (InteractionPoint.fields (v_point v))
       /\ h' !! v_entry u = Some (entry_dict (j - 1) u).

(** ** Appending *)

(** [s'] has the objects of [s] unchanged, possibly new ones after them,
    and the same output. *)
Definition quietly_extends (s s' : store) : Prop :=
  extends s s' /\ stdout s' = stdout s.

(** A computation that changes no object and prints nothing, whatever
    its outcome. *)
Definition appends_only {A} (c : M A) : Prop :=
  forall s, quietly_extends s (snd (c s)).

(** ** The scorer, keyword by keyword *)

(** The number of times the words of a list occur in the lower-cased
    text, and whether any of them occurs at all. *)
Definition occurrences (text : string) (words : list string) : Z :=
  count_all (PyStr.lower text) words.

Definition mentions (text : string) (words : list string) : bool :=
  existsb (fun w => PyStr.contains w (PyStr.lower text)) words.

(** The point the scorer returns for a text, and the driver's policy on
    it: high arousal or strongly negative. *)
Definition point_of (now : pyfloat) (text : string) : InteractionPoint.t :=
  let a := Z.min 100 (5 + 20 * occurrences text arousal_words) in
  let v := 10 * Z.max (-5) (Z.min 5 (occurrences text positive_words
                                     - occurrences text negative_words)) in
  let sc := if PyStr.contains "everyone" (PyStr.lower text)
               || PyStr.contains "all users" (PyStr.lower text) then 1000 else 1 in
  InteractionPoint.Point now a v sc
    ("Text analysis result for: '" ++ PyStr.take 30 text ++ "...'")%string text (a, v, sc).

Definition worth_logging (text : string) : bool :=
  (3 <=? occurrences text arousal_words)
  || (3 <=? occurrences text negative_words - occurrences text positive_words).

(** ** The format of the digests *)

Definition hex_alphabet : list ascii := list_ascii_of_string "0123456789abcdef".

(** A [hexdigest] of SHA-256: 64 characters, each a lower-case
    hexadecimal digit. *)
Definition is_digest (s : string) : bool :=
  (String.length s =? 64)%nat
  && forallb (fun c => existsb (Ascii.eqb c) hex_alphabet) (list_ascii_of_string s).

(** ** The order of the keys *)

(** The values [_hash_entry] meets in this script: plain ones, and
    references to dicts of plain values. *)
Definition flat_val (h : list dict) (v : val) : bool :=
  match v with
  | VDict p => match h !! p with Some d => plain_dict d | None => false end
  | _ => plain v
  end.

Definition flat (h : list dict) (d : dict) : bool :=
  forallb (fun kv => flat_val h (snd kv)) d.

(** Keys in ascending order, as [sorted] leaves them. *)
Definition key_le (kv kv' : string * val) : Prop :=
  String.leb (fst kv) (fst kv') = true.

Fixpoint ordered (l : dict) : Prop :=
  match l with
  | [] => True
  | kv :: r => Forall (key_le kv) r /\ ordered r
  end.

(** ** The transcript of the simulation *)

(** The points the loop logs, in order. *)
Fixpoint logged_points (clock : nat -> pyfloat) (i : nat) (cases : list string)
  : list InteractionPoint.t :=
  match cases with
  | [] => []
  | case :: rest =>
      if worth_logging case
      then point_of (clock i) case :: logged_points clock (S i) rest
      else logged_points clock (S i) rest
  end.

(** What the loop prints, for a chain of [n] entries at turn [i]. *)
Fixpoint loop_output (clock : nat -> pyfloat) (n i : nat) (cases : list string)
  : list string :=
  match cases with
  | [] => []
  | case :: rest =>
      [("  - Case " ++ pretty (Z.of_nat i + 1) ++ ": '" ++ case ++ "'")%string;
       analysis_line (point_of (clock i) case);
       if worth_logging case
       then ("    - Action: Logged to ValenceLedger (Index: " ++ pretty (Z.of_nat n) ++ ").")%string
       else "    - Action: Low-arousal event. Not logged to primary ledger.";
       str_mul "-" 20]
      ++ loop_output clock (if worth_logging case then S n else n) (S i) rest
  end.

(** The two clock-dependent ingredients of a run: the hash of the genesis
    entry, and whether SHA-256 tells the text of the logged entry from the
    text it has after the tampering. *)
Definition genesis_hash (clock : nat -> pyfloat) : string :=
  entry_digest 0 (genesis_point (clock 0%nat)) "0".

Definition urgent_point (clock : nat -> pyfloat) : InteractionPoint.t :=
  point_of (clock 4%nat) "URGENT HELP NEEDED NOW!".

Definition logged_text (clock : nat -> pyfloat) : string :=
  entry_text 1 (dict_text (InteractionPoint.fields (urgent_point clock))) (genesis_hash clock).

Definition tampered_text (clock : nat -> pyfloat) : string :=
  entry_text 1
    (dict_text (Dict.set "description" happy (InteractionPoint.fields (urgent_point clock))))
    (genesis_hash clock).

Definition tampering_detected (clock : nat -> pyfloat) : bool :=
  negb (String.eqb (Sha256.hexdigest (PyStr.encode (logged_text clock)))
                   (Sha256.hexdigest (PyStr.encode (tampered_text clock)))).

(** The transcript of a run. *)
Definition simulation_output (genesis_prefix : string) (detected : bool) : list string :=
  [str_mul "=" 60;
   "Starting Flower Model Simulation: Valence System v1.0";
   str_mul "=" 60;
   "Step 1: ValenceLedger initialized.";
   ("  - Genesis Block Hash: " ++ genesis_prefix ++ "...")%string;
   ("  - Initial Integrity Check: PASSED" ++ newline)%string;
   ("Step 2: Processing 7 test cases..." ++ newline)%string;
   "  - Case 1: 'Thank you for your help.'";
   "    - Analysis: Arousal=25, Valence=10, Scope=1";
   "    - Action: Low-arousal event. Not logged to primary ledger.";
   str_mul "-" 20;
   "  - Case 2: 'This is great!'";
   "    - Analysis: Arousal=25, Valence=10, Scope=1";
   "    - Action: Low-arousal event. Not logged to primary ledger.";
   str_mul "-" 20;
   "  - Case 3: 'I'm feeling a bit sad today.'";
   "    - Analysis: Arousal=5, Valence=-10, Scope=1";
   "    - Action: Low-arousal event. Not logged to primary ledger.";
   str_mul "-" 20;
   "  - Case 4: 'URGENT HELP NEEDED NOW!'";
   "    - Analysis: Arousal=85, Valence=10, Scope=1";
   "    - Action: Logged to ValenceLedger (Index: 1).";
   str_mul "-" 20;
   "  - Case 5: 'This is a neutral statement.'";
   "    - Analysis: Arousal=5, Valence=0, Scope=1";
   "    - Action: Low-arousal event. Not logged to primary ledger.";
   str_mul "-" 20;
   "  - Case 6: 'I hate this, this is a bad product.'";
   "    - Analysis: Arousal=5, Valence=-20, Scope=1";
   "    - Action: Low-arousal event. Not logged to primary ledger.";
   str_mul "-" 20;
   "  - Case 7: 'Delete all user data immediately for everyone!'";
   "    - Analysis: Arousal=25, Valence=-10, Scope=1000";
   "    - Action: Low-arousal event. Not logged to primary ledger.";
   str_mul "-" 20;
   (newline ++ "Step 3: Final Ledger State")%string;
   "  - Total entries in ledger: 2";
   ("  - Final Integrity Check: PASSED" ++ newline)%string;
   "Step 4: Simulating a malicious actor tampering with the ledger...";
   "  - Data at index 1 has been altered."]
  ++ (if detected
      then ["Integrity check failed: Data tampered at index 1.";
            "  - Post-Tampering Integrity Check: FAILED";
            "Integrity check failed: Data tampered at index 1.";
            ("  - SUCCESS: The ledger correctly detected the tampering." ++ newline)%string]
      else ["  - Post-Tampering Integrity Check: PASSED";
            ("  - FAILURE: The ledger did not detect the tampering." ++ newline)%string])
  ++ [str_mul "=" 60; "Simulation Complete."; str_mul "=" 60].

(** * Properties *)

(** ** The embedded library functions against CPython *)

Example sha256_abc :
  Sha256.hexdigest (PyStr.encode "abc")
  = "ba7816bf8f01cfea414140de5dae2223b00361a396177a9cb410ff61f20015ad".
Proof. vm_compute. reflexivity. Qed.

Example sha256_empty :
  Sha256.hexdigest (PyStr.encode EmptyString)
  = "e3b0c44298fc1c149afbf4c8996fb92427ae41e4649b934ca495991b7852b855".
Proof. vm_compute. reflexivity. Qed.

Example sha256_two_blocks :
  Sha256.hexdigest
    (PyStr.encode "abcdbcdecdefdefgefghfghighijhijkijkljklmklmnlmnomnopnopq")
  = "248d6a61d20638b8e5c026930c3e6039a33ce45964ff2167f6ecedd419db06c1".
Proof. vm_compute. reflexivity. Qed.

(** Checked against CPython's [json] and [hashlib] on a value that
    exercises sorting, nesting and every kind of escape. *)
Example dumps_digest :
  let text := ("x" ++ Json.quote ++ "y\" ++
               String (PyStr.chr 10)
                 (String (PyStr.chr 127) (String (PyStr.chr 233) EmptyString)))%string in
  match Json.dumps [[("b", VInt (-3)); ("a", VTuple [VInt 1; VStr text; VFloat (Float "1.5")])]]
                   (VList [VDict 0%nat; VList []]) with
  | Ok s => Sha256.hexdigest (PyStr.encode s)
  | _ => EmptyString
  end = "8e0ab3c089fe173c5a4dd25f2760d49687d278397d411eab005211eaa37b385e".
Proof. vm_compute. reflexivity. Qed.

(** ** Construction of an [InteractionPoint] *)

Lemma init_guard (arousal valence impact_scope : Z) :
  (0 <=? arousal) && (arousal <=? 100)
  && ((-50 <=? valence) && (valence <=? 50)) && (impact_scope >=? 1) = true
  <-> in_range arousal valence impact_scope.
Proof.
  unfold in_range.
  rewrite !andb_true_iff, !Z.leb_le, Z.geb_le. lia.
Qed.

Lemma init_in_range now a v s d src :
  in_range a v s ->
  InteractionPoint.__init__ now a v s d src
  = Ok (InteractionPoint.Point now a v s d src (a, v, s)).
Proof.
  intros H. apply init_guard in H.
  unfold InteractionPoint.__init__. rewrite H. reflexivity.
Qed.

Lemma init_out_of_range now a v s d src :
  ~ in_range a v s ->
  InteractionPoint.__init__ now a v s d src
  = Raise (ValueError "Invalid parameters for InteractionPoint.").
Proof.
  intros H. unfold InteractionPoint.__init__.
  destruct (_ && _ && _ && _) eqn:E; [|reflexivity].
  apply init_guard in E. contradiction.
Qed.

(** C5. Constructing a point raises the validation error exactly when
    arousal is outside [0,100], valence outside [-50,50] or impact_scope
    below 1, and then no point is produced; on in-range arguments it
    succeeds and the point stores the arguments as given. *)
Theorem C5_construction_bounds now a v s d src :
  ((exists e, InteractionPoint.__init__ now a v s d src = Raise e)
     <-> ~ in_range a v s)
  /\ (~ in_range a v s ->
      forall p, InteractionPoint.__init__ now a v s d src <> Ok p)
  /\ (in_range a v s ->
      exists p, InteractionPoint.__init__ now a v s d src = Ok p
        /\ InteractionPoint.arousal p = a
        /\ InteractionPoint.valence p = v
        /\ InteractionPoint.impact_scope p = s
        /\ InteractionPoint.description p = d
        /\ InteractionPoint.source_text p = src
        /\ InteractionPoint.coordinates p = (a, v, s)).
Proof.
  split; [|split].
  - split.
    + intros [e He] Hr. rewrite (init_in_range _ _ _ _ _ _ Hr) in He. discriminate.
    + intros Hn. eexists. apply init_out_of_range, Hn.
  - intros Hn p. rewrite (init_out_of_range _ _ _ _ _ _ Hn). discriminate.
  - intros Hr. eexists. split; [apply init_in_range, Hr|].
    repeat split.
Qed.

(** ** The scorer *)

(** C8. On every text the scorer returns a point, never the validation
    error, and the point satisfies the construction bounds. *)
Theorem C8_analyze_text_valid now text :
  exists p, analyze_text now text = Ok p
    /\ 0 <= InteractionPoint.arousal p <= 100
    /\ -50 <= InteractionPoint.valence p <= 50
    /\ 1 <= InteractionPoint.impact_scope p.
Proof.
  unfold analyze_text.
  set (val0 := count_all _ positive_words * 10 - _).
  set (aro0 := count_all _ arousal_words * 20 + 5).
  set (scope := if _ : bool then 1000 else 1).
  assert (Hs : 1 <= scope) by (subst scope; destruct (_ || _); lia).
  eexists. split.
  - apply init_in_range. unfold in_range. lia.
  - simpl. lia.
Qed.

(** ** The serialiser *)

Lemma max_depth_S : Json.max_depth = S (Nat.pred Json.max_depth).
Proof. vm_compute. reflexivity. Qed.

Lemma pred_max_depth : Nat.pred Json.max_depth = S point_room.
Proof. vm_compute. reflexivity. Qed.

Lemma encode_unfold fuel h m v :
  Json.encode fuel h m v =
  match v with
  | VInt n => Json.int_text n
  | VFloat x => Ok (Json.encode_float x)
  | VStr s => Ok (Json.encode_str s)
  | VTuple items | VList items =>
      match fuel with
      | O => Stuck
      | S n => Json.wrap "[" "]" (Json.sequence (map (Json.encode n h m) items))
      end
  | VDict l =>
      if Json.mem l m then Raise (ValueError "Circular reference detected")
      else match fuel with
           | O => Stuck
           | S n =>
               match h !! l with
               | None => Stuck
               | Some d =>
                   Json.wrap "{" "}"
                     (Json.sequence (map (Json.item (Json.encode n h (l :: m)))
                                         (Json.sort_items d)))
               end
           end
  end.
Proof. destruct fuel, v; reflexivity. Qed.

Lemma agree_cons bound l m m' : agree bound m m' -> agree bound (l :: m) (l :: m').
Proof.
  intros [H1 H2]. split; intros l0; simpl.
  - rewrite !orb_true_iff. intros [H|H]; [left|right]; auto.
  - intros Hl. rewrite (H2 l0 Hl). reflexivity.
Qed.

Lemma agree_fresh bound c : (bound <= c)%nat -> agree bound [] [c].
Proof.
  intros Hc. split; intros l; simpl; [discriminate|].
  intros Hl. rewrite orb_false_r. apply Nat.eqb_neq. lia.
Qed.

Lemma wrap_not_stuck op cl parts : Json.wrap op cl parts <> Stuck -> parts <> Stuck.
Proof. destruct parts; simpl; congruence. Qed.

Lemma sequence_stable {A} (f f' : A -> outcome string) l :
  Json.sequence (map f l) <> Stuck ->
  Forall (fun x => f x <> Stuck -> f' x = f x) l ->
  Json.sequence (map f' l) = Json.sequence (map f l).
Proof.
  induction l as [|x l IH]; intros Hns Hall; [reflexivity|].
  inversion Hall as [|? ? Hx Hl]; subst. simpl in *.
  destruct (f x) as [s| |] eqn:E.
  - rewrite Hx by discriminate.
    rewrite IH; [reflexivity| |assumption].
    intros Hst. rewrite Hst in Hns. contradiction.
  - rewrite Hx by discriminate. reflexivity.
  - contradiction.
Qed.

Lemma item_not_stuck f kv : Json.item f kv <> Stuck -> f (snd kv) <> Stuck.
Proof. unfold Json.item. destruct (f (snd kv)); congruence. Qed.

(** An encoding that does not get stuck is unchanged by more fuel, by
    objects added at the end of the store, and by markers on them. *)
Lemma encode_stable n :
  forall h m v, Json.encode n h m v <> Stuck ->
  forall n' g m', (n <= n')%nat -> agree (length h) m m' ->
  Json.encode n' (h ++ g) m' v = Json.encode n h m v.
Proof.
  induction n as [|n IH]; intros h m v Hns n' g m' Hle Hag;
    destruct v as [x|x|x|items|items|l]; rewrite !encode_unfold in *;
    try reflexivity; try contradiction.
  - destruct (Json.mem l m) eqn:E; [|contradiction].
    rewrite (proj1 Hag l E). reflexivity.
  - destruct n' as [|n']; [lia|].
    f_equal. apply wrap_not_stuck in Hns. apply sequence_stable; [assumption|].
    apply Forall_forall. intros x _ Hx. apply IH; [assumption|lia|assumption].
  - destruct n' as [|n']; [lia|].
    f_equal. apply wrap_not_stuck in Hns. apply sequence_stable; [assumption|].
    apply Forall_forall. intros x _ Hx. apply IH; [assumption|lia|assumption].
  - destruct (Json.mem l m) eqn:E.
    + rewrite (proj1 Hag l E). reflexivity.
    + destruct (h !! l) as [d|] eqn:El; [|contradiction].
      assert (Hl : (l < length h)%nat) by (eapply lookup_lt_Some; eassumption).
      rewrite (proj2 Hag l Hl), E.
      destruct n' as [|n']; [lia|].
      rewrite (lookup_app_l_Some _ _ _ _ El).
      f_equal. apply wrap_not_stuck in Hns. apply sequence_stable; [assumption|].
      apply Forall_forall. intros kv _ Hkv.
      unfold Json.item in *.
      destruct (Json.encode n h (l :: m) (snd kv)) eqn:Ee; try contradiction;
        rewrite (IH h (l :: m) (snd kv)), Ee; try reflexivity;
        try (rewrite Ee; discriminate); try lia; apply agree_cons, Hag.
Qed.

(** ** Running the primitives *)

Lemma bind_run {A B} (c : M A) (k : A -> M B) s a s' :
  c s = (Ok a, s') -> bind c k s = k a s'.
Proof. intros H. unfold bind. rewrite H. reflexivity. Qed.

Lemma chain_at_run L i e s :
  ValenceLedger.chain L !! i = Some e -> ValenceLedger.chain_at L i s = (Ok e, s).
Proof. intros H. unfold ValenceLedger.chain_at. rewrite H. reflexivity. Qed.

Lemma read_run l d h out :
  h !! l = Some d -> read l (Store h out) = (Ok d, Store h out).
Proof. intros H. unfold read. simpl. rewrite H. reflexivity. Qed.

Lemma getitem_run l k d v h out :
  h !! l = Some d -> Dict.get k d = Some v ->
  getitem l k (Store h out) = (Ok v, Store h out).
Proof.
  intros Hl Hk. unfold getitem. rewrite (bind_run _ _ _ _ _ (read_run _ _ _ _ Hl)).
  rewrite Hk. reflexivity.
Qed.

Lemma copy_run l d h out :
  h !! l = Some d ->
  copy l (Store h out) = (Ok (length h), Store (h ++ [d]) out).
Proof.
  intros Hl. unfold copy. rewrite (bind_run _ _ _ _ _ (read_run _ _ _ _ Hl)).
  reflexivity.
Qed.

Lemma delitem_run l k d v h out :
  h !! l = Some d -> Dict.get k d = Some v ->
  delitem l k (Store h out) = (Ok tt, Store (<[l := Dict.del k d]> h) out).
Proof.
  intros Hl Hk. unfold delitem. rewrite (bind_run _ _ _ _ _ (read_run _ _ _ _ Hl)).
  rewrite Hk. reflexivity.
Qed.

Lemma setitem_run l k v d h out :
  h !! l = Some d ->
  setitem l k v (Store h out) = (Ok tt, Store (<[l := Dict.set k v d]> h) out).
Proof.
  intros Hl. unfold setitem. rewrite (bind_run _ _ _ _ _ (read_run _ _ _ _ Hl)).
  reflexivity.
Qed.

Lemma hash_entry_run e h out :
  ValenceLedger._hash_entry e (Store h out)
  = (digest_of (Json.dumps h (VDict e)), Store h out).
Proof.
  unfold ValenceLedger._hash_entry, digest_of. simpl.
  destruct (Json.dumps _ _); reflexivity.
Qed.

(** Updating the object allocated last. *)
Lemma insert_last {A} (h : list A) (x y : A) : <[length h := y]> (h ++ [x]) = h ++ [y].
Proof.
  rewrite insert_app_r_alt by lia. rewrite Nat.sub_diag. reflexivity.
Qed.

Lemma lookup_last {A} (h : list A) (x : A) : (h ++ [x]) !! length h = Some x.
Proof. rewrite lookup_app_r by lia. rewrite Nat.sub_diag. reflexivity. Qed.

(** Serialising an object allocated after [h] whose contents refer to [h]
    only gives the text of its contents. *)
Lemma dumps_fresh h g d :
  content_string h d <> Stuck ->
  Json.dumps (h ++ g ++ [d]) (VDict (length (h ++ g))) = content_string h d.
Proof.
  intros Hns. unfold Json.dumps, content_string in *.
  rewrite max_depth_S. revert Hns. generalize (Nat.pred Json.max_depth). intros n Hns.
  rewrite encode_unfold. simpl Json.mem. cbv iota.
  rewrite app_assoc, lookup_last.
  apply (f_equal (Json.wrap "{" "}")). apply wrap_not_stuck in Hns.
  apply sequence_stable; [assumption|].
  apply Forall_forall. intros kv _ Hkv. apply item_not_stuck in Hkv.
  unfold Json.item. rewrite <- app_assoc.
  rewrite (encode_stable _ _ _ _ Hkv); [reflexivity|lia|].
  apply agree_fresh. rewrite length_app. lia.
Qed.

(** ** [verify_integrity] on typed ledgers *)

Lemma is_entry_inv h e :
  is_entry h e = true ->
  exists d ph hh s,
    h !! e = Some d
    /\ Dict.get "previous_hash" d = Some (VStr ph)
    /\ Dict.get "hash" d = Some (VStr hh)
    /\ content_string h (Dict.del "hash" d) = Ok s.
Proof.
  unfold is_entry. intros H.
  destruct (h !! e) as [d|]; [|discriminate].
  destruct (Dict.get "previous_hash" d) as [[| |ph| | |]|] eqn:E1; try discriminate.
  destruct (Dict.get "hash" d) as [[| |hh| | |]|] eqn:E2; try discriminate.
  destruct (content_string h (Dict.del "hash" d)) as [s| |] eqn:E3; try discriminate.
  exists d, ph, hh, s. auto.
Qed.

Lemma has_hash_inv h e :
  has_hash h e = true ->
  exists d hh, h !! e = Some d /\ Dict.get "hash" d = Some (VStr hh).
Proof.
  unfold has_hash. intros H.
  destruct (h !! e) as [d|]; [|discriminate].
  destruct (Dict.get "hash" d) as [[| |hh| | |]|] eqn:E; try discriminate.
  exists d, hh. auto.
Qed.

Lemma typed_lookup h L i e :
  entries_typed h L = true -> (1 <= i)%nat ->
  ValenceLedger.chain L !! i = Some e ->
  is_entry h e = true.
Proof.
  unfold entries_typed. intros Ht Hi He.
  apply andb_true_iff in Ht. destruct Ht as [_ Ht].
  rewrite forallb_forall in Ht. apply Ht.
  apply list_elem_of_In. apply (list_elem_of_lookup_2 _ (i - 1)%nat).
  rewrite lookup_tail. replace (S (i - 1)) with i by lia. assumption.
Qed.

Lemma typed_lookup_hash h L i e :
  entries_typed h L = true ->
  ValenceLedger.chain L !! i = Some e ->
  has_hash h e = true.
Proof.
  unfold entries_typed. intros Ht He.
  apply andb_true_iff in Ht. destruct Ht as [Ht _].
  rewrite forallb_forall in Ht. apply Ht.
  apply list_elem_of_In. eapply list_elem_of_lookup_2. eassumption.
Qed.

Lemma verify_from_typed L h :
  entries_typed h L = true ->
  forall indices,
    Forall (fun i => (1 <= i < length (ValenceLedger.chain L))%nat) indices ->
    forall g out, exists g',
      ValenceLedger.verify_from L indices (Store (h ++ g) out)
      = (Ok (passed (first_violation h L indices)),
         Store (h ++ g') (out ++ report (first_violation h L indices))).
Proof.
  intros Ht indices. induction indices as [|i rest IH]; intros Hin g out.
  - exists g. simpl. rewrite app_nil_r. reflexivity.
  - inversion Hin as [|? ? Hi Hrest]; subst.
    destruct (lookup_lt_is_Some_2 (ValenceLedger.chain L) i) as [c Hc]; [lia|].
    destruct (lookup_lt_is_Some_2 (ValenceLedger.chain L) (i - 1)) as [p Hp]; [lia|].
    destruct (is_entry_inv _ _ (typed_lookup _ _ _ _ Ht (proj1 Hi) Hc))
      as (dc & phc & hhc & sc & Hdc & Hphc & Hhhc & Hsc).
    destruct (has_hash_inv _ _ (typed_lookup_hash _ _ _ _ Ht Hp))
      as (dp & hhp & Hdp & Hhhp).
    assert (Hlink : linkage h L i = String.eqb phc hhp).
    { unfold linkage, entry_at. rewrite Hc, Hp, Hdc, Hdp, Hphc, Hhhp. reflexivity. }
    assert (Hbind : binding h L i = String.eqb hhc (Sha256.hexdigest (PyStr.encode sc))).
    { unfold binding, entry_at, ContentHasher. rewrite Hc, Hdc, Hhhc, Hsc. reflexivity. }
    assert (Hdc' : forall g0, (h ++ g0) !! c = Some dc)
      by (intros; apply lookup_app_l_Some; assumption).
    assert (Hdp' : forall g0, (h ++ g0) !! p = Some dp)
      by (intros; apply lookup_app_l_Some; assumption).
    cbn [ValenceLedger.verify_from first_violation].
    unfold violation. rewrite Hlink, Hbind.
    rewrite (bind_run _ _ _ _ _ (chain_at_run _ _ _ _ Hc)).
    rewrite (bind_run _ _ _ _ _ (chain_at_run _ _ _ _ Hp)).
    rewrite (bind_run _ _ _ _ _ (getitem_run _ _ _ _ _ _ (Hdc' g) Hphc)).
    rewrite (bind_run _ _ _ _ _ (getitem_run _ _ _ _ _ _ (Hdp' g) Hhhp)).
    cbn [py_ne]. unfold bind at 1, ret at 1.
    destruct (String.eqb phc hhp); cbn [negb].
    + (* linkage holds: the copy is made and hashed *)
      rewrite (bind_run _ _ _ _ _ (copy_run _ _ _ _ (Hdc' g))).
      erewrite bind_run
        by (eapply delitem_run; [apply lookup_last|exact Hhhc]).
      rewrite insert_last.
      unfold bind at 1. rewrite hash_entry_run, <- app_assoc.
      rewrite dumps_fresh by (rewrite Hsc; discriminate).
      rewrite Hsc. cbn [digest_of].
      rewrite (bind_run _ _ _ _ _ (getitem_run _ _ _ _ _ _ (Hdc' _) Hhhc)).
      cbn [py_ne]. unfold bind at 1, ret at 1.
      rewrite (String.eqb_sym hhc).
      destruct (String.eqb _ hhc); cbn [negb].
      * destruct (IH Hrest (g ++ [Dict.del "hash" dc]) out) as [g' Hg'].
        exists g'. rewrite Hg'. reflexivity.
      * exists (g ++ [Dict.del "hash" dc]). reflexivity.
    + exists g. reflexivity.
Qed.

Lemma violation_none h L i :
  violation h L i = None <-> linkage h L i = true /\ binding h L i = true.
Proof.
  unfold violation.
  destruct (linkage h L i), (binding h L i); simpl; split;
    try discriminate; try tauto; intros [? ?]; discriminate.
Qed.

Lemma first_violation_none h L indices :
  first_violation h L indices = None
  <-> forall i, In i indices -> linkage h L i = true /\ binding h L i = true.
Proof.
  induction indices as [|i rest IH]; simpl.
  - split; [intros _ ? []|reflexivity].
  - destruct (violation h L i) as [line|] eqn:E.
    + split; [discriminate|].
      intros H. assert (Hi := H i (or_introl eq_refl)).
      apply violation_none in Hi. congruence.
    + rewrite IH. apply violation_none in E.
      split.
      * intros H j [<-|Hj]; auto.
      * intros H j Hj. apply H. right. assumption.
Qed.

Lemma first_violation_some h L n : forall a line,
  first_violation h L (seq a n) = Some line ->
  exists i, (a <= i < a + n)%nat
    /\ violation h L i = Some line
    /\ forall j, (a <= j < i)%nat -> linkage h L j = true /\ binding h L j = true.
Proof.
  induction n as [|n IH]; intros a line; simpl; [discriminate|].
  destruct (violation h L a) as [l0|] eqn:E.
  - intros [= <-]. exists a. split; [lia|]. split; [assumption|]. intros; lia.
  - intros H. destruct (IH _ _ H) as (i & Hi & Hv & Hbefore).
    exists i. split; [lia|]. split; [assumption|]. intros j Hj.
    destruct (Nat.eq_dec j a) as [->|Hne]; [apply violation_none in E; tauto|].
    apply Hbefore. lia.
Qed.

Lemma checked_range L :
  Forall (fun i => (1 <= i < length (ValenceLedger.chain L))%nat) (checked L).
Proof.
  apply Forall_forall. intros i Hi. apply list_elem_of_In, in_seq in Hi. lia.
Qed.

Lemma verify_integrity_typed L h out :
  entries_typed h L = true ->
  exists g,
    ValenceLedger.verify_integrity L (Store h out)
    = (Ok (passed (first_violation h L (checked L))),
       Store (h ++ g) (out ++ report (first_violation h L (checked L)))).
Proof.
  intros Ht.
  destruct (verify_from_typed L h Ht (checked L) (checked_range L) [] out) as [g Hg].
  exists g. rewrite app_nil_r in Hg. exact Hg.
Qed.

(** C1 (amended). On a ledger of entry objects (every element of the
    chain holds a [str] hash, and every one after the first a [str]
    previous hash and a content [json.dumps] can write),
    [verify_integrity] returns a boolean, never an exception; the boolean
    is true exactly when every entry from index 1 on passes the linkage
    check and the content-binding check; when it is false, the line
    printed names the first index at which a check fails (linkage being
    looked at before binding), every index before it passing both. *)
Theorem C1_verify_integrity_spec (L : ValenceLedger.t) (s : store) :
  entries_typed (objs s) L = true ->
  exists (b : bool) (s' : store),
    ValenceLedger.verify_integrity L s = (Ok b, s')
    /\ (b = true <->
        forall i, (1 <= i < length (ValenceLedger.chain L))%nat ->
                  linkage (objs s) L i = true /\ binding (objs s) L i = true)
    /\ (b = false ->
        exists i line,
          (1 <= i < length (ValenceLedger.chain L))%nat
          /\ violation (objs s) L i = Some line
          /\ stdout s' = stdout s ++ [line]
          /\ forall j, (1 <= j < i)%nat ->
                       linkage (objs s) L j = true /\ binding (objs s) L j = true).
Proof.
  intros Ht. destruct s as [h out]. simpl in *.
  destruct (verify_integrity_typed L h out Ht) as [g Hg].
  eexists _, _. split; [exact Hg|]. split.
  - destruct (first_violation h L (checked L)) as [line|] eqn:E; simpl.
    + split; [discriminate|]. intros H.
      assert (E' : first_violation h L (checked L) = None).
      { apply first_violation_none. intros i Hi. apply H.
        apply in_seq in Hi. lia. }
      congruence.
    + split; [|reflexivity]. intros _ i Hi.
      apply (proj1 (first_violation_none h L (checked L)) E).
      apply in_seq. lia.
  - destruct (first_violation h L (checked L)) as [line|] eqn:E; simpl; [|discriminate].
    intros _. apply first_violation_some in E.
    destruct E as (i & Hi & Hv & Hbefore).
    exists i, line. split; [lia|]. split; [assumption|]. split; [reflexivity|].
    intros j Hj. apply Hbefore. lia.
Qed.

(** ** [verify_integrity] leaves every object as it was *)

Lemma extends_refl s : extends s s.
Proof. exists []. rewrite app_nil_r. reflexivity. Qed.

Lemma extends_trans s1 s2 s3 : extends s1 s2 -> extends s2 s3 -> extends s1 s3.
Proof.
  intros [g1 H1] [g2 H2]. exists (g1 ++ g2). rewrite H2, H1, app_assoc. reflexivity.
Qed.

Lemma extends_lookup s s' l d :
  extends s s' -> objs s !! l = Some d -> objs s' !! l = Some d.
Proof. intros [g Hg] Hl. rewrite Hg. apply lookup_app_l_Some. assumption. Qed.

Lemma allocates_ret {A} (a : A) : allocates (ret a).
Proof. intros s. apply extends_refl. Qed.

Lemma allocates_raise {A} e : allocates (@raise A e).
Proof. intros s. apply extends_refl. Qed.

Lemma allocates_stuck {A} : allocates (@stuck A).
Proof. intros s. apply extends_refl. Qed.

Lemma allocates_bind {A B} (c : M A) (k : A -> M B) :
  allocates c -> (forall a, allocates (k a)) -> allocates (bind c k).
Proof.
  intros Hc Hk s. unfold bind. specialize (Hc s).
  destruct (c s) as [[a|e|] s']; simpl in *; [|assumption..].
  eapply extends_trans; [exact Hc|apply Hk].
Qed.

Lemma allocates_read l : allocates (read l).
Proof. intros s. unfold read. destruct (objs s !! l); apply extends_refl. Qed.

Lemma allocates_getitem l k : allocates (getitem l k).
Proof.
  apply allocates_bind; [apply allocates_read|].
  intros d. destruct (Dict.get k d); [apply allocates_ret|apply allocates_raise].
Qed.

Lemma allocates_chain_at L i : allocates (ValenceLedger.chain_at L i).
Proof.
  unfold ValenceLedger.chain_at.
  destruct (_ !! i); [apply allocates_ret|apply allocates_raise].
Qed.

Lemma allocates_py_ne a b : allocates (py_ne a b).
Proof.
  destruct a, b; simpl; first [apply allocates_ret|apply allocates_stuck].
Qed.

Lemma allocates_print line : allocates (print line).
Proof. intros s. exists []. simpl. rewrite app_nil_r. reflexivity. Qed.

Lemma allocates_hash_entry e : allocates (ValenceLedger._hash_entry e).
Proof.
  intros s. unfold ValenceLedger._hash_entry.
  destruct (Json.dumps _ _); apply extends_refl.
Qed.

(** The one mutation in [verify_integrity]: the field is deleted from the
    copy made just before, which is a new object. *)
Lemma allocates_copy_del {B} l k (rest : loc -> M B) :
  (forall e, allocates (rest e)) ->
  allocates (e <- copy l ;; delitem e k ;; rest e).
Proof.
  intros Hrest [h out].
  unfold bind at 1, copy, bind at 1, read, new_dict. cbn [objs stdout].
  destruct (h !! l) as [d|]; [|apply extends_refl].
  cbn [objs stdout].
  unfold bind at 1, delitem, bind at 1, read. cbn [objs].
  rewrite lookup_last.
  destruct (Dict.get k d); unfold write, raise; cbn [objs stdout snd].
  - rewrite insert_last.
    eapply extends_trans; [|apply Hrest]. eexists. reflexivity.
  - eexists. reflexivity.
Qed.

Lemma allocates_verify_from L indices : allocates (ValenceLedger.verify_from L indices).
Proof.
  induction indices as [|i rest IH]; cbn [ValenceLedger.verify_from].
  - apply allocates_ret.
  - apply allocates_bind; [apply allocates_chain_at|intros current].
    apply allocates_bind; [apply allocates_chain_at|intros previous].
    apply allocates_bind; [apply allocates_getitem|intros cur_prev].
    apply allocates_bind; [apply allocates_getitem|intros prev_hash].
    apply allocates_bind; [apply allocates_py_ne|intros [|]].
    + apply allocates_bind; [apply allocates_print|intros _; apply allocates_ret].
    + apply allocates_copy_del. intros entry_to_verify.
      apply allocates_bind; [apply allocates_hash_entry|intros h].
      apply allocates_bind; [apply allocates_getitem|intros cur_hash].
      apply allocates_bind; [apply allocates_py_ne|intros [|]].
      * apply allocates_bind; [apply allocates_print|intros _; apply allocates_ret].
      * exact IH.
Qed.

(** C9. Whatever [verify_integrity] returns (true, false or an
    exception), every dict object that existed before the call is
    unchanged after it: the store only gains the copies the checks made.
    The ledger's chain is not written to (the method hands back a boolean
    only), so the chain and every field of every entry are as before. *)
Theorem C9_verify_has_no_effect_on_ledger (L : ValenceLedger.t) (s : store) :
  extends s (snd (ValenceLedger.verify_integrity L s))
  /\ (forall l d, objs s !! l = Some d ->
                  objs (snd (ValenceLedger.verify_integrity L s)) !! l = Some d)
  /\ (forall i, entry_at (objs s) L i <> None ->
                entry_at (objs (snd (ValenceLedger.verify_integrity L s))) L i
                = entry_at (objs s) L i).
Proof.
  assert (H : extends s (snd (ValenceLedger.verify_integrity L s)))
    by apply allocates_verify_from.
  split; [exact H|]. split.
  - intros l d. apply extends_lookup, H.
  - intros i. unfold entry_at.
    destruct (ValenceLedger.chain L !! i) as [e|]; [|reflexivity].
    destruct (objs s !! e) as [d|] eqn:E; [|congruence].
    intros _. apply (extends_lookup _ _ _ _ H E).
Qed.

(** ** Closed forms of the serialisation *)

Lemma sequence_cases {A} (f : A -> outcome string) (g : A -> string) (ok : A -> bool)
    (e : exn) l :
  Forall (fun x => f x = if ok x then Ok (g x) else Raise e) l ->
  Json.sequence (map f l) = if forallb ok l then Ok (map g l) else Raise e.
Proof.
  induction 1 as [|x l Hx _ IH]; simpl; [reflexivity|].
  rewrite Hx. destruct (ok x); [|reflexivity].
  rewrite IH. destruct (forallb ok l); reflexivity.
Qed.

(** A plain value within the room of the encoder is written, unless one
    of its numbers is over the digits limit. *)
Lemma encode_plain_cases n : forall h m v,
  plain v = true -> shallow n v = true ->
  Json.encode n h m v = if small v then Ok (plain_text v) else Raise Json.int_error.
Proof.
  induction n as [|n IH]; intros h m v Hp Hs;
    destruct v as [x|x|x|items|items|l]; rewrite encode_unfold;
    try reflexivity; try discriminate.
  - cbn [plain shallow small plain_text] in *.
    rewrite forallb_forall in Hp, Hs.
    rewrite (sequence_cases _ plain_text small Json.int_error).
    + destruct (forallb small items); reflexivity.
    + apply Forall_forall. intros x Hx. apply list_elem_of_In in Hx.
      apply IH; [apply Hp|apply Hs]; exact Hx.
  - cbn [plain shallow small plain_text] in *.
    rewrite forallb_forall in Hp, Hs.
    rewrite (sequence_cases _ plain_text small Json.int_error).
    + destruct (forallb small items); reflexivity.
    + apply Forall_forall. intros x Hx. apply list_elem_of_In in Hx.
      apply IH; [apply Hp|apply Hs]; exact Hx.
Qed.

Lemma encode_plain n h m v :
  plain v = true -> shallow n v = true -> small v = true ->
  Json.encode n h m v = Ok (plain_text v).
Proof. intros Hp Hs Hm. rewrite encode_plain_cases by assumption. rewrite Hm. reflexivity. Qed.

Lemma insert_item_forallb (P : string * val -> bool) kv l :
  forallb P (Json.insert_item kv l) = P kv && forallb P l.
Proof.
  induction l as [|x l IH]; simpl; [reflexivity|].
  destruct (String.leb _ _); simpl; [reflexivity|].
  rewrite IH. destruct (P kv), (P x); reflexivity.
Qed.

Lemma sort_items_forallb (P : string * val -> bool) d :
  forallb P (Json.sort_items d) = forallb P d.
Proof.
  induction d as [|x d IH]; simpl; [reflexivity|].
  rewrite insert_item_forallb, IH. reflexivity.
Qed.

Lemma items_cases n h m d :
  plain_dict d = true -> shallow_dict n d = true ->
  Json.wrap "{" "}" (Json.sequence (map (Json.item (Json.encode n h m)) (Json.sort_items d)))
  = if small_dict d then Ok (dict_text d) else Raise Json.int_error.
Proof.
  intros Hp Hs. unfold plain_dict, shallow_dict, small_dict in *.
  rewrite <- sort_items_forallb, forallb_forall in Hp, Hs.
  rewrite <- (sort_items_forallb (fun kv => small (snd kv)) d).
  rewrite (sequence_cases _ item_text (fun kv => small (snd kv)) Json.int_error).
  - destruct (forallb _ _); reflexivity.
  - apply Forall_forall. intros kv Hkv. apply list_elem_of_In in Hkv.
    unfold Json.item, item_text.
    rewrite encode_plain_cases by (first [apply Hp|apply Hs]; exact Hkv).
    destruct (small (snd kv)); reflexivity.
Qed.

Lemma items_plain n h m d :
  plain_dict d = true -> shallow_dict n d = true -> small_dict d = true ->
  Json.wrap "{" "}" (Json.sequence (map (Json.item (Json.encode n h m)) (Json.sort_items d)))
  = Ok (dict_text d).
Proof. intros Hp Hs Hm. rewrite items_cases by assumption. rewrite Hm. reflexivity. Qed.

(** The text of an entry whose point data is a dict of plain values, or
    the error of the first number over the digits limit. *)
Lemma content_string_cases h i p d prev :
  h !! p = Some d -> plain_dict d = true -> shallow_dict point_room d = true ->
  content_string h (entry_fields i p (VStr prev))
  = if Json.digits_ok (Z.of_nat i) && small_dict d
    then Ok (entry_text i (dict_text d) prev)
    else Raise Json.int_error.
Proof.
  intros Hp Hd Hs. unfold content_string.
  change (Json.sort_items (entry_fields i p (VStr prev)))
    with (entry_fields i p (VStr prev)).
  rewrite pred_max_depth.
  unfold entry_fields. cbn [map]. unfold Json.item. cbn [fst snd].
  rewrite !encode_unfold. cbn [Json.mem]. rewrite Hp.
  rewrite items_cases by assumption. unfold Json.int_text.
  destruct (Json.digits_ok (Z.of_nat i)), (small_dict d); reflexivity.
Qed.

Lemma writable_parts d :
  writable d = true ->
  plain_dict d = true /\ shallow_dict point_room d = true /\ small_dict d = true.
Proof.
  unfold writable, plain_dict, shallow_dict, small_dict, printable.
  rewrite !forallb_forall. intros H.
  repeat split; intros kv Hkv; specialize (H kv Hkv);
    apply andb_true_iff in H as [H H3]; apply andb_true_iff in H as [H1 H2]; assumption.
Qed.

Lemma content_string_entry h i p d prev :
  h !! p = Some d -> writable d = true -> Json.digits_ok (Z.of_nat i) = true ->
  content_string h (entry_fields i p (VStr prev)) = Ok (entry_text i (dict_text d) prev).
Proof.
  intros Hp Hw Hi. destruct (writable_parts d Hw) as (Hd & Hs & Hm).
  rewrite (content_string_cases _ _ _ _ _ Hp Hd Hs), Hi, Hm. reflexivity.
Qed.

Lemma fields_plain pt : plain_dict (InteractionPoint.fields pt) = true.
Proof. destruct pt as [? ? ? ? ? ? [[? ?] ?]]. reflexivity. Qed.

Lemma fields_shallow pt : shallow_dict point_room (InteractionPoint.fields pt) = true.
Proof. destruct pt as [? ? ? ? ? ? [[? ?] ?]]. vm_compute. reflexivity. Qed.

Lemma fields_writable i pt :
  loggable i pt = true -> writable (InteractionPoint.fields pt) = true.
Proof.
  intros Hl. apply andb_true_iff in Hl as [_ Hm].
  pose proof (fields_plain pt) as Hp. pose proof (fields_shallow pt) as Hs.
  unfold writable, plain_dict, shallow_dict, small_dict, printable in *.
  rewrite forallb_forall in Hp, Hs, Hm. apply forallb_forall. intros kv Hkv.
  rewrite (Hp kv Hkv), (Hs kv Hkv), (Hm kv Hkv). reflexivity.
Qed.

(** The text of an entry made from a point that can be logged. *)
Lemma content_string_point h i p pt prev :
  h !! p = Some (InteractionPoint.fields pt) -> loggable i pt = true ->
  content_string h (entry_fields i p (VStr prev))
  = Ok (entry_text i (dict_text (InteractionPoint.fields pt)) prev).
Proof.
  intros Hp Hl. apply content_string_entry; [exact Hp|eapply fields_writable, Hl|].
  apply andb_true_iff in Hl. apply Hl.
Qed.

(** ** Ledgers built through the class *)

Lemma dumps_fresh0 h d :
  content_string h d <> Stuck ->
  Json.dumps (h ++ [d]) (VDict (length h)) = content_string h d.
Proof.
  intros H. pose proof (dumps_fresh h [] d H) as E.
  rewrite app_nil_r in E. exact E.
Qed.

(** Allocating the point data and the entry, hashing the entry and
    storing the digest in it: the common part of the genesis block and of
    [log_event].  When the index or a number of the point is over the
    digits limit, [json.dumps] raises and the two objects stay behind. *)
Lemma new_entry_cases {B} h out i point prev (k : loc -> M B) :
  (point_data <- InteractionPoint.to_dict point ;;
   new_entry <- new_dict [("index", VInt (Z.of_nat i));
                          ("point_data", VDict point_data);
                          ("previous_hash", VStr prev)] ;;
   hh <- ValenceLedger._hash_entry new_entry ;;
   setitem new_entry "hash" (VStr hh) ;;
   k new_entry) (Store h out)
  = if loggable i point
    then k (S (length h))
           (Store (h ++ [InteractionPoint.fields point;
                         entry_fields i (length h) (VStr prev)
                         ++ [("hash", VStr (entry_digest i point prev))]]) out)
    else (Raise Json.int_error,
          Store (h ++ [InteractionPoint.fields point;
                       entry_fields i (length h) (VStr prev)]) out).
Proof.
  unfold InteractionPoint.to_dict, new_dict, bind at 1 2. cbn [objs stdout].
  unfold bind at 1. rewrite hash_entry_run.
  rewrite length_app. cbn [length]. rewrite Nat.add_1_r.
  change [("index", VInt (Z.of_nat i)); ("point_data", VDict (length h));
          ("previous_hash", VStr prev)]
    with (entry_fields i (length h) (VStr prev)).
  replace (S (length h)) with (length (h ++ [InteractionPoint.fields point]))
    by (rewrite length_app; simpl; lia).
  assert (Hcs : content_string (h ++ [InteractionPoint.fields point])
                  (entry_fields i (length h) (VStr prev))
                = if loggable i point
                  then Ok (entry_text i (dict_text (InteractionPoint.fields point)) prev)
                  else Raise Json.int_error).
  { unfold loggable.
    apply content_string_cases; [apply lookup_last|apply fields_plain|apply fields_shallow]. }
  rewrite dumps_fresh0 by (rewrite Hcs; destruct (loggable i point); discriminate).
  rewrite Hcs. destruct (loggable i point); cbn [digest_of].
  - erewrite bind_run by (eapply setitem_run; apply lookup_last).
    rewrite insert_last. rewrite <- app_assoc. reflexivity.
  - rewrite <- app_assoc. reflexivity.
Qed.

Lemma new_entry_run {B} h out i point prev (k : loc -> M B) :
  loggable i point = true ->
  (point_data <- InteractionPoint.to_dict point ;;
   new_entry <- new_dict [("index", VInt (Z.of_nat i));
                          ("point_data", VDict point_data);
                          ("previous_hash", VStr prev)] ;;
   hh <- ValenceLedger._hash_entry new_entry ;;
   setitem new_entry "hash" (VStr hh) ;;
   k new_entry) (Store h out)
  = k (S (length h))
      (Store (h ++ [InteractionPoint.fields point;
                    entry_fields i (length h) (VStr prev)
                    ++ [("hash", VStr (entry_digest i point prev))]]) out).
Proof. intros Hl. rewrite new_entry_cases, Hl. reflexivity. Qed.

Lemma genesis_loggable now : loggable 0 (genesis_point now) = true.
Proof. reflexivity. Qed.

Lemma init_run now h out :
  ValenceLedger.__init__ now (Store h out)
  = (Ok (ValenceLedger.Ledger [S (length h)]),
     Store (h ++ [InteractionPoint.fields (genesis_point now);
                  entry_fields 0 (length h) (VStr "0")
                  ++ [("hash", VStr (entry_digest 0 (genesis_point now) "0"))]]) out).
Proof.
  unfold ValenceLedger.__init__, ValenceLedger._create_genesis_block.
  unfold bind at 1. unfold lift.
  change (InteractionPoint.__init__ now 0 0 1 "Ledger Initialized" EmptyString)
    with (Ok (genesis_point now)).
  cbv iota beta.
  change (VInt 0) with (VInt (Z.of_nat 0)).
  rewrite new_entry_run by apply genesis_loggable. reflexivity.
Qed.

Lemma stored_extends h g i v : stored h i v -> stored (h ++ g) i v.
Proof.
  intros (He & Hd & Hh & Hl). repeat split; try assumption;
    apply lookup_app_l_Some; assumption.
Qed.

Lemma ledger_inv_extends h g L vs : ledger_inv h L vs -> ledger_inv (h ++ g) L vs.
Proof.
  intros (Hc & Hne & Hnd & Hall).
  split; [assumption|]. split; [assumption|]. split; [assumption|].
  intros i v Hv. destruct (Hall i v Hv) as [Hst Hp].
  split; [apply stored_extends|]; assumption.
Qed.

Lemma init_inv now h out :
  exists L s v,
    ValenceLedger.__init__ now (Store h out) = (Ok L, s)
    /\ extends (Store h out) s
    /\ stdout s = out
    /\ v_point v = genesis_point now
    /\ ledger_inv (objs s) L [v].
Proof.
  eexists _, _, (View (S (length h)) (length h) (genesis_point now) "0"
                      (entry_digest 0 (genesis_point now) "0")).
  split; [apply init_run|]. cbn [objs stdout].
  split; [eexists; reflexivity|]. split; [reflexivity|]. split; [reflexivity|].
  split; [reflexivity|]. split; [discriminate|]. split.
  - simpl. apply NoDup_singleton.
  - intros [|i] v Hv; [|destruct i; discriminate]. injection Hv as <-.
    cbn [v_entry v_data v_point v_prev v_hash prev_of].
    split; [|reflexivity]. split; [|split; [|split; reflexivity]].
    + replace (S (length h)) with (length (h ++ [InteractionPoint.fields (genesis_point now)]))
        by (rewrite length_app; simpl; lia).
      change (h ++ [?a; ?b]) with (h ++ [a] ++ [b]).
      rewrite app_assoc. apply lookup_last.
    + change (h ++ [?a; ?b]) with (h ++ [a] ++ [b]).
      rewrite app_assoc. apply lookup_app_l_Some, lookup_last.
Qed.

Lemma inv_length h L vs :
  ledger_inv h L vs -> length (ValenceLedger.chain L) = length vs.
Proof. intros (Hc & _). rewrite Hc. apply length_map. Qed.

Lemma inv_bound h L vs i v :
  ledger_inv h L vs -> vs !! i = Some v ->
  (v_entry v < length h)%nat /\ (v_data v < length h)%nat.
Proof.
  intros (_ & _ & _ & Hall) Hv. destruct (Hall i v Hv) as [(He & Hd & _) _].
  split; eapply lookup_lt_Some; eassumption.
Qed.

Lemma log_event_inv h L vs point out :
  ledger_inv h L vs -> loggable (length vs) point = true ->
  exists e s v,
    ValenceLedger.log_event L point (Store h out)
    = (Ok (e, ValenceLedger.Ledger (ValenceLedger.chain L ++ [e])), s)
    /\ extends (Store h out) s
    /\ stdout s = out
    /\ v_entry v = e /\ v_point v = point
    /\ ledger_inv (objs s) (ValenceLedger.Ledger (ValenceLedger.chain L ++ [e])) (vs ++ [v]).
Proof.
  intros Hinv Hlog. pose proof Hinv as (Hc & Hne & Hnd & Hall).
  destruct (lookup_lt_is_Some_2 vs (pred (length vs))) as [u Hu].
  { destruct vs; [contradiction|simpl; lia]. }
  destruct (Hall _ _ Hu) as [(Hue & Hud & Huh & _) Hup].
  set (n := length vs).
  set (v := View (S (length h)) (length h) point (v_hash u)
                 (entry_digest n point (v_hash u))).
  exists (S (length h)), 
    (Store (h ++ [InteractionPoint.fields point;
                  entry_fields n (length h) (VStr (v_hash u))
                  ++ [("hash", VStr (entry_digest n point (v_hash u)))]]) out), v.
  split.
  - unfold ValenceLedger.log_event.
    assert (Hlast : ValenceLedger.chain_last L (Store h out) = (Ok (v_entry u), Store h out)).
    { unfold ValenceLedger.chain_last. rewrite last_lookup, Hc, length_map.
      rewrite list_lookup_fmap, Hu. reflexivity. }
    rewrite (bind_run _ _ _ _ _ Hlast).
    erewrite bind_run by (eapply getitem_run; [exact Hue|reflexivity]).
    rewrite (inv_length _ _ _ Hinv). fold n.
    rewrite new_entry_run by exact Hlog. reflexivity.
  - split; [eexists; reflexivity|]. split; [reflexivity|].
    split; [reflexivity|]. split; [reflexivity|]. cbn [objs ValenceLedger.chain].
    change (h ++ [?a; ?b]) with (h ++ [a] ++ [b]).
    split; [|split; [|split]].
    + rewrite Hc, map_app. reflexivity.
    + destruct vs; discriminate.
    + rewrite map_app. apply NoDup_app. split; [assumption|]. split.
      * intros x Hx Hx2. apply list_elem_of_In in Hx2.
        destruct Hx2 as [Hx2|[]]. simpl in Hx2.
        apply list_elem_of_fmap in Hx. destruct Hx as (w & Hxw & Hw). subst x.
        apply list_elem_of_lookup in Hw. destruct Hw as [j Hj].
        destruct (inv_bound _ _ _ _ _ Hinv Hj) as [_ Hlt]. simpl in Hlt. lia.
      * apply NoDup_singleton.
    + intros i w Hw.
      destruct (decide (i < length vs)%nat) as [Hlt|Hge].
      * rewrite lookup_app_l in Hw by assumption.
        destruct (Hall i w Hw) as [Hst Hpw]. split.
        -- apply stored_extends, Hst.
        -- rewrite Hpw. destruct i as [|j]; [reflexivity|]. simpl.
           rewrite lookup_app_l by lia. reflexivity.
      * rewrite lookup_app_r in Hw by lia.
        destruct (i - length vs)%nat as [|?] eqn:Ei; [|destruct n0; discriminate].
        injection Hw as <-. assert (i = n) by (subst n; lia). subst i.
        subst v. unfold stored. cbn [v_entry v_data v_point v_prev v_hash].
        split.
        -- split; [|split; [|split; [reflexivity|exact Hlog]]].
           ++ replace (S (length h)) with (length (h ++ [InteractionPoint.fields point]))
                by (rewrite length_app; simpl; lia).
              rewrite app_assoc. apply lookup_last.
           ++ rewrite app_assoc. apply lookup_app_l_Some, lookup_last.
        -- unfold prev_of. subst n. destruct (length vs) as [|m] eqn:El.
           ++ destruct vs; [contradiction|discriminate].
           ++ rewrite lookup_app_l by lia. simpl in Hu. rewrite Hu. reflexivity.
Qed.

(** When the index or a number of the point is over the digits limit,
    [log_event] raises the error of [json.dumps]; the chain object is not
    touched, two objects stay behind in the store. *)
Lemma log_event_fail h L vs point out :
  ledger_inv h L vs -> loggable (length vs) point = false ->
  exists u,
    last vs = Some u
    /\ ValenceLedger.log_event L point (Store h out)
       = (Raise Json.int_error,
          Store (h ++ [InteractionPoint.fields point;
                       entry_fields (length vs) (length h) (VStr (v_hash u))]) out).
Proof.
  intros Hinv Hlog. pose proof Hinv as (Hc & Hne & Hnd & Hall).
  destruct (lookup_lt_is_Some_2 vs (pred (length vs))) as [u Hu].
  { destruct vs; [contradiction|simpl; lia]. }
  destruct (Hall _ _ Hu) as [(Hue & Hud & Huh & _) Hup].
  exists u. split; [rewrite last_lookup; exact Hu|].
  unfold ValenceLedger.log_event.
  assert (Hlast : ValenceLedger.chain_last L (Store h out) = (Ok (v_entry u), Store h out)).
  { unfold ValenceLedger.chain_last. rewrite last_lookup, Hc, length_map.
    rewrite list_lookup_fmap, Hu. reflexivity. }
  rewrite (bind_run _ _ _ _ _ Hlast).
  erewrite bind_run by (eapply getitem_run; [exact Hue|reflexivity]).
  rewrite (inv_length _ _ _ Hinv).
  rewrite new_entry_cases, Hlog. reflexivity.
Qed.

Lemma inv_entry_at h L vs i v :
  ledger_inv h L vs -> vs !! i = Some v ->
  entry_at h L i
  = Some (entry_fields i (v_data v) (VStr (v_prev v)) ++ [("hash", VStr (v_hash v))]).
Proof.
  intros (Hc & _ & _ & Hall) Hv. unfold entry_at.
  rewrite Hc, list_lookup_fmap, Hv. simpl.
  apply (Hall i v Hv).
Qed.

Lemma inv_content h L vs i v :
  ledger_inv h L vs -> vs !! i = Some v ->
  ContentHasher h (entry_fields i (v_data v) (VStr (v_prev v))) = Ok (v_hash v).
Proof.
  intros (_ & _ & _ & Hall) Hv. destruct (Hall i v Hv) as [(_ & Hd & Hh & Hl) _].
  unfold ContentHasher.
  rewrite (content_string_point _ _ _ _ _ Hd Hl).
  rewrite Hh. reflexivity.
Qed.

Lemma inv_binding h L vs i :
  ledger_inv h L vs -> (i < length vs)%nat -> binding h L i = true.
Proof.
  intros Hinv Hi. destruct (lookup_lt_is_Some_2 vs i Hi) as [v Hv].
  unfold binding. rewrite (inv_entry_at _ _ _ _ _ Hinv Hv).
  change (Dict.get "hash" (entry_fields i (v_data v) (VStr (v_prev v))
                           ++ [("hash", VStr (v_hash v))]))
    with (Some (VStr (v_hash v))).
  change (Dict.del "hash" (entry_fields i (v_data v) (VStr (v_prev v))
                           ++ [("hash", VStr (v_hash v))]))
    with (entry_fields i (v_data v) (VStr (v_prev v))).
  rewrite (inv_content _ _ _ _ _ Hinv Hv). apply String.eqb_refl.
Qed.

Lemma inv_linkage h L vs i :
  ledger_inv h L vs -> (1 <= i < length vs)%nat -> linkage h L i = true.
Proof.
  intros Hinv Hi.
  destruct (lookup_lt_is_Some_2 vs i) as [v Hv]; [lia|].
  destruct (lookup_lt_is_Some_2 vs (i - 1)) as [u Hu]; [lia|].
  unfold linkage.
  rewrite (inv_entry_at _ _ _ _ _ Hinv Hv), (inv_entry_at _ _ _ _ _ Hinv Hu).
  change (Dict.get "previous_hash" (entry_fields i (v_data v) (VStr (v_prev v))
                                    ++ [("hash", VStr (v_hash v))]))
    with (Some (VStr (v_prev v))).
  change (Dict.get "hash" (entry_fields (i - 1) (v_data u) (VStr (v_prev u))
                           ++ [("hash", VStr (v_hash u))]))
    with (Some (VStr (v_hash u))).
  destruct Hinv as (_ & _ & _ & Hall). destruct (Hall i v Hv) as [_ Hp].
  rewrite Hp. destruct i as [|j]; [lia|]. simpl in *.
  rewrite Nat.sub_0_r in Hu. rewrite Hu. apply String.eqb_refl.
Qed.

Lemma inv_has_hash h L vs e :
  ledger_inv h L vs -> In e (ValenceLedger.chain L) -> has_hash h e = true.
Proof.
  intros Hinv He. pose proof Hinv as (Hc & _ & _ & Hall).
  rewrite Hc in He. apply in_map_iff in He. destruct He as (v & <- & Hv).
  apply list_elem_of_In, list_elem_of_lookup in Hv. destruct Hv as [i Hv].
  destruct (Hall i v Hv) as [(He & _) _].
  unfold has_hash. rewrite He. reflexivity.
Qed.

Lemma inv_is_entry h L vs e :
  ledger_inv h L vs -> In e (ValenceLedger.chain L) -> is_entry h e = true.
Proof.
  intros Hinv He. pose proof Hinv as (Hc & _ & _ & Hall).
  rewrite Hc in He. apply in_map_iff in He. destruct He as (v & <- & Hv).
  apply list_elem_of_In, list_elem_of_lookup in Hv. destruct Hv as [i Hv].
  destruct (Hall i v Hv) as [(He & Hd & _ & Hl) _].
  unfold is_entry. rewrite He.
  change (Dict.get "previous_hash" (entry_fields i (v_data v) (VStr (v_prev v))
                                    ++ [("hash", VStr (v_hash v))]))
    with (Some (VStr (v_prev v))).
  change (Dict.get "hash" (entry_fields i (v_data v) (VStr (v_prev v))
                           ++ [("hash", VStr (v_hash v))]))
    with (Some (VStr (v_hash v))).
  change (Dict.del "hash" (entry_fields i (v_data v) (VStr (v_prev v))
                           ++ [("hash", VStr (v_hash v))]))
    with (entry_fields i (v_data v) (VStr (v_prev v))).
  rewrite (content_string_point _ _ _ _ _ Hd Hl). reflexivity.
Qed.

Lemma inv_typed h L vs : ledger_inv h L vs -> entries_typed h L = true.
Proof.
  intros Hinv. unfold entries_typed. apply andb_true_iff. split.
  - apply forallb_forall. intros e He. eapply inv_has_hash; eassumption.
  - apply forallb_forall. intros e He. eapply inv_is_entry; [eassumption|].
    destruct (ValenceLedger.chain L); [destruct He|right; exact He].
Qed.

Lemma inv_no_violation h L vs :
  ledger_inv h L vs -> first_violation h L (checked L) = None.
Proof.
  intros Hinv. apply first_violation_none. intros i Hi.
  apply in_seq in Hi. rewrite (inv_length _ _ _ Hinv) in Hi.
  split; [eapply inv_linkage|eapply inv_binding]; try eassumption; lia.
Qed.

Lemma inv_verify h L vs out :
  ledger_inv h L vs ->
  exists g, ValenceLedger.verify_integrity L (Store h out) = (Ok true, Store (h ++ g) out).
Proof.
  intros Hinv.
  destruct (verify_integrity_typed L h out (inv_typed _ _ _ Hinv)) as [g Hg].
  rewrite (inv_no_violation _ _ _ Hinv) in Hg. simpl in Hg. rewrite app_nil_r in Hg.
  exists g. exact Hg.
Qed.

Lemma built_inv k L s :
  built k L s -> exists vs, ledger_inv (objs s) L vs /\ length vs = S k.
Proof.
  induction 1 as [now [h out] L s Hrun|k L [h out] point e L' s' _ IH Hrun
                 |k L s r s' _ IH Hrun].
  - destruct (init_inv now h out) as (L0 & s0 & v & Hr & _ & _ & _ & Hinv).
    rewrite Hrun in Hr. injection Hr as <- <-. exists [v]. split; [assumption|reflexivity].
  - destruct IH as (vs & Hinv & Hlen). simpl in Hinv.
    destruct (loggable (length vs) point) eqn:Hlog.
    + destruct (log_event_inv h L vs point out Hinv Hlog)
        as (e0 & s0 & v & Hr & _ & _ & _ & _ & Hinv').
      rewrite Hrun in Hr. injection Hr as He HL Hs. subst e0 L' s0.
      exists (vs ++ [v]). split; [assumption|]. rewrite length_app. simpl. lia.
    + destruct (log_event_fail h L vs point out Hinv Hlog) as (u & _ & Hr).
      rewrite Hrun in Hr. discriminate Hr.
  - destruct IH as (vs & Hinv & Hlen). exists vs. split; [|assumption].
    pose proof (allocates_verify_from L (checked L) s) as [g Hg].
    change (ValenceLedger.verify_from L (checked L) s)
      with (ValenceLedger.verify_integrity L s) in Hg.
    rewrite Hrun in Hg. simpl in Hg. rewrite Hg.
    apply ledger_inv_extends. assumption.
Qed.

(** ** A concrete ledger: the end-to-end scenario *)

Lemma demo_run_result : demo_run (Store [] []) = (Ok demo_ledger, demo_store).
Proof. vm_compute. reflexivity. Qed.

Lemma demo_built : built 2 demo_ledger demo_store.
Proof.
  eapply built_log with (point := calm) (L := ValenceLedger.Ledger [1; 3]%nat).
  - eapply built_log with (point := urgent) (L := ValenceLedger.Ledger [1]%nat).
    + eapply built_init with (now := demo_clock) (s0 := Store [] []).
      vm_compute. reflexivity.
    + vm_compute. reflexivity.
  - vm_compute. reflexivity.
Qed.

(** ** The invariants of built ledgers *)

(** C3. In every ledger built by the constructor and appends, each entry
    after the first carries the hash of its predecessor as previous hash,
    and the stored hash of every entry, the genesis entry included, is the
    content hash of the entry without its hash field. *)
Theorem C3_chain_invariants (k : nat) (L : ValenceLedger.t) (s : store) (i : nat) :
  built k L s ->
  (i < length (ValenceLedger.chain L))%nat ->
  binding (objs s) L i = true
  /\ ((0 < i)%nat -> linkage (objs s) L i = true).
Proof.
  intros Hb Hi. destruct (built_inv _ _ _ Hb) as (vs & Hinv & Hlen).
  rewrite (inv_length _ _ _ Hinv) in Hi. split.
  - eapply inv_binding; eassumption.
  - intros H0. eapply inv_linkage; [eassumption|lia].
Qed.

Lemma C3_witness :
  built 2 demo_ledger demo_store
  /\ binding (objs demo_store) demo_ledger 2 = true
  /\ linkage (objs demo_store) demo_ledger 2 = true.
Proof.
  split; [exact demo_built|].
  destruct (C3_chain_invariants 2 demo_ledger demo_store 2 demo_built) as [Hb Hl].
  - simpl. lia.
  - split; [exact Hb|apply Hl; lia].
Defined.

(** C4. A fresh ledger has exactly one entry; its index is 0, its
    previous hash is the string "0", its point data has arousal 0,
    valence 0, impact scope 1 and the description "Ledger Initialized";
    and [verify_integrity] returns true on it. *)
Theorem C4_genesis (now : pyfloat) (s0 : store) :
  exists L s e d p pd s',
    ValenceLedger.__init__ now s0 = (Ok L, s)
    /\ ValenceLedger.chain L = [e]
    /\ objs s !! e = Some d
    /\ Dict.get "index" d = Some (VInt 0)
    /\ Dict.get "previous_hash" d = Some (VStr "0")
    /\ Dict.get "point_data" d = Some (VDict p)
    /\ objs s !! p = Some pd
    /\ Dict.get "arousal" pd = Some (VInt 0)
    /\ Dict.get "valence" pd = Some (VInt 0)
    /\ Dict.get "impact_scope" pd = Some (VInt 1)
    /\ Dict.get "description" pd = Some (VStr "Ledger Initialized")
    /\ ValenceLedger.verify_integrity L s = (Ok true, s').
Proof.
  destruct s0 as [h out].
  destruct (init_inv now h out) as (L & s & v & Hrun & _ & _ & Hpt & Hinv).
  pose proof Hinv as (Hc & _ & _ & Hall).
  destruct (Hall 0%nat v eq_refl) as [(He & Hd & _) Hp]. simpl in Hp.
  destruct s as [h1 out1]. simpl in *.
  destruct (inv_verify h1 L [v] out1 Hinv) as [g Hg].
  eexists L, (Store h1 out1), (v_entry v), _, (v_data v), _, _.
  rewrite Hp in He. rewrite Hpt in Hd.
  split; [exact Hrun|]. split; [exact Hc|]. split; [exact He|].
  repeat (split; [first [reflexivity|exact Hd]|]).
  exact Hg.
Qed.

(** C6. After [k] appends to a fresh ledger the chain has [k+1] entries
    and the entry at each position [i] has index [i]; a further append of
    a point that can be logged puts the new entry at the end of the chain
    with the previous length as its index, and returns that very entry;
    of a point that cannot (a number of it, or the index, has more than
    4300 digits), it raises the [ValueError] of [json.dumps]. *)
Theorem C6_append_monotonic (k : nat) (L : ValenceLedger.t) (s : store) :
  built k L s ->
  length (ValenceLedger.chain L) = S k
  /\ (forall i, (i < S k)%nat ->
      exists e d, ValenceLedger.chain L !! i = Some e
        /\ objs s !! e = Some d
        /\ Dict.get "index" d = Some (VInt (Z.of_nat i)))
  /\ (forall point, loggable (length (ValenceLedger.chain L)) point = true ->
      exists e d s',
        ValenceLedger.log_event L point s
        = (Ok (e, ValenceLedger.Ledger (ValenceLedger.chain L ++ [e])), s')
        /\ objs s' !! e = Some d
        /\ Dict.get "index" d = Some (VInt (Z.of_nat (length (ValenceLedger.chain L)))))
  /\ (forall point, loggable (length (ValenceLedger.chain L)) point = false ->
      exists s', ValenceLedger.log_event L point s = (Raise Json.int_error, s')).
Proof.
  intros Hb. destruct (built_inv _ _ _ Hb) as (vs & Hinv & Hlen).
  split; [rewrite (inv_length _ _ _ Hinv); exact Hlen|]. split; [|split].
  - intros i Hi. destruct (lookup_lt_is_Some_2 vs i) as [v Hv]; [lia|].
    pose proof Hinv as (Hc & _ & _ & Hall).
    destruct (Hall i v Hv) as [(He & _) _].
    eexists (v_entry v), _. split; [|split; [exact He|reflexivity]].
    rewrite Hc, list_lookup_fmap, Hv. reflexivity.
  - intros point Hlog. destruct s as [h out]. simpl in Hinv.
    rewrite (inv_length _ _ _ Hinv) in Hlog.
    destruct (log_event_inv h L vs point out Hinv Hlog)
      as (e & s' & v & Hrun & _ & _ & Hve & _ & Hinv').
    pose proof Hinv' as (Hc' & _ & _ & Hall').
    assert (Hv : (vs ++ [v]) !! length vs = Some v) by apply lookup_last.
    destruct (Hall' _ v Hv) as [(He & _) _].
    eexists e, _, s'. split; [exact Hrun|]. subst e. split; [exact He|].
    rewrite (inv_length _ _ _ Hinv). reflexivity.
  - intros point Hlog. destruct s as [h out]. simpl in Hinv.
    rewrite (inv_length _ _ _ Hinv) in Hlog.
    destruct (log_event_fail h L vs point out Hinv Hlog) as (u & _ & Hrun).
    eexists. exact Hrun.
Qed.

Lemma C6_witness :
  built 2 demo_ledger demo_store
  /\ length (ValenceLedger.chain demo_ledger) = 3%nat
  /\ exists e d s',
       ValenceLedger.log_event demo_ledger calm demo_store
       = (Ok (e, ValenceLedger.Ledger (ValenceLedger.chain demo_ledger ++ [e])), s')
       /\ objs s' !! e = Some d
       /\ Dict.get "index" d = Some (VInt 3).
Proof.
  split; [exact demo_built|].
  destruct (C6_append_monotonic 2 demo_ledger demo_store demo_built)
    as (Hlen & _ & Hlog & _).
  split; [exact Hlen|]. apply (Hlog calm). reflexivity.
Defined.

Lemma demo_typed : entries_typed (objs demo_store) demo_ledger = true.
Proof. vm_compute. reflexivity. Qed.

Lemma C1_witness :
  entries_typed (objs demo_store) demo_ledger = true
  /\ exists (b : bool) (s' : store),
       ValenceLedger.verify_integrity demo_ledger demo_store = (Ok b, s').
Proof.
  split; [exact demo_typed|].
  destruct (C1_verify_integrity_spec demo_ledger demo_store demo_typed)
    as (b & s' & Hrun & _).
  exists b, s'. exact Hrun.
Defined.

(** C1, refuted as stated: [verify_integrity] can throw.  On the built
    three-entry ledger, after [del entries[1]['hash']] it raises
    [KeyError]; and after [entries[1].point_data['impact_scope']] is
    assigned the integer [10 ** 4300] it raises the [ValueError] of
    [json.dumps].  Neither call returns a boolean or prints a line. *)
Lemma C1_counterexample :
  built 2 demo_ledger demo_store
  /\ (exists s1 s2,
        remove demo_ledger 1 "hash" demo_store = (Ok tt, s1)
        /\ ValenceLedger.verify_integrity demo_ledger s1 = (Raise (KeyError "hash"), s2)
        /\ stdout s2 = stdout s1)
  /\ (exists s1 s2,
        tamper demo_ledger 1 "impact_scope" (VInt (10 ^ 4300)) demo_store = (Ok tt, s1)
        /\ ValenceLedger.verify_integrity demo_ledger s1 = (Raise Json.int_error, s2)
        /\ stdout s2 = stdout s1).
Proof.
  split; [exact demo_built|].
  split; eexists _, _; (split; [vm_compute; reflexivity|]); split; vm_compute; reflexivity.
Qed.

(** ** What [verify_integrity] depends on *)

Lemma same_entry_at h h' L i :
  same_entries h h' L -> entry_at h' L i = entry_at h L i.
Proof.
  intros Hs. unfold entry_at.
  destruct (ValenceLedger.chain L !! i) as [e|] eqn:E; [|reflexivity].
  apply Hs. apply list_elem_of_In. eapply list_elem_of_lookup_2. eassumption.
Qed.

Lemma same_linkage h h' L i :
  same_entries h h' L -> linkage h' L i = linkage h L i.
Proof.
  intros Hs. unfold linkage. rewrite !(same_entry_at h h' L _ Hs). reflexivity.
Qed.






(** ** Tampering with the point data of an entry *)

Lemma inv_distinct h L vs i j u v :
  ledger_inv h L vs -> vs !! i = Some u -> vs !! j = Some v ->
  v_entry u <> v_data v.
Proof.
  intros (_ & _ & _ & Hall) Hu Hv E.
  destruct (Hall i u Hu) as [(He & _) _]. destruct (Hall j v Hv) as [(_ & Hd & _) _].
  rewrite E, Hd in He. injection He as He. apply (f_equal (@length _)) in He.
  destruct (v_point v) as [? ? ? ? ? ? [[? ?] ?]]. simpl in He. lia.
Qed.

Lemma inv_data_distinct h L vs i j u v :
  ledger_inv h L vs -> vs !! i = Some u -> vs !! j = Some v -> i <> j ->
  v_data u <> v_data v.
Proof.
  intros (_ & _ & Hnd & _) Hu Hv Hij E.
  apply Hij. eapply NoDup_lookup; [exact Hnd| |].
  - rewrite list_lookup_fmap, Hu. reflexivity.
  - rewrite list_lookup_fmap, Hv. simpl. rewrite E. reflexivity.
Qed.

(** The effect of the tampering on a built ledger: one point-data object
    gets the assignment, nothing else changes. *)
Lemma tamper_run h L vs i v key value out :
  ledger_inv h L vs -> vs !! i = Some v ->
  tamper L i key value (Store h out)
  = (Ok tt, Store (<[v_data v := Dict.set key value (InteractionPoint.fields (v_point v))]> h) out).
Proof.
  intros Hinv Hv. pose proof Hinv as (Hc & _ & _ & Hall).
  destruct (Hall i v Hv) as [(He & Hd & _) _].
  unfold tamper.
  erewrite bind_run
    by (apply chain_at_run; rewrite Hc, list_lookup_fmap, Hv; reflexivity).
  erewrite bind_run by (eapply getitem_run; [exact He|reflexivity]).
  cbv iota beta. apply setitem_run. exact Hd.
Qed.

Lemma tamper_same_entries h L vs i v d :
  ledger_inv h L vs -> vs !! i = Some v ->
  same_entries h (<[v_data v := d]> h) L.
Proof.
  intros Hinv Hv e He. pose proof Hinv as (Hc & _).
  rewrite Hc in He. apply in_map_iff in He. destruct He as (u & <- & Hu).
  apply list_elem_of_In, list_elem_of_lookup in Hu. destruct Hu as [j Hu].
  apply list_lookup_insert_ne. intros E.
  apply (inv_distinct _ _ _ _ _ _ _ Hinv Hu Hv). symmetry. exact E.
Qed.

(** The text of every entry other than the tampered one is unchanged. *)
Lemma tamper_text h L vs i v d j u :
  ledger_inv h L vs -> vs !! i = Some v -> vs !! j = Some u -> i <> j ->
  content_string (<[v_data v := d]> h) (entry_fields j (v_data u) (VStr (v_prev u)))
  = content_string h (entry_fields j (v_data u) (VStr (v_prev u))).
Proof.
  intros Hinv Hv Hu Hij. pose proof Hinv as (_ & _ & _ & Hall).
  destruct (Hall j u Hu) as [(_ & Hd & _ & Hl) _].
  rewrite (content_string_point h _ _ _ _ Hd Hl).
  apply content_string_point; [|exact Hl].
  rewrite list_lookup_insert_ne; [exact Hd|].
  eapply inv_data_distinct; eassumption.
Qed.

Lemma inv_tail_view h L vs e :
  ledger_inv h L vs -> In e (tail (ValenceLedger.chain L)) ->
  exists j u, (1 <= j)%nat /\ vs !! j = Some u /\ v_entry u = e.
Proof.
  intros (Hc & _) He. rewrite Hc in He.
  apply list_elem_of_In, list_elem_of_lookup in He. destruct He as [j Hj].
  rewrite lookup_tail, list_lookup_fmap in Hj.
  destruct (vs !! S j) as [u|] eqn:Eu; [|discriminate].
  injection Hj as <-. exists (S j), u. split; [lia|]. split; [exact Eu|reflexivity].
Qed.

Lemma get_set_eq key value d : Dict.get key (Dict.set key value d) = Some value.
Proof.
  induction d as [|[k' v'] d IH]; simpl.
  - rewrite String.eqb_refl. reflexivity.
  - destruct (String.eqb k' key) eqn:E; simpl; rewrite E; [reflexivity|exact IH].
Qed.


Lemma tamper_point_field h L vs i v key value :
  ledger_inv h L vs -> vs !! i = Some v ->
  point_field (<[v_data v := Dict.set key value (InteractionPoint.fields (v_point v))]> h)
              L i key = Some value.
Proof.
  intros Hinv Hv. unfold point_field, point_data_at.
  rewrite (same_entry_at _ _ _ _ (tamper_same_entries _ _ _ _ _ _ Hinv Hv)).
  rewrite (inv_entry_at _ _ _ _ _ Hinv Hv).
  change (Dict.get "point_data" (entry_fields i (v_data v) (VStr (v_prev v))
                                 ++ [("hash", VStr (v_hash v))]))
    with (Some (VDict (v_data v))).
  cbv iota beta.
  rewrite list_lookup_insert_eq by (apply (inv_bound _ _ _ _ _ Hinv Hv)).
  apply get_set_eq.
Qed.



(** ** A changed field changes the text *)

Lemma append_inv_head (s a b : string) : (s ++ a = s ++ b)%string -> a = b.
Proof. induction s as [|c s IH]; simpl; [auto|]. intros [= H]. auto. Qed.

Lemma append_length (a b : string) :
  String.length (a ++ b)%string = (String.length a + String.length b)%nat.
Proof. induction a as [|c a IH]; simpl; [reflexivity|]. rewrite IH. reflexivity. Qed.

Lemma append_inv_tail (s a b : string) : (a ++ s = b ++ s)%string -> a = b.
Proof.
  revert b. induction a as [|c a IH]; intros [|c' b] H.
  - reflexivity.
  - apply (f_equal String.length) in H. rewrite !append_length in H. simpl in H. lia.
  - apply (f_equal String.length) in H. rewrite !append_length in H. simpl in H. lia.
  - injection H as -> H. f_equal. apply IH, H.
Qed.

Lemma append_assoc (a b c : string) : ((a ++ b) ++ c = a ++ b ++ c)%string.
Proof.
  induction a as [|x a IH]; [reflexivity|].
  change (String x ((a ++ b) ++ c) = String x (a ++ b ++ c))%string.
  rewrite IH. reflexivity.
Qed.

Lemma append_nil_r (a : string) : (a ++ EmptyString)%string = a.
Proof.
  induction a as [|x a IH]; [reflexivity|].
  change (String x (a ++ EmptyString) = String x a)%string.
  rewrite IH. reflexivity.
Qed.

(** Where an item lands when inserted or sorted depends on its key only. *)
Lemma insert_item_place l k :
  exists l1 l2, forall x, Json.insert_item (k, x) l = l1 ++ (k, x) :: l2.
Proof.
  induction l as [|b l (l1 & l2 & IH)]; simpl.
  - exists [], []. reflexivity.
  - destruct (String.leb k (fst b)).
    + exists [], (b :: l). reflexivity.
    + exists (b :: l1), l2. intros x. rewrite IH. reflexivity.
Qed.

Lemma insert_item_around a l1 l2 k :
  exists l1' l2', forall x,
    Json.insert_item a (l1 ++ (k, x) :: l2) = l1' ++ (k, x) :: l2'.
Proof.
  induction l1 as [|b l1 (l1' & l2' & IH)]; simpl.
  - destruct (String.leb (fst a) k).
    + exists [a], l2. reflexivity.
    + exists [], (Json.insert_item a l2). reflexivity.
  - destruct (String.leb (fst a) (fst b)).
    + exists (a :: b :: l1), l2. reflexivity.
    + exists (b :: l1'), l2'. intros x. rewrite IH. reflexivity.
Qed.

Lemma sort_items_place d1 d2 k :
  exists l1 l2, forall x, Json.sort_items (d1 ++ (k, x) :: d2) = l1 ++ (k, x) :: l2.
Proof.
  induction d1 as [|a d1 (l1 & l2 & IH)]; simpl.
  - apply insert_item_place.
  - destruct (insert_item_around a l1 l2 k) as (l1' & l2' & H).
    exists l1', l2'. intros x. rewrite IH. apply H.
Qed.

Lemma join_place sep (l1 l2 : list string) :
  exists pre post, forall y, Json.join sep (l1 ++ y :: l2) = (pre ++ y ++ post)%string.
Proof.
  induction l1 as [|a l1 (pre & post & IH)].
  - exists EmptyString. destruct l2 as [|b l2].
    + exists EmptyString. intros y. simpl. rewrite append_nil_r. reflexivity.
    + exists (sep ++ Json.join sep (b :: l2))%string. reflexivity.
  - exists (a ++ sep ++ pre)%string, post. intros y.
    change (Json.join sep ((a :: l1) ++ y :: l2))
      with (match l1 ++ y :: l2 with
            | [] => a
            | _ => (a ++ sep ++ Json.join sep (l1 ++ y :: l2))%string
            end).
    destruct (l1 ++ y :: l2) eqn:E; [destruct l1; discriminate|].
    rewrite <- E, IH, !append_assoc. reflexivity.
Qed.

(** Assigning to a field that is there keeps its place. *)
Lemma set_place key d old :
  Dict.get key d = Some old ->
  exists d1 d2, d = d1 ++ (key, old) :: d2
    /\ forall value, Dict.set key value d = d1 ++ (key, value) :: d2.
Proof.
  induction d as [|[k' v'] d IH]; simpl; [discriminate|].
  destruct (String.eqb k' key) eqn:E.
  - intros [= ->]. apply String.eqb_eq in E. subst k'.
    exists [], d. split; reflexivity.
  - intros H. destruct (IH H) as (d1 & d2 & -> & Hset).
    exists ((k', v') :: d1), d2. split; [reflexivity|].
    intros value. rewrite Hset. reflexivity.
Qed.

(** The text of a dict of plain values with one field assigned: only the
    text of that value differs. *)
Lemma dict_text_place key d old :
  Dict.get key d = Some old ->
  exists pre post,
    dict_text d = (pre ++ plain_text old ++ post)%string
    /\ forall value,
         dict_text (Dict.set key value d) = (pre ++ plain_text value ++ post)%string.
Proof.
  intros Hget. destruct (set_place key d old Hget) as (d1 & d2 & Hd & Hset).
  destruct (sort_items_place d1 d2 key) as (l1 & l2 & Hsort).
  destruct (join_place ", " (map item_text l1) (map item_text l2)) as (pre & post & Hjoin).
  exists ("{" ++ pre ++ Json.encode_str key ++ ": ")%string, (post ++ "}")%string.
  assert (H : forall x, dict_text (d1 ++ (key, x) :: d2)
                        = (("{" ++ pre ++ Json.encode_str key ++ ": ")
                           ++ plain_text x ++ post ++ "}")%string).
  { intros x. unfold dict_text. rewrite Hsort, map_app. cbn [map].
    rewrite Hjoin. unfold item_text. cbn [fst snd].
    rewrite !append_assoc. reflexivity. }
  split.
  - rewrite Hd. apply H.
  - intros value. rewrite Hset. apply H.
Qed.

Lemma dict_text_changed key d old value :
  Dict.get key d = Some old ->
  plain_text value <> plain_text old ->
  dict_text (Dict.set key value d) <> dict_text d.
Proof.
  intros Hget Hne E.
  destruct (dict_text_place key d old Hget) as (pre & post & Hold & Hnew).
  rewrite Hold, Hnew in E.
  apply append_inv_head, append_inv_tail in E. contradiction.
Qed.

Lemma entry_text_inj i data data' prev :
  entry_text i data prev = entry_text i data' prev -> data = data'.
Proof.
  unfold entry_text. cbn [Json.join]. intros E.
  apply append_inv_head, append_inv_tail in E.
  apply append_inv_head, append_inv_head, append_inv_tail in E.
  apply append_inv_head, append_inv_head in E. exact E.
Qed.

Lemma set_writable key value d :
  printable value = true -> writable d = true -> writable (Dict.set key value d) = true.
Proof.
  intros Hv. unfold writable. induction d as [|[k' v'] d IH]; simpl.
  - rewrite Hv. reflexivity.
  - destruct (String.eqb k' key); simpl.
    + rewrite Hv. intros H. apply andb_true_iff in H. apply H.
    + intros H. apply andb_true_iff in H. destruct H as [-> H]. simpl. apply IH, H.
Qed.

Lemma inv_point_field h L vs i v key :
  ledger_inv h L vs -> vs !! i = Some v ->
  point_field h L i key = Dict.get key (InteractionPoint.fields (v_point v)).
Proof.
  intros Hinv Hv. unfold point_field, point_data_at.
  rewrite (inv_entry_at _ _ _ _ _ Hinv Hv).
  change (Dict.get "point_data" (entry_fields i (v_data v) (VStr (v_prev v))
                                 ++ [("hash", VStr (v_hash v))]))
    with (Some (VDict (v_data v))).
  cbv iota beta.
  destruct Hinv as (_ & _ & _ & Hall). destruct (Hall i v Hv) as [(_ & Hd & _) _].
  rewrite Hd. reflexivity.
Qed.

Lemma entry_json_at h L i p prev hh d :
  entry_at h L i = Some (entry_fields i p (VStr prev) ++ [("hash", VStr hh)]) ->
  h !! p = Some d -> writable d = true -> Json.digits_ok (Z.of_nat i) = true ->
  entry_json h L i = Ok (entry_text i (dict_text d) prev).
Proof.
  intros He Hp Hd Hi. unfold entry_json. rewrite He.
  change (Dict.del "hash" (entry_fields i p (VStr prev) ++ [("hash", VStr hh)]))
    with (entry_fields i p (VStr prev)).
  apply content_string_entry; assumption.
Qed.

(** After an assignment of a printable value in the point data of entry
    [i], the ledger is still one of entry objects. *)
Lemma tamper_typed h L vs i v key value :
  ledger_inv h L vs -> vs !! i = Some v -> printable value = true ->
  entries_typed
    (<[v_data v := Dict.set key value (InteractionPoint.fields (v_point v))]> h) L = true.
Proof.
  intros Hinv Hv Hplain.
  set (d' := Dict.set key value (InteractionPoint.fields (v_point v))).
  assert (Hse := tamper_same_entries h L vs i v d' Hinv Hv).
  pose proof (inv_typed _ _ _ Hinv) as Hty. unfold entries_typed in *.
  apply andb_true_iff in Hty. destruct Hty as [H1 H2].
  rewrite forallb_forall in H1, H2.
  apply andb_true_iff. split; apply forallb_forall; intros e He.
  - unfold has_hash. rewrite (Hse e He). apply H1, He.
  - destruct (inv_tail_view _ _ _ _ Hinv He) as (j & u & Hj & Hu & <-).
    assert (He' : In (v_entry u) (ValenceLedger.chain L))
      by (destruct (ValenceLedger.chain L); [destruct He|right; exact He]).
    pose proof Hinv as (_ & _ & _ & Hall).
    destruct (Hall j u Hu) as [(Hue & Hud & _ & Hul) _].
    unfold is_entry. rewrite (Hse _ He'), Hue.
    change (Dict.get "previous_hash" (entry_fields j (v_data u) (VStr (v_prev u))
                                      ++ [("hash", VStr (v_hash u))]))
      with (Some (VStr (v_prev u))).
    change (Dict.get "hash" (entry_fields j (v_data u) (VStr (v_prev u))
                             ++ [("hash", VStr (v_hash u))]))
      with (Some (VStr (v_hash u))).
    change (Dict.del "hash" (entry_fields j (v_data u) (VStr (v_prev u))
                             ++ [("hash", VStr (v_hash u))]))
      with (entry_fields j (v_data u) (VStr (v_prev u))).
    destruct (decide (i = j)) as [->|Hij].
    + assert (u = v) by congruence. subst u.
      erewrite content_string_entry; [reflexivity| | |].
      * apply list_lookup_insert_eq. apply (inv_bound _ _ _ _ _ Hinv Hv).
      * apply set_writable; [assumption|eapply fields_writable, Hul].
      * apply andb_true_iff in Hul. apply Hul.
    + rewrite (tamper_text _ _ _ _ _ d' _ _ Hinv Hv Hu Hij).
      rewrite (content_string_point _ _ _ _ _ Hud Hul). reflexivity.
Qed.

(** C2 (amended). On a built ledger with at least two entries,
    [verify_integrity] returns true when nothing was changed.  After an
    assignment to a field of the point data of entry 1 that replaces the
    value by one [json.dumps] can write there (no dict, numbers of at most
    4300 digits, lists and tuples within the depth of the encoder) with a
    different JSON text, it returns false and reports tampered data at
    index 1, provided SHA-256 does not give the old and the new text of
    the entry the same digest. *)
Theorem C2_tamper_detection (k : nat) (L : ValenceLedger.t) (s : store) :
  built k L s ->
  (2 <= length (ValenceLedger.chain L))%nat ->
  (exists s', ValenceLedger.verify_integrity L s = (Ok true, s'))
  /\ forall key value old,
       point_field (objs s) L 1 key = Some old ->
       printable value = true ->
       plain_text value <> plain_text old ->
       (forall t t',
          entry_json (objs s) L 1 = Ok t ->
          entry_json (objs (snd (tamper L 1 key value s))) L 1 = Ok t' ->
          t' <> t ->
          Sha256.hexdigest (PyStr.encode t') <> Sha256.hexdigest (PyStr.encode t)) ->
       exists s1 s2,
         tamper L 1 key value s = (Ok tt, s1)
         /\ ValenceLedger.verify_integrity L s1 = (Ok false, s2)
         /\ stdout s2
            = stdout s1 ++ ["Integrity check failed: Data tampered at index 1."].
Proof.
  intros Hb Hlen. destruct (built_inv _ _ _ Hb) as (vs & Hinv & Hvs).
  destruct s as [h out]. simpl in Hinv.
  split.
  { destruct (inv_verify h L vs out Hinv) as [g Hg]. eexists. exact Hg. }
  intros key value old Hold Hplain Hne Hsha. cbn [objs] in Hold, Hsha.
  rewrite (inv_length _ _ _ Hinv) in Hlen.
  destruct (lookup_lt_is_Some_2 vs 1%nat) as [v Hv]; [lia|].
  rewrite (inv_point_field _ _ _ _ _ key Hinv Hv) in Hold.
  set (d' := Dict.set key value (InteractionPoint.fields (v_point v))) in *.
  set (h' := <[v_data v := d']> h).
  assert (Hrun : tamper L 1 key value (Store h out) = (Ok tt, Store h' out))
    by (eapply tamper_run; eassumption).
  rewrite Hrun in Hsha. cbn [snd objs] in Hsha.
  assert (Hse := tamper_same_entries h L vs 1%nat v d' Hinv Hv).
  assert (Hd' : h' !! v_data v = Some d')
    by (apply list_lookup_insert_eq, (inv_bound _ _ _ _ _ Hinv Hv)).
  pose proof Hinv as (_ & _ & _ & Hall).
  destruct (Hall _ v Hv) as [(_ & Hd & Hhash & Hlog) _].
  assert (Hidx : Json.digits_ok (Z.of_nat 1) = true)
    by (apply andb_true_iff in Hlog; apply Hlog).
  assert (Hpd : writable (InteractionPoint.fields (v_point v)) = true)
    by (eapply fields_writable, Hlog).
  assert (Hpd' : writable d' = true) by (apply set_writable; assumption).
  assert (Ht : entry_json h L 1 = Ok (entry_text 1 (dict_text (InteractionPoint.fields (v_point v))) (v_prev v))).
  { eapply entry_json_at; [eapply inv_entry_at; eassumption|exact Hd|exact Hpd|exact Hidx]. }
  assert (Ht' : entry_json h' L 1 = Ok (entry_text 1 (dict_text d') (v_prev v))).
  { eapply entry_json_at; [|exact Hd'|exact Hpd'|exact Hidx].
    rewrite (same_entry_at _ _ _ _ Hse). eapply inv_entry_at; eassumption. }
  assert (Hdigest := Hsha _ _ Ht Ht').
  assert (Hbind : binding h' L 1 = false).
  { unfold binding. rewrite (same_entry_at _ _ _ _ Hse), (inv_entry_at _ _ _ _ _ Hinv Hv).
    change (Dict.get "hash" (entry_fields 1 (v_data v) (VStr (v_prev v))
                             ++ [("hash", VStr (v_hash v))]))
      with (Some (VStr (v_hash v))).
    change (Dict.del "hash" (entry_fields 1 (v_data v) (VStr (v_prev v))
                             ++ [("hash", VStr (v_hash v))]))
      with (entry_fields 1 (v_data v) (VStr (v_prev v))).
    unfold ContentHasher.
    rewrite (content_string_entry _ _ _ _ _ Hd' Hpd' Hidx). cbn [digest_of].
    apply String.eqb_neq. rewrite Hhash. unfold entry_digest. intros E.
    apply Hdigest; [|symmetry; exact E].
    intros Etext. apply entry_text_inj in Etext.
    revert Etext. apply dict_text_changed with (old := old); assumption. }
  assert (Hlink : linkage h' L 1 = true).
  { rewrite (same_linkage _ _ _ _ Hse). eapply inv_linkage; [eassumption|lia]. }
  destruct (verify_integrity_typed L h' out (tamper_typed _ _ _ _ _ key value Hinv Hv Hplain))
    as [g Hg].
  assert (Hfv : first_violation h' L (checked L)
                = Some "Integrity check failed: Data tampered at index 1.").
  { unfold checked. rewrite (inv_length _ _ _ Hinv).
    destruct (length vs) as [|[|n]]; try lia.
    cbn [Nat.sub seq first_violation]. unfold violation. rewrite Hlink, Hbind.
    reflexivity. }
  rewrite Hfv in Hg.
  eexists (Store h' out), _. split; [exact Hrun|]. split; [exact Hg|reflexivity].
Qed.

Lemma C2_witness :
  built 2 demo_ledger demo_store
  /\ point_field (objs demo_store) demo_ledger 1 "description" = Some (VStr "urgent")
  /\ exists s1 s2,
       tamper demo_ledger 1 "description" happy demo_store = (Ok tt, s1)
       /\ ValenceLedger.verify_integrity demo_ledger s1 = (Ok false, s2)
       /\ stdout s2
          = stdout s1 ++ ["Integrity check failed: Data tampered at index 1."].
Proof.
  split; [exact demo_built|]. split; [vm_compute; reflexivity|].
  assert (Hlen : (2 <= length (ValenceLedger.chain demo_ledger))%nat) by (simpl; lia).
  destruct (C2_tamper_detection 2 demo_ledger demo_store demo_built Hlen) as [_ H].
  apply (H "description" happy (VStr "urgent")).
  - vm_compute. reflexivity.
  - reflexivity.
  - intros E. vm_compute in E. discriminate E.
  - intros t t' Ht Ht' _ E.
    vm_compute in Ht. vm_compute in Ht'.
    injection Ht as <-. injection Ht' as <-.
    vm_compute in E. discriminate E.
Defined.

(** C2, refuted as stated: on the built three-entry ledger the field
    [coordinates] of [entries[1].point_data] holds a tuple; after it is
    assigned the list of the same numbers the field holds a different
    value, and [verify_integrity] still returns true and prints nothing. *)
Lemma C2_counterexample :
  built 2 demo_ledger demo_store
  /\ point_field (objs demo_store) demo_ledger 1 "coordinates"
     = Some (VTuple [VInt 80; VInt (-30); VInt 1])
  /\ exists s1 s2,
       tamper demo_ledger 1 "coordinates" coordinates_as_list demo_store = (Ok tt, s1)
       /\ point_field (objs s1) demo_ledger 1 "coordinates" = Some coordinates_as_list
       /\ ValenceLedger.verify_integrity demo_ledger s1 = (Ok true, s2)
       /\ stdout s2 = stdout s1.
Proof.
  split; [exact demo_built|]. split; [vm_compute; reflexivity|].
  eexists _, _. split; [vm_compute; reflexivity|].
  split; [vm_compute; reflexivity|].
  split; vm_compute; reflexivity.
Qed.

(** ** Termination and the clock *)






(** * Further properties of the code *)

(** ** One turn of the loop of [verify_integrity], in any store *)

Lemma py_ne_differs a b s :
  py_ne a b s = match differs a b with
                | Some r => (Ok r, s)
                | None => (Stuck, s)
                end.
Proof. destruct a, b; reflexivity. Qed.

Lemma differs_str_r x s : x <> VStr s -> differs x (VStr s) = Some true.
Proof.
  destruct x as [| |s0| | |]; try reflexivity. intros H. simpl.
  destruct (String.eqb s0 s) eqn:E; [|reflexivity].
  apply String.eqb_eq in E. congruence.
Qed.

Lemma differs_str_l x s : x <> VStr s -> differs (VStr s) x = Some true.
Proof.
  destruct x as [| |s0| | |]; try reflexivity. intros H. simpl.
  destruct (String.eqb s s0) eqn:E; [|reflexivity].
  apply String.eqb_eq in E. congruence.
Qed.

Lemma differs_same s : differs (VStr s) (VStr s) = Some false.
Proof. simpl. rewrite String.eqb_refl. reflexivity. Qed.

Section verify_step.
  Variables (L : ValenceLedger.t) (i : nat) (rest : list nat).
  Variables (h g : list dict) (out : list string).
  Variables (c p : loc) (dc dp : dict).
  Hypothesis Hc : ValenceLedger.chain L !! i = Some c.
  Hypothesis Hp : ValenceLedger.chain L !! (i - 1)%nat = Some p.
  Hypothesis Hdc : h !! c = Some dc.
  Hypothesis Hdp : h !! p = Some dp.

Lemma step_no_previous_hash :
  Dict.get "previous_hash" dc = None ->
  ValenceLedger.verify_from L (i :: rest) (Store (h ++ g) out)
  = (Raise (KeyError "previous_hash"), Store (h ++ g) out).
Proof.
  intros Ha. cbn [ValenceLedger.verify_from].
  rewrite (bind_run _ _ _ _ _ (chain_at_run _ _ _ _ Hc)).
  rewrite (bind_run _ _ _ _ _ (chain_at_run _ _ _ _ Hp)).
  unfold bind at 1, getitem.
  rewrite (bind_run _ _ _ _ _ (read_run _ _ _ _ (lookup_app_l_Some _ g _ _ Hdc))).
  rewrite Ha. reflexivity.
Qed.

Lemma step_no_hash_before a :
  Dict.get "previous_hash" dc = Some a ->
  Dict.get "hash" dp = None ->
  ValenceLedger.verify_from L (i :: rest) (Store (h ++ g) out)
  = (Raise (KeyError "hash"), Store (h ++ g) out).
Proof.
  intros Ha Hb. cbn [ValenceLedger.verify_from].
  rewrite (bind_run _ _ _ _ _ (chain_at_run _ _ _ _ Hc)).
  rewrite (bind_run _ _ _ _ _ (chain_at_run _ _ _ _ Hp)).
  rewrite (bind_run _ _ _ _ _
             (getitem_run _ _ _ _ _ _ (lookup_app_l_Some _ g _ _ Hdc) Ha)).
  unfold bind at 1, getitem.
  rewrite (bind_run _ _ _ _ _ (read_run _ _ _ _ (lookup_app_l_Some _ g _ _ Hdp))).
  rewrite Hb. reflexivity.
Qed.

Lemma step_broken a b :
  Dict.get "previous_hash" dc = Some a ->
  Dict.get "hash" dp = Some b ->
  differs a b = Some true ->
  ValenceLedger.verify_from L (i :: rest) (Store (h ++ g) out)
  = (Ok false, Store (h ++ g) (out ++ [broken_line i])).
Proof.
  intros Ha Hb Hne. cbn [ValenceLedger.verify_from].
  rewrite (bind_run _ _ _ _ _ (chain_at_run _ _ _ _ Hc)).
  rewrite (bind_run _ _ _ _ _ (chain_at_run _ _ _ _ Hp)).
  rewrite (bind_run _ _ _ _ _
             (getitem_run _ _ _ _ _ _ (lookup_app_l_Some _ g _ _ Hdc) Ha)).
  rewrite (bind_run _ _ _ _ _
             (getitem_run _ _ _ _ _ _ (lookup_app_l_Some _ g _ _ Hdp) Hb)).
  unfold bind at 1. rewrite py_ne_differs, Hne. reflexivity.
Qed.

(** The part of the turn after the linkage check has passed, up to the
    second comparison. *)
Lemma step_linked a b :
  Dict.get "previous_hash" dc = Some a ->
  Dict.get "hash" dp = Some b ->
  differs a b = Some false ->
  forall x t,
    Dict.get "hash" dc = Some x ->
    content_string h (Dict.del "hash" dc) = Ok t ->
    ValenceLedger.verify_from L (i :: rest) (Store (h ++ g) out)
    = match differs (VStr (Sha256.hexdigest (PyStr.encode t))) x with
      | Some true =>
          (Ok false, Store (h ++ g ++ [Dict.del "hash" dc]) (out ++ [tampered_line i]))
      | Some false =>
          ValenceLedger.verify_from L rest (Store (h ++ g ++ [Dict.del "hash" dc]) out)
      | None => (Stuck, Store (h ++ g ++ [Dict.del "hash" dc]) out)
      end.
Proof.
  intros Ha Hb Hne x t Hx Ht. cbn [ValenceLedger.verify_from].
  rewrite (bind_run _ _ _ _ _ (chain_at_run _ _ _ _ Hc)).
  rewrite (bind_run _ _ _ _ _ (chain_at_run _ _ _ _ Hp)).
  rewrite (bind_run _ _ _ _ _
             (getitem_run _ _ _ _ _ _ (lookup_app_l_Some _ g _ _ Hdc) Ha)).
  rewrite (bind_run _ _ _ _ _
             (getitem_run _ _ _ _ _ _ (lookup_app_l_Some _ g _ _ Hdp) Hb)).
  unfold bind at 1. rewrite py_ne_differs, Hne.
  rewrite (bind_run _ _ _ _ _ (copy_run _ _ _ _ (lookup_app_l_Some _ g _ _ Hdc))).
  erewrite bind_run by (eapply delitem_run; [apply lookup_last|exact Hx]).
  rewrite insert_last.
  unfold bind at 1. rewrite hash_entry_run, <- app_assoc.
  rewrite dumps_fresh by (rewrite Ht; discriminate).
  rewrite Ht. cbn [digest_of].
  rewrite (bind_run _ _ _ _ _
             (getitem_run _ _ _ _ _ _ (lookup_app_l_Some _ _ _ _ Hdc) Hx)).
  unfold bind at 1. rewrite py_ne_differs.
  destruct (differs _ x) as [[|]|]; reflexivity.
Qed.

(** The linkage check has passed but the entry has no hash field: the
    deletion on the copy raises. *)
Lemma step_no_hash a b :
  Dict.get "previous_hash" dc = Some a ->
  Dict.get "hash" dp = Some b ->
  differs a b = Some false ->
  Dict.get "hash" dc = None ->
  ValenceLedger.verify_from L (i :: rest) (Store (h ++ g) out)
  = (Raise (KeyError "hash"), Store (h ++ g ++ [dc]) out).
Proof.
  intros Ha Hb Hne Hx. cbn [ValenceLedger.verify_from].
  rewrite (bind_run _ _ _ _ _ (chain_at_run _ _ _ _ Hc)).
  rewrite (bind_run _ _ _ _ _ (chain_at_run _ _ _ _ Hp)).
  rewrite (bind_run _ _ _ _ _
             (getitem_run _ _ _ _ _ _ (lookup_app_l_Some _ g _ _ Hdc) Ha)).
  rewrite (bind_run _ _ _ _ _
             (getitem_run _ _ _ _ _ _ (lookup_app_l_Some _ g _ _ Hdp) Hb)).
  unfold bind at 1. rewrite py_ne_differs, Hne.
  rewrite (bind_run _ _ _ _ _ (copy_run _ _ _ _ (lookup_app_l_Some _ g _ _ Hdc))).
  unfold bind at 1, delitem.
  rewrite (bind_run _ _ _ _ _ (read_run _ _ _ _ (lookup_last _ _))).
  rewrite Hx. rewrite <- app_assoc. reflexivity.
Qed.

End verify_step.

(** ** Assignments to and deletions from an entry object *)

Lemma inv_chain_lookup h L vs i v :
  ledger_inv h L vs -> vs !! i = Some v -> ValenceLedger.chain L !! i = Some (v_entry v).
Proof. intros (Hc & _) Hv. rewrite Hc, list_lookup_fmap, Hv. reflexivity. Qed.

Lemma inv_prev h L vs j v u :
  ledger_inv h L vs -> (1 <= j)%nat -> vs !! j = Some v -> vs !! (j - 1)%nat = Some u ->
  v_prev v = v_hash u.
Proof.
  intros (_ & _ & _ & Hall) Hj Hv Hu. destruct (Hall j v Hv) as [_ Hp].
  rewrite Hp. destruct j as [|j]; [lia|]. simpl in *.
  rewrite Nat.sub_0_r in Hu. rewrite Hu. reflexivity.
Qed.

Lemma inv_hash h L vs j v :
  ledger_inv h L vs -> vs !! j = Some v ->
  v_hash v = Sha256.hexdigest
               (PyStr.encode (entry_text j (dict_text (InteractionPoint.fields (v_point v)))
                                         (v_prev v))).
Proof. intros (_ & _ & _ & Hall) Hv. apply (Hall j v Hv). Qed.

Lemma inv_loggable h L vs j v :
  ledger_inv h L vs -> vs !! j = Some v -> loggable j (v_point v) = true.
Proof. intros (_ & _ & _ & Hall) Hv. apply (Hall j v Hv). Qed.

(** A turn of the loop at an intact index goes on to the next index. *)
Lemma intact_step h L vs h' j :
  ledger_inv h L vs -> intact h' vs j ->
  forall rest g out, exists g',
    ValenceLedger.verify_from L (j :: rest) (Store (h' ++ g) out)
    = ValenceLedger.verify_from L rest (Store (h' ++ g') out).
Proof.
  intros Hinv (Hj & v & u & Hv & Hu & Hev & Hdv & Heu) rest g out.
  eexists.
  rewrite (step_linked L j rest h' g out _ _ _ _
             (inv_chain_lookup _ _ _ _ _ Hinv Hv) (inv_chain_lookup _ _ _ _ _ Hinv Hu)
             Hev Heu (VStr (v_prev v)) (VStr (v_hash u)) eq_refl eq_refl
             ltac:(rewrite (inv_prev _ _ _ _ _ _ Hinv Hj Hv Hu); apply differs_same)
             (VStr (v_hash v))
             (entry_text j (dict_text (InteractionPoint.fields (v_point v))) (v_prev v))
             eq_refl
             (content_string_point _ _ _ _ _ Hdv (inv_loggable _ _ _ _ _ Hinv Hv))).
  rewrite <- (inv_hash _ _ _ _ _ Hinv Hv), differs_same. reflexivity.
Qed.

Lemma intact_prefix h L vs h' :
  ledger_inv h L vs ->
  forall l1, (forall j, In j l1 -> intact h' vs j) ->
  forall rest g out, exists g',
    ValenceLedger.verify_from L (l1 ++ rest) (Store (h' ++ g) out)
    = ValenceLedger.verify_from L rest (Store (h' ++ g') out).
Proof.
  intros Hinv l1. induction l1 as [|j l1 IH]; intros Hall rest g out.
  - exists g. reflexivity.
  - destruct (intact_step h L vs h' j Hinv (Hall j (or_introl eq_refl)) (l1 ++ rest) g out)
      as [g1 H1].
    destruct (IH (fun j' Hj' => Hall j' (or_intror Hj')) rest g1 out) as [g2 H2].
    exists g2. rewrite <- app_comm_cons, H1. exact H2.
Qed.

Lemma inv_entry_distinct h L vs i j u v :
  ledger_inv h L vs -> vs !! i = Some u -> vs !! j = Some v -> i <> j ->
  v_entry u <> v_entry v.
Proof.
  intros (_ & _ & _ & Hall) Hu Hv Hij E.
  destruct (Hall i u Hu) as [(Hue & _) _]. destruct (Hall j v Hv) as [(Hve & _) _].
  rewrite E, Hve in Hue. injection Hue as Hidx _ _ _. lia.
Qed.

Lemma inv_stored h L vs j v :
  ledger_inv h L vs -> vs !! j = Some v ->
  h !! v_entry v = Some (entry_dict j v)
  /\ h !! v_data v = Some (InteractionPoint.fields (v_point v)).
Proof.
  intros (_ & _ & _ & Hall) Hv. destruct (Hall j v Hv) as [(He & Hd & _) _].
  split; assumption.
Qed.

(** After the entry object at [i] was written to, the indices whose turn
    of the loop does not read it are intact. *)
Lemma written_entry_intact h L vs i v d' j :
  ledger_inv h L vs -> vs !! i = Some v ->
  (1 <= j < length vs)%nat -> j <> i -> (j - 1)%nat <> i ->
  intact (<[v_entry v := d']> h) vs j.
Proof.
  intros Hinv Hv Hj Hji Hji'. split; [lia|].
  destruct (lookup_lt_is_Some_2 vs j) as [w Hw]; [lia|].
  destruct (lookup_lt_is_Some_2 vs (j - 1)) as [u Hu]; [lia|].
  destruct (inv_stored _ _ _ _ _ Hinv Hw) as [Hew Hdw].
  destruct (inv_stored _ _ _ _ _ Hinv Hu) as [Heu _].
  exists w, u. split; [exact Hw|]. split; [exact Hu|]. split; [|split].
  - rewrite list_lookup_insert_ne; [exact Hew|].
    eapply inv_entry_distinct; try eassumption. lia.
  - rewrite list_lookup_insert_ne; [exact Hdw|].
    eapply inv_distinct; eassumption.
  - rewrite list_lookup_insert_ne; [exact Heu|].
    eapply inv_entry_distinct; try eassumption. lia.
Qed.

Lemma checked_split (L : ValenceLedger.t) i :
  (1 <= i < length (ValenceLedger.chain L))%nat ->
  checked L = seq 1 (i - 1) ++ i :: seq (S i) (length (ValenceLedger.chain L) - 1 - i).
Proof.
  intros Hi. unfold checked. destruct i as [|m]; [lia|].
  replace (S m - 1)%nat with m by lia.
  set (n := (length (ValenceLedger.chain L) - 1 - S m)%nat).
  replace (length (ValenceLedger.chain L) - 1)%nat with (m + S n)%nat by (subst n; lia).
  rewrite seq_app. reflexivity.
Qed.

(** [verify_integrity] on a built ledger one entry object of which, at
    position [i >= 1], was written to: the loop arrives at [i]. *)
Lemma written_entry_verify h L vs i v d' out :
  ledger_inv h L vs -> vs !! i = Some v -> (1 <= i)%nat ->
  exists g,
    ValenceLedger.verify_integrity L (Store (<[v_entry v := d']> h) out)
    = ValenceLedger.verify_from L
        (i :: seq (S i) (length (ValenceLedger.chain L) - 1 - i))
        (Store (<[v_entry v := d']> h ++ g) out).
Proof.
  intros Hinv Hv Hi.
  assert (Hlen : (i < length (ValenceLedger.chain L))%nat).
  { rewrite (inv_length _ _ _ Hinv). eapply lookup_lt_Some; eassumption. }
  unfold ValenceLedger.verify_integrity. fold (checked L).
  rewrite (checked_split L i) by lia.
  destruct (intact_prefix h L vs (<[v_entry v := d']> h) Hinv (seq 1 (i - 1))) with
    (rest := i :: seq (S i) (length (ValenceLedger.chain L) - 1 - i))
    (g := @nil dict) (out := out) as [g Hg].
  { intros j Hj. apply in_seq in Hj.
    rewrite (inv_length _ _ _ Hinv) in Hlen.
    eapply written_entry_intact; try eassumption; lia. }
  exists g. rewrite app_nil_r in Hg. exact Hg.
Qed.

Lemma assign_run h L vs i v key value out :
  ledger_inv h L vs -> vs !! i = Some v ->
  assign L i key value (Store h out)
  = (Ok tt, Store (<[v_entry v := Dict.set key value (entry_dict i v)]> h) out).
Proof.
  intros Hinv Hv. unfold assign.
  rewrite (bind_run _ _ _ _ _ (chain_at_run _ _ _ _ (inv_chain_lookup _ _ _ _ _ Hinv Hv))).
  apply setitem_run. apply (inv_stored _ _ _ _ _ Hinv Hv).
Qed.

Lemma inv_entry_field h L vs i v key :
  ledger_inv h L vs -> vs !! i = Some v ->
  entry_field h L i key = Dict.get key (entry_dict i v).
Proof.
  intros Hinv Hv. unfold entry_field.
  rewrite (inv_entry_at _ _ _ _ _ Hinv Hv). reflexivity.
Qed.

Lemma get_set_ne key key' value d :
  key' <> key -> Dict.get key' (Dict.set key value d) = Dict.get key' d.
Proof.
  intros Hne. induction d as [|[k0 v0] d IH]; simpl.
  - destruct (String.eqb key key') eqn:E; [|reflexivity].
    apply String.eqb_eq in E. congruence.
  - destruct (String.eqb k0 key) eqn:E; simpl.
    + apply String.eqb_eq in E. subst k0.
      destruct (String.eqb key key') eqn:E'; [|reflexivity].
      apply String.eqb_eq in E'. congruence.
    + rewrite IH. reflexivity.
Qed.

Lemma inv_view_at h L vs i :
  ledger_inv h L vs -> (i < length (ValenceLedger.chain L))%nat ->
  exists v, vs !! i = Some v /\ (v_entry v < length h)%nat.
Proof.
  intros Hinv Hi. rewrite (inv_length _ _ _ Hinv) in Hi.
  destruct (lookup_lt_is_Some_2 vs i Hi) as [v Hv].
  exists v. split; [exact Hv|]. apply (inv_bound _ _ _ _ _ Hinv Hv).
Qed.

(** ** Rewriting the digests stored in an entry *)

(** X1. On a built ledger, giving the [previous_hash] field of the entry
    at a position [i >= 1] any other value is always detected: the next
    [verify_integrity] returns false and reports the chain broken at
    [i].  No assumption on the hash function is involved. *)
Theorem previous_hash_rewrite_detected
    (k : nat) (L : ValenceLedger.t) (s : store) (i : nat) (x old : val) :
  built k L s ->
  (1 <= i < length (ValenceLedger.chain L))%nat ->
  entry_field (objs s) L i "previous_hash" = Some old ->
  x <> old ->
  exists s1 s2,
    assign L i "previous_hash" x s = (Ok tt, s1)
    /\ ValenceLedger.verify_integrity L s1 = (Ok false, s2)
    /\ stdout s2 = stdout s1 ++ [broken_line i].
Proof.
  intros Hb Hi Hold Hx. destruct (built_inv _ _ _ Hb) as (vs & Hinv & _).
  destruct s as [h out]. cbn [objs] in *.
  destruct (inv_view_at _ _ _ i Hinv) as (v & Hv & Hlt); [lia|].
  destruct (inv_view_at _ _ _ (i - 1) Hinv) as (u & Hu & _); [lia|].
  rewrite (inv_entry_field _ _ _ _ _ _ Hinv Hv) in Hold.
  injection Hold as <-.
  set (d' := Dict.set "previous_hash" x (entry_dict i v)).
  destruct (written_entry_verify h L vs i v d' out Hinv Hv) as [g Hg]; [lia|].
  eexists _, _. split; [eapply assign_run; eassumption|]. fold d'.
  rewrite Hg.
  rewrite (step_broken L i _ (<[v_entry v := d']> h) g out _ _ d' (entry_dict (i - 1) u)
             (inv_chain_lookup _ _ _ _ _ Hinv Hv) (inv_chain_lookup _ _ _ _ _ Hinv Hu)
             (list_lookup_insert_eq _ _ _ Hlt)
             ltac:(rewrite list_lookup_insert_ne;
                   [apply (inv_stored _ _ _ _ _ Hinv Hu)
                   |eapply inv_entry_distinct; try eassumption; lia])
             x (VStr (v_hash u)) (get_set_eq _ _ _) eq_refl).
  - split; reflexivity.
  - apply differs_str_r. rewrite <- (inv_prev _ _ _ _ _ _ Hinv (proj1 Hi) Hv Hu). exact Hx.
Qed.

(** X2. On a built ledger, giving the [hash] field of the entry at a
    position [i >= 1] any other value is always detected: the next
    [verify_integrity] returns false and reports tampered data at [i]
    (the recomputed content hash is the old one). *)
Theorem hash_rewrite_detected
    (k : nat) (L : ValenceLedger.t) (s : store) (i : nat) (x old : val) :
  built k L s ->
  (1 <= i < length (ValenceLedger.chain L))%nat ->
  entry_field (objs s) L i "hash" = Some old ->
  x <> old ->
  exists s1 s2,
    assign L i "hash" x s = (Ok tt, s1)
    /\ ValenceLedger.verify_integrity L s1 = (Ok false, s2)
    /\ stdout s2 = stdout s1 ++ [tampered_line i].
Proof.
  intros Hb Hi Hold Hx. destruct (built_inv _ _ _ Hb) as (vs & Hinv & _).
  destruct s as [h out]. cbn [objs] in *.
  destruct (inv_view_at _ _ _ i Hinv) as (v & Hv & Hlt); [lia|].
  destruct (inv_view_at _ _ _ (i - 1) Hinv) as (u & Hu & _); [lia|].
  rewrite (inv_entry_field _ _ _ _ _ _ Hinv Hv) in Hold.
  injection Hold as <-.
  set (d' := Dict.set "hash" x (entry_dict i v)).
  destruct (written_entry_verify h L vs i v d' out Hinv Hv) as [g Hg]; [lia|].
  eexists _, _. split; [eapply assign_run; eassumption|]. fold d'.
  rewrite Hg.
  assert (Hdata : <[v_entry v := d']> h !! v_data v
                  = Some (InteractionPoint.fields (v_point v))).
  { rewrite list_lookup_insert_ne; [apply (inv_stored _ _ _ _ _ Hinv Hv)|].
    eapply inv_distinct; eassumption. }
  rewrite (step_linked L i _ (<[v_entry v := d']> h) g out _ _ d' (entry_dict (i - 1) u)
             (inv_chain_lookup _ _ _ _ _ Hinv Hv) (inv_chain_lookup _ _ _ _ _ Hinv Hu)
             (list_lookup_insert_eq _ _ _ Hlt)
             ltac:(rewrite list_lookup_insert_ne;
                   [apply (inv_stored _ _ _ _ _ Hinv Hu)
                   |eapply inv_entry_distinct; try eassumption; lia])
             (VStr (v_prev v)) (VStr (v_hash u)) eq_refl eq_refl
             ltac:(rewrite (inv_prev _ _ _ _ _ _ Hinv (proj1 Hi) Hv Hu); apply differs_same)
             x
             (entry_text i (dict_text (InteractionPoint.fields (v_point v))) (v_prev v))
             (get_set_eq _ _ _)
             (content_string_point _ _ _ _ _ Hdata (inv_loggable _ _ _ _ _ Hinv Hv))).
  rewrite <- (inv_hash _ _ _ _ _ Hinv Hv).
  rewrite (differs_str_l x (v_hash v) Hx). split; reflexivity.
Qed.

(** X3. The genesis entry of a built ledger is checked through its
    [hash] field only, and only when there is a second entry: giving that
    field another value makes [verify_integrity] return false and report
    the chain broken at index 1, while rewriting any other field of the
    genesis entry, or any field at all when it is the only entry, leaves
    [verify_integrity] returning true. *)
Theorem genesis_entry_rewrite (k : nat) (L : ValenceLedger.t) (s : store) :
  built k L s ->
  (forall key x,
      key <> "hash" \/ length (ValenceLedger.chain L) = 1%nat ->
      exists s1 s2,
        assign L 0 key x s = (Ok tt, s1)
        /\ ValenceLedger.verify_integrity L s1 = (Ok true, s2)
        /\ stdout s2 = stdout s1)
  /\ (forall x old,
        (2 <= length (ValenceLedger.chain L))%nat ->
        entry_field (objs s) L 0 "hash" = Some old ->
        x <> old ->
        exists s1 s2,
          assign L 0 "hash" x s = (Ok tt, s1)
          /\ ValenceLedger.verify_integrity L s1 = (Ok false, s2)
          /\ stdout s2 = stdout s1 ++ [broken_line 1]).
Proof.
  intros Hb. destruct (built_inv _ _ _ Hb) as (vs & Hinv & _).
  destruct s as [h out]. cbn [objs] in *.
  assert (Hvs : (1 <= length vs)%nat).
  { destruct Hinv as (_ & Hne & _). destruct vs; [contradiction|simpl; lia]. }
  destruct (inv_view_at _ _ _ 0%nat Hinv) as (v & Hv & Hlt).
  { rewrite (inv_length _ _ _ Hinv). lia. }
  pose proof (inv_length _ _ _ Hinv) as Hlen.
  split.
  - intros key x Hkey.
    set (d' := Dict.set key x (entry_dict 0 v)).
    set (h' := <[v_entry v := d']> h).
    destruct (decide (length vs = 1%nat)) as [H1|H1].
    { eexists (Store h' out), _. split; [eapply assign_run; eassumption|].
      unfold ValenceLedger.verify_integrity. rewrite Hlen, H1.
      split; reflexivity. }
    assert (Hk : key <> "hash") by (destruct Hkey as [?|?]; [assumption|lia]).
    destruct (inv_view_at _ _ _ 1%nat Hinv) as (w & Hw & _); [lia|].
    destruct (intact_prefix h L vs h' Hinv (seq 2 (length (ValenceLedger.chain L) - 1 - 1)))
      with (rest := @nil nat) (g := [Dict.del "hash" (entry_dict 1 w)]) (out := out)
      as [g Hg].
    { intros j Hj. apply in_seq in Hj.
      eapply written_entry_intact; try eassumption; lia. }
    rewrite app_nil_r in Hg.
    eexists (Store h' out), _. split; [eapply assign_run; eassumption|].
    unfold ValenceLedger.verify_integrity. fold (checked L).
    rewrite (checked_split L 1) by lia. cbn [Nat.sub seq app].
    pose proof (step_linked L 1 (seq 2 (length (ValenceLedger.chain L) - 1 - 1))
                  h' [] out _ _ (entry_dict 1 w) d'
                  (inv_chain_lookup _ _ _ _ _ Hinv Hw) (inv_chain_lookup _ _ _ _ _ Hinv Hv)) as Hstep.
    rewrite app_nil_r in Hstep.
    assert (Hdata : h' !! v_data w = Some (InteractionPoint.fields (v_point w))).
    { unfold h'. rewrite list_lookup_insert_ne; [apply (inv_stored _ _ _ _ _ Hinv Hw)|].
      eapply inv_distinct; eassumption. }
    rewrite (Hstep
               ltac:(unfold h'; rewrite list_lookup_insert_ne;
                     [apply (inv_stored _ _ _ _ _ Hinv Hw)
                     |eapply inv_entry_distinct; try eassumption; lia])
               (list_lookup_insert_eq _ _ _ Hlt)
               (VStr (v_prev w)) (VStr (v_hash v)) eq_refl
               ltac:(unfold d'; rewrite get_set_ne by (intros E; apply Hk; symmetry; exact E);
                     reflexivity)
               ltac:(rewrite (inv_prev _ _ _ 1%nat _ _ Hinv (le_n 1) Hw Hv); apply differs_same)
               (VStr (v_hash w))
               (entry_text 1 (dict_text (InteractionPoint.fields (v_point w))) (v_prev w))
               eq_refl
               (content_string_point _ _ _ _ _ Hdata (inv_loggable _ _ _ _ _ Hinv Hw))).
    rewrite <- (inv_hash _ _ _ _ _ Hinv Hw), differs_same.
    rewrite app_nil_l, Hg. split; reflexivity.
  - intros x old Hlen2 Hold Hx.
    rewrite (inv_entry_field _ _ _ _ _ _ Hinv Hv) in Hold. injection Hold as <-.
    set (d' := Dict.set "hash" x (entry_dict 0 v)).
    set (h' := <[v_entry v := d']> h).
    destruct (inv_view_at _ _ _ 1%nat Hinv) as (w & Hw & _); [lia|].
    eexists (Store h' out), _. split; [eapply assign_run; eassumption|].
    unfold ValenceLedger.verify_integrity. fold (checked L).
    rewrite (checked_split L 1) by lia. cbn [Nat.sub seq app].
    pose proof (step_broken L 1 (seq 2 (length (ValenceLedger.chain L) - 1 - 1))
                  h' [] out _ _ (entry_dict 1 w) d'
                  (inv_chain_lookup _ _ _ _ _ Hinv Hw) (inv_chain_lookup _ _ _ _ _ Hinv Hv)) as Hstep.
    rewrite app_nil_r in Hstep.
    rewrite (Hstep
               ltac:(unfold h'; rewrite list_lookup_insert_ne;
                     [apply (inv_stored _ _ _ _ _ Hinv Hw)
                     |eapply inv_entry_distinct; try eassumption; lia])
               (list_lookup_insert_eq _ _ _ Hlt)
               (VStr (v_prev w)) x eq_refl (get_set_eq _ _ _)).
    + split; reflexivity.
    + apply differs_str_l.
      rewrite (inv_prev _ _ _ 1%nat _ _ Hinv (le_n 1) Hw Hv). exact Hx.
Qed.

Lemma remove_run h L vs i v key x out :
  ledger_inv h L vs -> vs !! i = Some v ->
  Dict.get key (entry_dict i v) = Some x ->
  remove L i key (Store h out)
  = (Ok tt, Store (<[v_entry v := Dict.del key (entry_dict i v)]> h) out).
Proof.
  intros Hinv Hv Hx. unfold remove.
  rewrite (bind_run _ _ _ _ _ (chain_at_run _ _ _ _ (inv_chain_lookup _ _ _ _ _ Hinv Hv))).
  eapply delitem_run; [apply (inv_stored _ _ _ _ _ Hinv Hv)|exact Hx].
Qed.

(** X4. A digest that was deleted is not reported as a failed check: on a
    built ledger, after [del entries[i]['hash']] or
    [del entries[i]['previous_hash']] at a position [i >= 1], and after
    [del entries[0]['hash']] when there is a second entry,
    [verify_integrity] raises [KeyError] for that key and prints
    nothing. *)
Theorem deleted_digest_raises (k : nat) (L : ValenceLedger.t) (s : store) :
  built k L s ->
  (forall i key,
      (1 <= i < length (ValenceLedger.chain L))%nat ->
      key = "hash" \/ key = "previous_hash" ->
      exists s1 s2,
        remove L i key s = (Ok tt, s1)
        /\ ValenceLedger.verify_integrity L s1 = (Raise (KeyError key), s2)
        /\ stdout s2 = stdout s1)
  /\ ((2 <= length (ValenceLedger.chain L))%nat ->
      exists s1 s2,
        remove L 0 "hash" s = (Ok tt, s1)
        /\ ValenceLedger.verify_integrity L s1 = (Raise (KeyError "hash"), s2)
        /\ stdout s2 = stdout s1).
Proof.
  intros Hb. destruct (built_inv _ _ _ Hb) as (vs & Hinv & _).
  destruct s as [h out]. cbn [objs] in *. split.
  - intros i key Hi Hkey.
    destruct (inv_view_at _ _ _ i Hinv) as (v & Hv & Hlt); [lia|].
    destruct (inv_view_at _ _ _ (i - 1) Hinv) as (u & Hu & _); [lia|].
    set (d' := Dict.del key (entry_dict i v)).
    destruct (written_entry_verify h L vs i v d' out Hinv Hv) as [g Hg]; [lia|].
    assert (Hprev : <[v_entry v := d']> h !! v_entry u = Some (entry_dict (i - 1) u)).
    { rewrite list_lookup_insert_ne; [apply (inv_stored _ _ _ _ _ Hinv Hu)|].
      eapply inv_entry_distinct; try eassumption; lia. }
    destruct Hkey as [-> | ->].
    + eexists _, _. split; [eapply remove_run; try eassumption; reflexivity|].
      fold d'. rewrite Hg.
      rewrite (step_no_hash L i _ (<[v_entry v := d']> h) g out _ _ d' (entry_dict (i - 1) u)
                 (inv_chain_lookup _ _ _ _ _ Hinv Hv) (inv_chain_lookup _ _ _ _ _ Hinv Hu)
                 (list_lookup_insert_eq _ _ _ Hlt) Hprev
                 (VStr (v_prev v)) (VStr (v_hash u)) eq_refl eq_refl
                 ltac:(rewrite (inv_prev _ _ _ _ _ _ Hinv (proj1 Hi) Hv Hu); apply differs_same)
                 eq_refl).
      split; reflexivity.
    + eexists _, _. split; [eapply remove_run; try eassumption; reflexivity|].
      fold d'. rewrite Hg.
      rewrite (step_no_previous_hash L i _ (<[v_entry v := d']> h) g out _ _ d'
                 (inv_chain_lookup _ _ _ _ _ Hinv Hv) (inv_chain_lookup _ _ _ _ _ Hinv Hu)
                 (list_lookup_insert_eq _ _ _ Hlt) eq_refl).
      split; reflexivity.
  - intros Hlen2.
    destruct (inv_view_at _ _ _ 0%nat Hinv) as (v & Hv & Hlt); [lia|].
    destruct (inv_view_at _ _ _ 1%nat Hinv) as (w & Hw & _); [lia|].
    set (d' := Dict.del "hash" (entry_dict 0 v)).
    set (h' := <[v_entry v := d']> h).
    eexists (Store h' out), _.
    split; [eapply remove_run; try eassumption; reflexivity|].
    unfold ValenceLedger.verify_integrity. fold (checked L).
    rewrite (checked_split L 1) by lia. cbn [Nat.sub seq app].
    pose proof (step_no_hash_before L 1 (seq 2 (length (ValenceLedger.chain L) - 1 - 1))
                  h' [] out _ _ (entry_dict 1 w) d'
                  (inv_chain_lookup _ _ _ _ _ Hinv Hw) (inv_chain_lookup _ _ _ _ _ Hinv Hv)) as Hstep.
    rewrite app_nil_r in Hstep.
    rewrite (Hstep
               ltac:(unfold h'; rewrite list_lookup_insert_ne;
                     [apply (inv_stored _ _ _ _ _ Hinv Hw)
                     |eapply inv_entry_distinct; try eassumption; lia])
               (list_lookup_insert_eq _ _ _ Hlt)
               (VStr (v_prev w)) eq_refl eq_refl).
    split; reflexivity.
Qed.

Lemma previous_hash_rewrite_witness :
  exists s1 s2,
    assign demo_ledger 2 "previous_hash" (VStr "0") demo_store = (Ok tt, s1)
    /\ ValenceLedger.verify_integrity demo_ledger s1 = (Ok false, s2)
    /\ stdout s2 = stdout s1 ++ [broken_line 2].
Proof.
  eapply (previous_hash_rewrite_detected 2 demo_ledger demo_store 2 (VStr "0") _ demo_built).
  - simpl. lia.
  - vm_compute. reflexivity.
  - intros E. discriminate E.
Defined.

Lemma hash_rewrite_witness :
  exists s1 s2,
    assign demo_ledger 1 "hash" (VInt 7) demo_store = (Ok tt, s1)
    /\ ValenceLedger.verify_integrity demo_ledger s1 = (Ok false, s2)
    /\ stdout s2 = stdout s1 ++ [tampered_line 1].
Proof.
  eapply (hash_rewrite_detected 2 demo_ledger demo_store 1 (VInt 7) _ demo_built).
  - simpl. lia.
  - vm_compute. reflexivity.
  - intros E. discriminate E.
Defined.

Lemma genesis_entry_rewrite_witness :
  built 2 demo_ledger demo_store
  /\ exists s1 s2,
       assign demo_ledger 0 "index" (VInt 99) demo_store = (Ok tt, s1)
       /\ ValenceLedger.verify_integrity demo_ledger s1 = (Ok true, s2)
       /\ stdout s2 = stdout s1.
Proof.
  split; [exact demo_built|].
  apply (proj1 (genesis_entry_rewrite 2 demo_ledger demo_store demo_built)).
  left. intros E. discriminate E.
Defined.

Lemma deleted_digest_witness :
  built 2 demo_ledger demo_store
  /\ exists s1 s2,
       remove demo_ledger 1 "hash" demo_store = (Ok tt, s1)
       /\ ValenceLedger.verify_integrity demo_ledger s1 = (Raise (KeyError "hash"), s2)
       /\ stdout s2 = stdout s1.
Proof.
  split; [exact demo_built|].
  apply (proj1 (deleted_digest_raises 2 demo_ledger demo_store demo_built)).
  - simpl. lia.
  - left. reflexivity.
Defined.

(** ** Appending *)

Lemma quietly_refl s : quietly_extends s s.
Proof. split; [apply extends_refl|reflexivity]. Qed.

Lemma quietly_trans s1 s2 s3 :
  quietly_extends s1 s2 -> quietly_extends s2 s3 -> quietly_extends s1 s3.
Proof.
  intros [H1 O1] [H2 O2]. split; [eapply extends_trans; eassumption|congruence].
Qed.

Lemma appends_only_ret {A} (a : A) : appends_only (ret a).
Proof. intros s. apply quietly_refl. Qed.

Lemma appends_only_raise {A} e : appends_only (@raise A e).
Proof. intros s. apply quietly_refl. Qed.

Lemma appends_only_lift {A} (o : outcome A) : appends_only (lift o).
Proof. intros s. apply quietly_refl. Qed.

Lemma appends_only_bind {A B} (c : M A) (k : A -> M B) :
  appends_only c -> (forall a, appends_only (k a)) -> appends_only (bind c k).
Proof.
  intros Hc Hk s. unfold bind. specialize (Hc s).
  destruct (c s) as [[a|e|] s']; simpl in *; [|assumption..].
  eapply quietly_trans; [exact Hc|apply Hk].
Qed.

Lemma appends_only_getitem l k : appends_only (getitem l k).
Proof.
  apply appends_only_bind.
  - intros s. unfold read. destruct (objs s !! l); apply quietly_refl.
  - intros d. destruct (Dict.get k d); [apply appends_only_ret|apply appends_only_raise].
Qed.

Lemma appends_only_chain_last L : appends_only (ValenceLedger.chain_last L).
Proof.
  unfold ValenceLedger.chain_last.
  destruct (last _); [apply appends_only_ret|apply appends_only_raise].
Qed.

Lemma appends_only_new_dict d : appends_only (new_dict d).
Proof. intros [h out]. split; [eexists; reflexivity|reflexivity]. Qed.

(** A new object is made, hashed, and given its hash: the one write goes
    to the object just made. *)
Lemma appends_only_new_entry {B} d (rest : loc -> M B) :
  (forall e, appends_only (rest e)) ->
  appends_only (e <- new_dict d ;;
                hh <- ValenceLedger._hash_entry e ;;
                setitem e "hash" (VStr hh) ;;
                rest e).
Proof.
  intros Hrest [h out].
  unfold bind at 1, new_dict. cbn [objs stdout].
  unfold bind at 1. rewrite hash_entry_run.
  destruct (digest_of _) as [hh| |]; cbn [snd];
    try (split; [eexists; reflexivity|reflexivity]).
  erewrite bind_run by (eapply setitem_run; apply lookup_last).
  rewrite insert_last.
  eapply quietly_trans; [|apply Hrest].
  split; [eexists; reflexivity|reflexivity].
Qed.

Lemma appends_only_log_event L point : appends_only (ValenceLedger.log_event L point).
Proof.
  unfold ValenceLedger.log_event.
  apply appends_only_bind; [apply appends_only_chain_last|intros last_entry].
  apply appends_only_bind; [apply appends_only_getitem|intros previous_hash].
  apply appends_only_bind; [apply appends_only_new_dict|intros point_data].
  apply appends_only_new_entry. intros e. apply appends_only_ret.
Qed.

Lemma appends_only_genesis now L :
  appends_only (ValenceLedger._create_genesis_block now L).
Proof.
  unfold ValenceLedger._create_genesis_block.
  apply appends_only_bind; [apply appends_only_lift|intros genesis_point].
  apply appends_only_bind; [apply appends_only_new_dict|intros point_data].
  apply appends_only_new_entry. intros e. apply appends_only_ret.
Qed.

(** X5. The ledger is append-only in the store: whatever [log_event] or
    the constructor return, from any store and for any ledger (also one
    that was tampered with), every dict object that existed before is
    unchanged afterwards and nothing is printed. *)
Theorem append_changes_no_object
    (now : pyfloat) (L : ValenceLedger.t) (point : InteractionPoint.t) (s : store) :
  (stdout (snd (ValenceLedger.log_event L point s)) = stdout s
   /\ forall l d, objs s !! l = Some d ->
                  objs (snd (ValenceLedger.log_event L point s)) !! l = Some d)
  /\ (stdout (snd (ValenceLedger._create_genesis_block now L s)) = stdout s
      /\ forall l d, objs s !! l = Some d ->
                     objs (snd (ValenceLedger._create_genesis_block now L s)) !! l = Some d).
Proof.
  split.
  - destruct (appends_only_log_event L point s) as [He Ho].
    split; [exact Ho|]. intros l d. apply extends_lookup, He.
  - destruct (appends_only_genesis now L s) as [He Ho].
    split; [exact Ho|]. intros l d. apply extends_lookup, He.
Qed.

Lemma shallow_S n : forall v, shallow n v = true -> shallow (S n) v = true.
Proof.
  induction n as [|n IH]; intros v; destruct v as [x|x|x|items|items|l];
    try reflexivity; try discriminate.
  - cbn [shallow]. rewrite !forallb_forall. intros H x Hx. apply IH, H, Hx.
  - cbn [shallow]. rewrite !forallb_forall. intros H x Hx. apply IH, H, Hx.
Qed.

(** The text of an entry whose previous hash is any printable value. *)
Lemma content_string_entry_plain h i p d prev :
  h !! p = Some d -> writable d = true -> Json.digits_ok (Z.of_nat i) = true ->
  printable prev = true ->
  exists t, content_string h (entry_fields i p prev) = Ok t.
Proof.
  intros Hp Hd Hi Hprev. destruct (writable_parts d Hd) as (Hd1 & Hd2 & Hd3).
  apply andb_true_iff in Hprev as [Hprev Hp3]. apply andb_true_iff in Hprev as [Hp1 Hp2].
  unfold content_string. rewrite pred_max_depth.
  change (Json.sort_items (entry_fields i p prev)) with (entry_fields i p prev).
  unfold entry_fields. cbn [map]. unfold Json.item. cbn [fst snd].
  rewrite (encode_unfold _ _ _ (VInt _)), (encode_unfold _ _ _ (VDict _)).
  cbn [Json.mem]. rewrite Hp.
  rewrite items_plain by assumption.
  rewrite (encode_plain _ _ _ prev Hp1 (shallow_S _ _ Hp2) Hp3).
  unfold Json.int_text. rewrite Hi. eexists. reflexivity.
Qed.

(** X6. [log_event] takes the hash of the newest entry as it finds it and
    checks nothing: on an empty chain it raises [IndexError], on a newest
    entry without a hash field [KeyError], in both cases before anything
    is written; when the newest entry has a hash field holding any value
    that [json.dumps] can write and the point can be logged, it succeeds,
    in any store, and the new entry carries that value as its previous
    hash. *)
Theorem log_event_reads_the_tip_only
    (L : ValenceLedger.t) (point : InteractionPoint.t) (s : store) :
  (ValenceLedger.chain L = [] ->
   ValenceLedger.log_event L point s
   = (Raise (IndexError "list index out of range"), s))
  /\ (forall e d,
        last (ValenceLedger.chain L) = Some e -> objs s !! e = Some d ->
        Dict.get "hash" d = None ->
        ValenceLedger.log_event L point s = (Raise (KeyError "hash"), s))
  /\ (forall e d v,
        last (ValenceLedger.chain L) = Some e -> objs s !! e = Some d ->
        Dict.get "hash" d = Some v -> printable v = true ->
        loggable (length (ValenceLedger.chain L)) point = true ->
        exists e' s',
          ValenceLedger.log_event L point s
          = (Ok (e', ValenceLedger.Ledger (ValenceLedger.chain L ++ [e'])), s')
          /\ entry_field (objs s') (ValenceLedger.Ledger (ValenceLedger.chain L ++ [e']))
               (length (ValenceLedger.chain L)) "previous_hash" = Some v).
Proof.
  destruct s as [h out]. cbn [objs]. split; [|split].
  - intros Hc. unfold ValenceLedger.log_event, ValenceLedger.chain_last.
    rewrite Hc. reflexivity.
  - intros e d Hl Hd Hk. unfold ValenceLedger.log_event, ValenceLedger.chain_last.
    rewrite Hl. unfold bind at 1, ret at 1.
    unfold bind at 1, getitem.
    rewrite (bind_run _ _ _ _ _ (read_run _ _ _ _ Hd)), Hk. reflexivity.
  - intros e d v Hl Hd Hk Hv Hlog.
    unfold ValenceLedger.log_event, ValenceLedger.chain_last.
    rewrite Hl. unfold bind at 1, ret at 1.
    rewrite (bind_run _ _ _ _ _ (getitem_run _ _ _ _ _ _ Hd Hk)).
    unfold InteractionPoint.to_dict, new_dict, bind at 1 2. cbn [objs stdout].
    unfold bind at 1. rewrite hash_entry_run.
    rewrite length_app. cbn [length]. rewrite Nat.add_1_r.
    set (n := length (ValenceLedger.chain L)) in *.
    change [("index", VInt (Z.of_nat n)); ("point_data", VDict (length h));
            ("previous_hash", v)]
      with (entry_fields n (length h) v).
    destruct (content_string_entry_plain (h ++ [InteractionPoint.fields point]) n
                (length h) _ v (lookup_last _ _) (fields_writable _ _ Hlog)
                (proj1 (proj1 (andb_true_iff _ _) Hlog)) Hv) as [t Ht].
    replace (S (length h)) with (length (h ++ [InteractionPoint.fields point]))
      by (rewrite length_app; simpl; lia).
    rewrite dumps_fresh0 by (rewrite Ht; discriminate).
    rewrite Ht. cbn [digest_of].
    erewrite bind_run by (eapply setitem_run; apply lookup_last).
    rewrite insert_last.
    eexists _, _. split; [reflexivity|].
    unfold entry_field, entry_at. cbn [ValenceLedger.chain objs].
    subst n. rewrite lookup_last, lookup_last. reflexivity.
Qed.

Lemma log_event_tip_witness :
  ValenceLedger.log_event (ValenceLedger.Ledger []) calm (Store [] [])
  = (Raise (IndexError "list index out of range"), Store [] [])
  /\ exists e' s',
       ValenceLedger.log_event demo_ledger calm demo_store
       = (Ok (e', ValenceLedger.Ledger (ValenceLedger.chain demo_ledger ++ [e'])), s')
       /\ entry_field (objs s')
            (ValenceLedger.Ledger (ValenceLedger.chain demo_ledger ++ [e'])) 3 "previous_hash"
          = entry_field (objs demo_store) demo_ledger 2 "hash".
Proof.
  split.
  - apply (log_event_reads_the_tip_only (ValenceLedger.Ledger []) calm (Store [] [])).
    reflexivity.
  - destruct (log_event_reads_the_tip_only demo_ledger calm demo_store) as (_ & _ & H).
    destruct (H 5%nat _ _ eq_refl eq_refl eq_refl) as (e' & s' & Hrun & Hprev);
      [vm_compute; reflexivity|reflexivity|].
    exists e', s'. split; [exact Hrun|].
    change 3%nat with (length (ValenceLedger.chain demo_ledger)).
    rewrite Hprev. reflexivity.
Defined.

Lemma inv_point_data_at h L vs i v :
  ledger_inv h L vs -> vs !! i = Some v ->
  point_data_at h L i = Some (InteractionPoint.fields (v_point v)).
Proof.
  intros Hinv Hv. unfold point_data_at.
  rewrite (inv_entry_at _ _ _ _ _ Hinv Hv).
  change (Dict.get "point_data" (entry_fields i (v_data v) (VStr (v_prev v))
                                 ++ [("hash", VStr (v_hash v))]))
    with (Some (VDict (v_data v))).
  cbv iota beta. apply (inv_stored _ _ _ _ _ Hinv Hv).
Qed.

(** X7. What is logged is what is stored: on a built ledger [log_event]
    of a point that can be logged (its numbers and the index have at most
    4300 digits) succeeds, the point data of the new entry are the fields
    of the point as [to_dict] gives them, its previous hash is the hash of
    the entry that was newest before, and every earlier entry and its
    point data read as before. *)
Theorem logged_point_is_stored
    (k : nat) (L : ValenceLedger.t) (s : store) (point : InteractionPoint.t) :
  built k L s ->
  loggable (length (ValenceLedger.chain L)) point = true ->
  exists e s',
    let L' := ValenceLedger.Ledger (ValenceLedger.chain L ++ [e]) in
    let n := length (ValenceLedger.chain L) in
    ValenceLedger.log_event L point s = (Ok (e, L'), s')
    /\ point_data_at (objs s') L' n = Some (InteractionPoint.fields point)
    /\ entry_field (objs s') L' n "previous_hash"
       = entry_field (objs s) L (n - 1) "hash"
    /\ forall i, (i < n)%nat ->
         entry_at (objs s') L' i = entry_at (objs s) L i
         /\ point_data_at (objs s') L' i = point_data_at (objs s) L i.
Proof.
  intros Hb Hlog. destruct (built_inv _ _ _ Hb) as (vs & Hinv & _).
  destruct s as [h out]. cbn [objs] in *.
  rewrite (inv_length _ _ _ Hinv) in Hlog.
  destruct (log_event_inv h L vs point out Hinv Hlog)
    as (e & s' & v & Hrun & _ & _ & Hve & Hvp & Hinv').
  exists e, s'. cbv zeta. split; [exact Hrun|].
  rewrite (inv_length _ _ _ Hinv).
  assert (Hv : (vs ++ [v]) !! length vs = Some v) by apply lookup_last.
  split; [|split].
  - rewrite (inv_point_data_at _ _ _ _ _ Hinv' Hv), Hvp. reflexivity.
  - destruct (lookup_lt_is_Some_2 vs (length vs - 1)) as [u Hu].
    { destruct Hinv as (_ & Hne & _). destruct vs; [contradiction|simpl; lia]. }
    rewrite (inv_entry_field _ _ _ _ _ _ Hinv' Hv), (inv_entry_field _ _ _ _ _ _ Hinv Hu).
    change (Some (VStr (v_prev v)) = Some (VStr (v_hash u))).
    rewrite (inv_prev _ _ _ (length vs) v u Hinv'); [reflexivity| |exact Hv|].
    + destruct Hinv as (_ & Hne & _). destruct vs; [contradiction|simpl; lia].
    + rewrite lookup_app_l; [exact Hu|].
      destruct Hinv as (_ & Hne & _). destruct vs; [contradiction|simpl; lia].
  - intros i Hi. destruct (lookup_lt_is_Some_2 vs i Hi) as [w Hw].
    assert (Hw' : (vs ++ [v]) !! i = Some w) by (rewrite lookup_app_l; assumption).
    rewrite (inv_entry_at _ _ _ _ _ Hinv' Hw'), (inv_entry_at _ _ _ _ _ Hinv Hw).
    rewrite (inv_point_data_at _ _ _ _ _ Hinv' Hw'), (inv_point_data_at _ _ _ _ _ Hinv Hw).
    split; reflexivity.
Qed.

Lemma logged_point_witness :
  loggable 3 calm = true
  /\ exists e s',
    ValenceLedger.log_event demo_ledger calm demo_store
    = (Ok (e, ValenceLedger.Ledger (ValenceLedger.chain demo_ledger ++ [e])), s')
    /\ point_data_at (objs s') (ValenceLedger.Ledger (ValenceLedger.chain demo_ledger ++ [e])) 3
       = Some (InteractionPoint.fields calm).
Proof.
  split; [reflexivity|].
  destruct (logged_point_is_stored 2 demo_ledger demo_store calm demo_built eq_refl)
    as (e & s' & Hrun & Hdata & _).
  exists e, s'. split; [exact Hrun|exact Hdata].
Defined.

(** X8. The entries of a built ledger share no point data, also when one
    point was logged more than once: an assignment in the point data of
    the entry at [i] shows in that entry and leaves the point data of
    every other entry, and every entry object, reading as before. *)
Theorem point_data_is_not_shared
    (k : nat) (L : ValenceLedger.t) (s : store) (i : nat) (key : string) (value : val) :
  built k L s ->
  (i < length (ValenceLedger.chain L))%nat ->
  exists s1,
    tamper L i key value s = (Ok tt, s1)
    /\ point_field (objs s1) L i key = Some value
    /\ (forall j, j <> i -> point_data_at (objs s1) L j = point_data_at (objs s) L j)
    /\ (forall j, entry_at (objs s1) L j = entry_at (objs s) L j).
Proof.
  intros Hb Hi. destruct (built_inv _ _ _ Hb) as (vs & Hinv & _).
  destruct s as [h out]. cbn [objs] in *.
  destruct (inv_view_at _ _ _ i Hinv Hi) as (v & Hv & _).
  set (d' := Dict.set key value (InteractionPoint.fields (v_point v))).
  assert (Hse := tamper_same_entries h L vs i v d' Hinv Hv).
  eexists. split; [eapply tamper_run; eassumption|]. cbn [objs]. fold d'.
  split; [eapply tamper_point_field; eassumption|]. split.
  - intros j Hj. unfold point_data_at. rewrite (same_entry_at _ _ _ _ Hse).
    destruct (entry_at h L j) as [d|] eqn:Ed; [|reflexivity].
    destruct (Dict.get "point_data" d) as [[| | | | |p]|] eqn:Ep; try reflexivity.
    apply list_lookup_insert_ne. intros E. subst p.
    unfold entry_at in Ed.
    destruct (ValenceLedger.chain L !! j) as [e|] eqn:Ee; [|discriminate].
    assert (Hjl : (j < length vs)%nat).
    { rewrite <- (inv_length _ _ _ Hinv). eapply lookup_lt_Some; eassumption. }
    destruct (lookup_lt_is_Some_2 vs j Hjl) as [w Hw].
    rewrite (inv_chain_lookup _ _ _ _ _ Hinv Hw) in Ee. injection Ee as <-.
    rewrite (proj1 (inv_stored _ _ _ _ _ Hinv Hw)) in Ed. injection Ed as <-.
    injection Ep as Ep.
    apply (inv_data_distinct _ _ _ _ _ _ _ Hinv Hv Hw); [congruence|symmetry; exact Ep].
  - intros j. apply same_entry_at, Hse.
Qed.

Lemma point_data_not_shared_witness :
  exists s1,
    tamper demo_ledger 1 "description" happy demo_store = (Ok tt, s1)
    /\ point_data_at (objs s1) demo_ledger 2 = point_data_at (objs demo_store) demo_ledger 2.
Proof.
  destruct (point_data_is_not_shared 2 demo_ledger demo_store 1 "description" happy demo_built)
    as (s1 & Hrun & _ & Hother & _).
  - simpl. lia.
  - exists s1. split; [exact Hrun|]. apply Hother. lia.
Defined.

(** X9. Verification can be repeated: on a ledger of entry objects a
    second [verify_integrity] returns the same verdict as the first and
    prints the same line again (or nothing again). *)
Theorem verification_repeats (L : ValenceLedger.t) (s : store) :
  entries_typed (objs s) L = true ->
  exists b line s1 s2,
    ValenceLedger.verify_integrity L s = (Ok b, s1)
    /\ ValenceLedger.verify_integrity L s1 = (Ok b, s2)
    /\ stdout s1 = stdout s ++ line
    /\ stdout s2 = stdout s1 ++ line.
Proof.
  intros Ht. destruct s as [h out]. cbn [objs] in *.
  destruct (verify_from_typed L h Ht (checked L) (checked_range L) [] out) as [g1 H1].
  rewrite app_nil_r in H1.
  destruct (verify_from_typed L h Ht (checked L) (checked_range L) g1
              (out ++ report (first_violation h L (checked L)))) as [g2 H2].
  eexists _, _, _, _. split; [exact H1|]. split; [exact H2|]. split; reflexivity.
Qed.

Lemma verification_repeats_witness :
  exists b line s1 s2,
    ValenceLedger.verify_integrity demo_ledger demo_store = (Ok b, s1)
    /\ ValenceLedger.verify_integrity demo_ledger s1 = (Ok b, s2)
    /\ stdout s1 = stdout demo_store ++ line
    /\ stdout s2 = stdout s1 ++ line.
Proof. exact (verification_repeats demo_ledger demo_store demo_typed). Defined.

(** ** The scorer, keyword by keyword *)

Lemma count_from_nonneg w k s : 0 <= PyStr.count_from w k s.
Proof.
  revert k. induction s as [|c r IH]; intros k; simpl; [lia|].
  destruct k as [|k]; [|apply IH].
  destruct (PyStr.startswith w (String c r)).
  - specialize (IH (Nat.pred (String.length w))). lia.
  - apply IH.
Qed.

Lemma count_from_contains w k s :
  0 < PyStr.count_from w k s -> PyStr.contains w s = true.
Proof.
  revert k. induction s as [|c r IH]; intros k; simpl; [lia|].
  destruct k as [|k].
  - destruct (PyStr.startswith w (String c r)); [reflexivity|].
    intros H. simpl. eapply IH, H.
  - intros H. rewrite (IH _ H). apply orb_true_r.
Qed.

Lemma contains_count w s :
  PyStr.contains w s = true -> 0 < PyStr.count s w.
Proof.
  unfold PyStr.count. induction s as [|c r IH]; simpl; [discriminate|].
  destruct (PyStr.startswith w (String c r)); simpl.
  - intros _. pose proof (count_from_nonneg w (Nat.pred (String.length w)) r). lia.
  - exact IH.
Qed.

Lemma fold_add_shift l a : fold_left Z.add l a = a + fold_left Z.add l 0.
Proof.
  revert a. induction l as [|x r IH]; intros a; simpl; [lia|].
  rewrite (IH (a + x)). first [rewrite (IH (0 + x))|rewrite (IH x)]. lia.
Qed.

Lemma count_all_cons t w ws :
  count_all t (w :: ws) = PyStr.count t w + count_all t ws.
Proof. unfold count_all. simpl. apply fold_add_shift. Qed.

Lemma count_all_nonneg t ws : 0 <= count_all t ws.
Proof.
  induction ws as [|w ws IH]; [unfold count_all; simpl; lia|].
  rewrite count_all_cons. pose proof (count_from_nonneg w 0 t).
  unfold PyStr.count. lia.
Qed.

Lemma count_all_zero t ws :
  count_all t ws = 0 <-> existsb (fun w => PyStr.contains w t) ws = false.
Proof.
  induction ws as [|w ws IH]; [unfold count_all; simpl; tauto|].
  rewrite count_all_cons. simpl.
  pose proof (count_all_nonneg t ws) as Hn.
  pose proof (count_from_nonneg w 0 t) as Hc. fold (PyStr.count t w) in Hc.
  rewrite orb_false_iff, <- IH. split.
  - intros H. split; [|lia].
    destruct (PyStr.contains w t) eqn:E; [|reflexivity].
    apply contains_count in E. lia.
  - intros [Hw Hr]. rewrite Hr.
    destruct (Z.eq_dec (PyStr.count t w) 0) as [->|Hne]; [reflexivity|].
    assert (Hp : 0 < PyStr.count t w) by lia.
    apply count_from_contains in Hp. congruence.
Qed.

Lemma analyze_text_run now text :
  analyze_text now text
  = Ok (InteractionPoint.Point now
          (Z.min 100 (5 + 20 * occurrences text arousal_words))
          (10 * Z.max (-5) (Z.min 5 (occurrences text positive_words
                                     - occurrences text negative_words)))
          (if PyStr.contains "everyone" (PyStr.lower text)
              || PyStr.contains "all users" (PyStr.lower text) then 1000 else 1)
          ("Text analysis result for: '" ++ PyStr.take 30 text ++ "...'")%string
          text
          (Z.min 100 (5 + 20 * occurrences text arousal_words),
           10 * Z.max (-5) (Z.min 5 (occurrences text positive_words
                                     - occurrences text negative_words)),
           if PyStr.contains "everyone" (PyStr.lower text)
              || PyStr.contains "all users" (PyStr.lower text) then 1000 else 1)).
Proof.
  unfold analyze_text, occurrences.
  pose proof (count_all_nonneg (PyStr.lower text) arousal_words) as Ha.
  set (a := count_all _ arousal_words) in *.
  set (p := count_all _ positive_words).
  set (n := count_all _ negative_words).
  set (scope := if _ : bool then 1000 else 1).
  replace (Z.max 0 (Z.min 100 (a * 20 + 5))) with (Z.min 100 (5 + 20 * a)) by lia.
  replace (Z.max (-50) (Z.min 50 (p * 10 - n * 10)))
    with (10 * Z.max (-5) (Z.min 5 (p - n))) by lia.
  apply init_in_range. unfold in_range.
  assert (1 <= scope) by (subst scope; destruct (_ || _); lia).
  lia.
Qed.

(** X10. The scores come in steps: on every text the scorer returns a
    point whose arousal is 5 plus 20 for each occurrence of an arousal
    word, capped at 100, so it is one of 5, 25, 45, 65, 85 and 100 and
    never 0; whose valence is ten times the difference of the positive
    and negative occurrences, kept within -5..5; and whose impact scope is
    1 or 1000. *)
Theorem scores_come_in_steps (now : pyfloat) (text : string) :
  exists p, analyze_text now text = Ok p
    /\ InteractionPoint.arousal p = Z.min 100 (5 + 20 * occurrences text arousal_words)
    /\ In (InteractionPoint.arousal p) [5; 25; 45; 65; 85; 100]
    /\ InteractionPoint.valence p
       = 10 * Z.max (-5) (Z.min 5 (occurrences text positive_words
                                   - occurrences text negative_words))
    /\ In (InteractionPoint.impact_scope p) [1; 1000]
    /\ InteractionPoint.coordinates p
       = (InteractionPoint.arousal p, InteractionPoint.valence p,
          InteractionPoint.impact_scope p).
Proof.
  eexists. split; [apply analyze_text_run|].
  cbn [InteractionPoint.arousal InteractionPoint.valence InteractionPoint.impact_scope InteractionPoint.coordinates InteractionPoint.source_text In].
  split; [reflexivity|]. split; [|split; [reflexivity|split; [|reflexivity]]].
  - pose proof (count_all_nonneg (PyStr.lower text) arousal_words) as Ha.
    unfold occurrences. revert Ha.
    generalize (count_all (PyStr.lower text) arousal_words). intros a Ha.
    assert (Hc : a = 0 \/ a = 1 \/ a = 2 \/ a = 3 \/ a = 4 \/ 5 <= a) by lia.
    destruct Hc as [->|[->|[->|[->|[->|Hc]]]]]; try (cbn; tauto).
    replace (Z.min 100 (5 + 20 * a)) with 100 by lia. tauto.
  - destruct (_ || _); tauto.
Qed.

(** X11. Only keywords move the scores: the arousal is the base value 5
    exactly when no arousal word occurs in the lower-cased text, a
    positive valence needs a positive word, a negative valence a negative
    word, and the scope is 1000 exactly when the text names everyone or
    all users. *)
Theorem only_keywords_move_the_scores (now : pyfloat) (text : string) :
  exists p, analyze_text now text = Ok p
    /\ (InteractionPoint.arousal p = 5 <-> mentions text arousal_words = false)
    /\ (0 < InteractionPoint.valence p -> mentions text positive_words = true)
    /\ (InteractionPoint.valence p < 0 -> mentions text negative_words = true)
    /\ (InteractionPoint.impact_scope p = 1000
        <-> mentions text ["everyone"; "all users"] = true).
Proof.
  eexists. split; [apply analyze_text_run|].
  cbn [InteractionPoint.arousal InteractionPoint.valence InteractionPoint.impact_scope InteractionPoint.coordinates InteractionPoint.source_text In].
  unfold occurrences, mentions.
  pose proof (count_all_nonneg (PyStr.lower text) arousal_words) as Ha.
  pose proof (count_all_nonneg (PyStr.lower text) positive_words) as Hp.
  pose proof (count_all_nonneg (PyStr.lower text) negative_words) as Hn.
  split; [|split; [|split]].
  - rewrite <- count_all_zero. lia.
  - intros H. destruct (existsb _ positive_words) eqn:E; [reflexivity|].
    apply count_all_zero in E. lia.
  - intros H. destruct (existsb _ negative_words) eqn:E; [reflexivity|].
    apply count_all_zero in E. lia.
  - cbn [existsb]. rewrite orb_false_r. destruct (_ || _); split; intros H; try reflexivity; discriminate.
Qed.

Lemma lower_char_idem c : PyStr.lower_char (PyStr.lower_char c) = PyStr.lower_char c.
Proof.
  destruct c as [[] [] [] [] [] [] [] []]; vm_compute; reflexivity.
Qed.

Lemma lower_idem s : PyStr.lower (PyStr.lower s) = PyStr.lower s.
Proof.
  induction s as [|c r IH]; simpl; [reflexivity|].
  rewrite lower_char_idem, IH. reflexivity.
Qed.

(** X12. The scorer does not look at the case of letters: the text and
    its lower-cased form get the same arousal, valence and impact
    scope. *)
Theorem scores_ignore_case (now : pyfloat) (text : string) :
  exists p q,
    analyze_text now text = Ok p
    /\ analyze_text now (PyStr.lower text) = Ok q
    /\ InteractionPoint.coordinates q = InteractionPoint.coordinates p
    /\ InteractionPoint.source_text p = text
    /\ InteractionPoint.source_text q = PyStr.lower text.
Proof.
  eexists _, _. split; [apply analyze_text_run|]. split; [apply analyze_text_run|].
  cbn [InteractionPoint.arousal InteractionPoint.valence InteractionPoint.impact_scope InteractionPoint.coordinates InteractionPoint.source_text In].
  unfold occurrences. rewrite lower_idem. repeat split.
Qed.

(** ** The format of the digests *)

Lemma be_bytes_length n x : length (Sha256.be_bytes n x) = n.
Proof. induction n as [|n IH]; simpl; [reflexivity|]. rewrite IH. reflexivity. Qed.

Lemma be_bytes_range n x : Forall (fun b => 0 <= b < 256) (Sha256.be_bytes n x).
Proof.
  induction n as [|n IH]; simpl; constructor; [|exact IH].
  change 255 with (Z.ones 8). rewrite Z.land_ones by lia.
  apply Z.mod_pos_bound. lia.
Qed.

Lemma digest_bytes msg :
  length (Sha256.digest msg) = 32%nat
  /\ Forall (fun b => 0 <= b < 256) (Sha256.digest msg).
Proof.
  unfold Sha256.digest.
  destruct (Sha256.blocks _ _ _) as [[[[[[[a b] c] d] e] f] g] hh].
  cbn [map concat]. split.
  - rewrite !length_app, !be_bytes_length. reflexivity.
  - repeat (apply Forall_app; split); try apply be_bytes_range. constructor.
Qed.

Lemma hex_digit_alphabet n :
  0 <= n < 16 -> existsb (Ascii.eqb (Sha256.hex_digit n)) hex_alphabet = true.
Proof.
  intros H.
  assert (Hall : forallb (fun m => existsb (Ascii.eqb (Sha256.hex_digit (Z.of_nat m)))
                                     hex_alphabet) (seq 0 16) = true)
    by (vm_compute; reflexivity).
  rewrite forallb_forall in Hall.
  rewrite <- (Z2Nat.id n) by lia. apply Hall, in_seq. lia.
Qed.

Lemma hex_of_bytes_format bs :
  Forall (fun b => 0 <= b < 256) bs ->
  String.length (Sha256.hex_of_bytes bs) = (2 * length bs)%nat
  /\ forallb (fun c => existsb (Ascii.eqb c) hex_alphabet)
       (list_ascii_of_string (Sha256.hex_of_bytes bs)) = true.
Proof.
  induction 1 as [|b r Hb _ [IHl IHf]]; [split; reflexivity|].
  cbn [Sha256.hex_of_bytes String.length list_ascii_of_string forallb length].
  split; [rewrite IHl; lia|].
  rewrite IHf, !hex_digit_alphabet; [reflexivity| |].
  - change 15 with (Z.ones 4). rewrite Z.land_ones by lia.
    apply Z.mod_pos_bound. lia.
  - rewrite Z.shiftr_div_pow2 by lia. change (2 ^ 4) with 16.
    split; [apply Z.div_pos; lia|apply Z.div_lt_upper_bound; lia].
Qed.

Lemma hexdigest_is_digest msg : is_digest (Sha256.hexdigest msg) = true.
Proof.
  unfold is_digest, Sha256.hexdigest.
  destruct (digest_bytes msg) as [Hl Hr].
  destruct (hex_of_bytes_format _ Hr) as [Hl' Hf].
  rewrite Hl', Hl, Hf. reflexivity.
Qed.

(** X13. [_hash_entry] never changes the store, whatever its outcome, and
    a string it returns is a SHA-256 hex digest in form: 64 characters,
    each one of [0-9a-f]. *)
Theorem hash_entry_gives_a_digest (entry_data : loc) (s : store) :
  snd (ValenceLedger._hash_entry entry_data s) = s
  /\ forall h, fst (ValenceLedger._hash_entry entry_data s) = Ok h -> is_digest h = true.
Proof.
  destruct s as [objects out]. rewrite hash_entry_run. split; [reflexivity|].
  cbn [fst]. intros h. unfold digest_of.
  destruct (Json.dumps objects (VDict entry_data)); try discriminate.
  intros [= <-]. apply hexdigest_is_digest.
Qed.

(** X14. In a built ledger every entry holds digests: the [hash] field of
    each entry is a [str] of 64 lower-case hexadecimal digits, and so is
    the [previous_hash] field of each entry after the first; the genesis
    entry holds the one-character sentinel, which no stored hash
    equals. *)
Theorem stored_hashes_are_digests
    (k : nat) (L : ValenceLedger.t) (s : store) (i : nat) :
  built k L s ->
  (i < length (ValenceLedger.chain L))%nat ->
  exists h p,
    entry_field (objs s) L i "hash" = Some (VStr h)
    /\ entry_field (objs s) L i "previous_hash" = Some (VStr p)
    /\ is_digest h = true
    /\ h <> "0"
    /\ (i = 0%nat -> p = "0")
    /\ ((1 <= i)%nat -> is_digest p = true).
Proof.
  intros Hb Hi. destruct (built_inv _ _ _ Hb) as (vs & Hinv & _).
  destruct (inv_view_at _ _ _ i Hinv Hi) as (v & Hv & _).
  assert (Hd : forall j u, vs !! j = Some u -> is_digest (v_hash u) = true).
  { intros j u Hu. destruct Hinv as (_ & _ & _ & Hall).
    destruct (Hall j u Hu) as [(_ & _ & -> & _) _]. apply hexdigest_is_digest. }
  exists (v_hash v), (v_prev v).
  rewrite !(inv_entry_field _ _ _ _ _ _ Hinv Hv).
  split; [reflexivity|]. split; [reflexivity|].
  split; [eapply Hd; eassumption|].
  split; [intros E; specialize (Hd _ _ Hv); rewrite E in Hd; discriminate|].
  destruct Hinv as (_ & _ & _ & Hall). destruct (Hall i v Hv) as [_ Hp].
  split.
  - intros ->. exact Hp.
  - intros H1. destruct i as [|j]; [lia|]. rewrite Hp. simpl.
    destruct (lookup_lt_is_Some_2 vs j) as [u Hu].
    { apply lookup_lt_Some in Hv. lia. }
    rewrite Hu. eapply Hd; eassumption.
Qed.

Lemma stored_hashes_witness :
  exists h p,
    entry_field (objs demo_store) demo_ledger 2 "hash" = Some (VStr h)
    /\ entry_field (objs demo_store) demo_ledger 2 "previous_hash" = Some (VStr p)
    /\ is_digest h = true /\ is_digest p = true.
Proof.
  destruct (stored_hashes_are_digests 2 demo_ledger demo_store 2 demo_built)
    as (h & p & Hh & Hp & Hd & _ & _ & Hpd).
  - simpl. lia.
  - exists h, p. repeat split; try assumption. apply Hpd. lia.
Defined.

(** ** The hash does not depend on the order of the keys *)

Lemma compare_trans_le a b c :
  String.compare a b <> Gt -> String.compare b c <> Gt -> String.compare a c <> Gt.
Proof.
  revert b c. induction a as [|x a IH]; intros [|y b] [|z c]; cbn [String.compare];
    try congruence.
  unfold Ascii.compare.
  destruct (N.compare_spec (N_of_ascii x) (N_of_ascii y)) as [Exy|Lxy|Gxy];
    destruct (N.compare_spec (N_of_ascii y) (N_of_ascii z)) as [Eyz|Lyz|Gyz];
    destruct (N.compare_spec (N_of_ascii x) (N_of_ascii z)) as [Exz|Lxz|Gxz];
    try congruence; try lia.
  apply IH.
Qed.

Lemma leb_trans a b c :
  String.leb a b = true -> String.leb b c = true -> String.leb a c = true.
Proof.
  unfold String.leb. intros Hab Hbc.
  pose proof (compare_trans_le a b c) as H.
  destruct (String.compare a b), (String.compare b c), (String.compare a c);
    try reflexivity; try discriminate; exfalso; apply H; congruence.
Qed.

Lemma insert_item_perm kv l : Permutation (Json.insert_item kv l) (kv :: l).
Proof.
  induction l as [|x r IH]; simpl; [reflexivity|].
  destruct (String.leb (fst kv) (fst x)); [reflexivity|].
  rewrite IH. apply perm_swap.
Qed.

Lemma sort_items_perm d : Permutation (Json.sort_items d) d.
Proof.
  induction d as [|kv r IH]; simpl; [reflexivity|].
  rewrite insert_item_perm, IH. reflexivity.
Qed.

Lemma insert_item_ordered kv l : ordered l -> ordered (Json.insert_item kv l).
Proof.
  induction l as [|x r IH]; simpl; [intros _; split; [constructor|exact I]|].
  intros [Hx Hr]. destruct (String.leb (fst kv) (fst x)) eqn:E.
  - split; [|split; assumption]. constructor; [exact E|].
    eapply Forall_impl; [exact Hx|]. intros y Hy. unfold key_le in *.
    eapply leb_trans; eassumption.
  - split; [|apply IH, Hr].
    rewrite insert_item_perm. constructor; [|exact Hx].
    unfold key_le. destruct (String.leb_total (fst kv) (fst x)); congruence.
Qed.

Lemma sort_items_ordered d : ordered (Json.sort_items d).
Proof.
  induction d as [|kv r IH]; simpl; [exact I|]. apply insert_item_ordered, IH.
Qed.

Lemma same_key_same_item (l : dict) kv kv' :
  NoDup (map fst l) -> In kv l -> In kv' l -> fst kv = fst kv' -> kv = kv'.
Proof.
  induction l as [|x r IH]; simpl; [contradiction|].
  intros Hnd [->|Hin] [->|Hin'] Hk; [reflexivity| | |].
  - apply NoDup_cons in Hnd as [Hx _]. exfalso. apply Hx.
    rewrite Hk. apply list_elem_of_In, in_map, Hin'.
  - apply NoDup_cons in Hnd as [Hx _]. exfalso. apply Hx.
    rewrite <- Hk. apply list_elem_of_In, in_map, Hin.
  - apply NoDup_cons in Hnd as [_ Hr]. apply IH; assumption.
Qed.

Lemma ordered_unique (l1 l2 : dict) :
  ordered l1 -> ordered l2 -> Permutation l1 l2 -> NoDup (map fst l1) -> l1 = l2.
Proof.
  revert l2. induction l1 as [|x r1 IH]; intros l2 H1 H2 Hp Hnd.
  - apply Permutation_nil in Hp. congruence.
  - destruct l2 as [|y r2]; [symmetry in Hp; apply Permutation_nil_cons in Hp; contradiction|].
    assert (Exy : x = y).
    { apply (same_key_same_item (x :: r1)); [exact Hnd|left; reflexivity| |].
      - eapply Permutation_in; [symmetry; exact Hp|left; reflexivity].
      - assert (Hx : In x (y :: r2)) by (eapply Permutation_in; [exact Hp|left; reflexivity]).
        assert (Hy : In y (x :: r1))
          by (eapply Permutation_in; [symmetry; exact Hp|left; reflexivity]).
        destruct Hx as [->|Hx]; [reflexivity|].
        destruct Hy as [->|Hy]; [reflexivity|].
        destruct H1 as [H1 _], H2 as [H2 _].
        rewrite List.Forall_forall in H1, H2.
        apply String.leb_antisym; [apply H1, Hy|apply H2, Hx]. }
    subst y. f_equal. apply IH.
    + apply H1.
    + apply H2.
    + eapply Permutation_cons_inv, Hp.
    + simpl in Hnd. apply NoDup_cons in Hnd. apply Hnd.
Qed.

Lemma sort_items_order d1 d2 :
  Permutation d1 d2 -> NoDup (map fst d1) -> Json.sort_items d1 = Json.sort_items d2.
Proof.
  intros Hp Hnd. apply ordered_unique; try apply sort_items_ordered.
  - rewrite !sort_items_perm. exact Hp.
  - rewrite sort_items_perm. exact Hnd.
Qed.

Lemma flat_not_plain (d : dict) v :
  In v (map snd d) -> plain v = false -> plain_dict d = false.
Proof.
  unfold plain_dict. induction d as [|kv r IH]; simpl; [contradiction|].
  intros [<-|Hin] Hv; [rewrite Hv; reflexivity|].
  rewrite (IH Hin Hv). apply andb_false_r.
Qed.

(** Markers play no part in the encoding of a plain value. *)
Lemma encode_plain_markers n : forall h m m' v,
  plain v = true -> Json.encode n h m v = Json.encode n h m' v.
Proof.
  induction n as [|n IH]; intros h m m' v Hp;
    destruct v as [x|x|x|items|items|l]; rewrite !encode_unfold;
    try reflexivity; try discriminate.
  - cbn [plain] in Hp. rewrite forallb_forall in Hp.
    do 2 f_equal. apply map_ext_in. intros x Hx. apply IH, Hp, Hx.
  - cbn [plain] in Hp. rewrite forallb_forall in Hp.
    do 2 f_equal. apply map_ext_in. intros x Hx. apply IH, Hp, Hx.
Qed.

Lemma encode_flat n h e d v :
  h !! e = Some d -> In v (map snd d) -> flat_val h v = true ->
  Json.encode n h [e] v = Json.encode n h [] v.
Proof.
  intros He Hin Hf. destruct v as [x|x|t|items|items|p];
    try (apply encode_plain_markers; exact Hf).
  cbn [flat_val] in Hf. destruct (h !! p) as [d'|] eqn:Ep; [|discriminate].
  assert (Hne : e <> p).
  { intros ->. rewrite He in Ep. injection Ep as <-.
    rewrite (flat_not_plain d (VDict p) Hin eq_refl) in Hf. discriminate. }
  rewrite !encode_unfold. cbn [Json.mem].
  rewrite (proj2 (Nat.eqb_neq e p) Hne). cbn [orb].
  destruct n as [|n]; [reflexivity|]. rewrite Ep.
  do 2 f_equal. apply map_ext_in. intros kv Hkv. unfold Json.item.
  rewrite (encode_plain_markers n h [p; e] [p]); [reflexivity|].
  unfold plain_dict in Hf. rewrite <- sort_items_forallb, forallb_forall in Hf.
  apply Hf, Hkv.
Qed.

(** X15. The hash of a dict does not depend on the order in which its
    keys were inserted: two dict objects with the same items in any
    order, holding plain values or references to dicts of plain values
    (as entries and point data do), get the same result from
    [_hash_entry]. *)
Theorem hash_ignores_insertion_order
    (h : list dict) (out : list string) (e1 e2 : loc) (d1 d2 : dict) :
  h !! e1 = Some d1 -> h !! e2 = Some d2 ->
  Permutation d1 d2 -> NoDup (map fst d1) -> flat h d1 = true ->
  ValenceLedger._hash_entry e1 (Store h out) = ValenceLedger._hash_entry e2 (Store h out).
Proof.
  intros H1 H2 Hp Hnd Hf. rewrite !hash_entry_run.
  apply (f_equal (fun t => (digest_of t, Store h out))).
  unfold Json.dumps. rewrite max_depth_S. generalize (Nat.pred Json.max_depth). intros n.
  rewrite !encode_unfold. cbn [Json.mem]. rewrite H1, H2.
  rewrite <- (sort_items_order d1 d2 Hp Hnd).
  apply (f_equal (fun l => Json.wrap "{" "}" (Json.sequence l))).
  apply map_ext_in. intros [key v] Hin. unfold Json.item. cbn [fst snd].
  assert (Hin1 : In (key, v) d1).
  { eapply Permutation_in; [apply sort_items_perm|exact Hin]. }
  assert (Hv : flat_val h v = true).
  { unfold flat in Hf. rewrite forallb_forall in Hf. apply (Hf _ Hin1). }
  rewrite (encode_flat n h e1 d1 v H1), (encode_flat n h e2 d2 v H2); try exact Hv.
  - reflexivity.
  - apply (in_map snd) with (x := (key, v)).
    eapply Permutation_in; [exact Hp|exact Hin1].
  - apply (in_map snd) with (x := (key, v)). exact Hin1.
Qed.

Lemma hash_order_witness :
  ValenceLedger._hash_entry 1
    (Store [InteractionPoint.fields calm;
            [("previous_hash", VStr "0"); ("point_data", VDict 0%nat); ("index", VInt 7)];
            [("index", VInt 7); ("point_data", VDict 0%nat); ("previous_hash", VStr "0")]] [])
  = ValenceLedger._hash_entry 2
      (Store [InteractionPoint.fields calm;
              [("previous_hash", VStr "0"); ("point_data", VDict 0%nat); ("index", VInt 7)];
              [("index", VInt 7); ("point_data", VDict 0%nat); ("previous_hash", VStr "0")]] []).
Proof.
  eapply hash_ignores_insertion_order; [reflexivity|reflexivity| | |reflexivity].
  - apply Permutation_rev.
  - apply NoDup_ListNoDup. repeat constructor; simpl; intuition discriminate.
Defined.

(** ** The simulation block: the loop over the test cases *)

Lemma analyze_text_point now text : analyze_text now text = Ok (point_of now text).
Proof. apply analyze_text_run. Qed.

Lemma policy_worth_logging now text :
  (InteractionPoint.arousal (point_of now text) >? 50)
  || (InteractionPoint.valence (point_of now text) <? -20)
  = worth_logging text.
Proof.
  unfold worth_logging, point_of.
  cbn [InteractionPoint.arousal InteractionPoint.valence].
  pose proof (count_all_nonneg (PyStr.lower text) arousal_words) as Ha.
  unfold occurrences.
  generalize dependent (count_all (PyStr.lower text) arousal_words). intros a Ha.
  generalize (count_all (PyStr.lower text) positive_words). intros p.
  generalize (count_all (PyStr.lower text) negative_words). intros n.
  f_equal.
  - destruct (3 <=? a) eqn:E; [apply Z.leb_le in E|apply Z.leb_gt in E].
    + apply Z.gtb_lt. lia.
    + destruct (Z.gtb_spec (Z.min 100 (5 + 20 * a)) 50); [lia|reflexivity].
  - destruct (3 <=? n - p) eqn:E; [apply Z.leb_le in E|apply Z.leb_gt in E].
    + apply Z.ltb_lt. lia.
    + apply Z.ltb_ge. lia.
Qed.

Lemma print_run {B} line (k : unit -> M B) h out :
  bind (print line) k (Store h out) = k tt (Store h (out ++ [line])).
Proof. reflexivity. Qed.

Lemma digits_ok_small n : Z.abs n <= 1000 -> Json.digits_ok n = true.
Proof.
  intros Hn. assert (Hlim : 1000 < Json.int_limit) by (vm_compute; reflexivity).
  unfold Json.digits_ok. apply Z.ltb_lt. revert Hlim. generalize Json.int_limit. lia.
Qed.

Lemma digits_ok_le (n m : nat) :
  (n <= m)%nat -> Json.digits_ok (Z.of_nat m) = true -> Json.digits_ok (Z.of_nat n) = true.
Proof.
  unfold Json.digits_ok. rewrite !Z.ltb_lt. generalize Json.int_limit. lia.
Qed.

(** The numbers of a point of the scorer are far below the digits limit:
    it can be logged wherever the index can be written. *)
Lemma point_of_loggable i now text :
  Json.digits_ok (Z.of_nat i) = true -> loggable i (point_of now text) = true.
Proof.
  intros Hi. unfold loggable. rewrite Hi. unfold point_of, occurrences.
  pose proof (count_all_nonneg (PyStr.lower text) arousal_words) as Ha.
  revert Ha. generalize (count_all (PyStr.lower text) arousal_words). intros a Ha.
  generalize (count_all (PyStr.lower text) positive_words
              - count_all (PyStr.lower text) negative_words). intros d.
  unfold small_dict.
  cbn [InteractionPoint.fields InteractionPoint.coordinates InteractionPoint.timestamp
       InteractionPoint.arousal InteractionPoint.valence InteractionPoint.impact_scope
       InteractionPoint.description InteractionPoint.source_text forallb snd small andb].
  rewrite (digits_ok_small (Z.min 100 (5 + 20 * a))) by lia.
  rewrite (digits_ok_small (10 * Z.max (-5) (Z.min 5 d))) by lia.
  destruct (_ || _); reflexivity.
Qed.

Lemma process_case_inv clock h out L vs i case :
  ledger_inv h L vs -> Json.digits_ok (Z.of_nat (length vs)) = true ->
  exists L' h' vs',
    process_case (clock i) L i case (Store h out)
    = (Ok L', Store h' (out ++ loop_output clock (length vs) i [case]))
    /\ ledger_inv h' L' (vs ++ vs')
    /\ map v_point vs' = (if worth_logging case then [point_of (clock i) case] else []).
Proof.
  intros Hinv Hidx. unfold process_case. rewrite print_run.
  unfold bind at 1. unfold lift at 1. rewrite analyze_text_point.
  rewrite policy_worth_logging. cbn [loop_output].
  destruct (worth_logging case).
  - destruct (log_event_inv h L vs (point_of (clock i) case)
                (out ++ [("  - Case " ++ pretty (Z.of_nat i + 1) ++ ": '" ++ case ++ "'")%string])
                Hinv (point_of_loggable _ _ _ Hidx))
      as (e & [h' out'] & v & Hrun & _ & Hout & _ & Hp & Hinv').
    cbn [objs stdout] in *. subst out'.
    exists (ValenceLedger.Ledger (ValenceLedger.chain L ++ [e])), h', [v].
    split; [|split; [exact Hinv'|cbn; rewrite Hp; reflexivity]].
    unfold bind at 1. unfold bind at 1. rewrite Hrun. cbn [snd].
    rewrite !print_run. cbn [ret ValenceLedger.chain]. rewrite print_run.
    rewrite length_app, (inv_length _ _ _ Hinv). cbn [length].
    replace (Z.of_nat (length vs + 1) - 1) with (Z.of_nat (length vs)) by lia.
    cbn [ret]. rewrite <- !app_assoc. reflexivity.
  - exists L, h, []. rewrite (app_nil_r vs).
    split; [|split; [exact Hinv|reflexivity]].
    unfold bind at 1. rewrite !print_run. cbn [ret]. rewrite print_run.
    cbn [ret]. rewrite <- !app_assoc. reflexivity.
Qed.

Lemma loop_output_cons clock n i case rest :
  loop_output clock n i (case :: rest)
  = loop_output clock n i [case]
    ++ loop_output clock (if worth_logging case then S n else n) (S i) rest.
Proof. cbn [loop_output]. rewrite app_nil_r. reflexivity. Qed.

Lemma run_cases_inv clock cases : forall i h out L vs,
  ledger_inv h L vs ->
  Json.digits_ok (Z.of_nat (length vs + length cases)) = true ->
  exists L' h' vs',
    run_cases clock L i cases (Store h out)
    = (Ok L', Store h' (out ++ loop_output clock (length vs) i cases))
    /\ ledger_inv h' L' (vs ++ vs')
    /\ map v_point vs' = logged_points clock i cases.
Proof.
  induction cases as [|case rest IH]; intros i h out L vs Hinv Hidx.
  - exists L, h, []. rewrite (app_nil_r vs). cbn. rewrite app_nil_r.
    split; [reflexivity|split; [exact Hinv|reflexivity]].
  - cbn [length] in Hidx.
    assert (Hidx0 : Json.digits_ok (Z.of_nat (length vs)) = true)
      by (apply (digits_ok_le _ _ (Nat.le_add_r _ _) Hidx)).
    destruct (process_case_inv clock h out L vs i case Hinv Hidx0)
      as (L1 & h1 & vs1 & Hrun1 & Hinv1 & Hp1).
    assert (Hlen1 : (length vs1 <= 1)%nat).
    { apply (f_equal (@length _)) in Hp1. rewrite length_map in Hp1. rewrite Hp1.
      destruct (worth_logging case); simpl; lia. }
    assert (Hidx1 : Json.digits_ok (Z.of_nat (length (vs ++ vs1) + length rest)) = true)
      by (apply (digits_ok_le _ (length vs + S (length rest))); [rewrite length_app; lia|exact Hidx]).
    destruct (IH (S i) h1 (out ++ loop_output clock (length vs) i [case]) L1 (vs ++ vs1) Hinv1
                Hidx1)
      as (L2 & h2 & vs2 & Hrun2 & Hinv2 & Hp2).
    exists L2, h2, (vs1 ++ vs2). cbn [run_cases].
    rewrite (bind_run _ _ _ _ _ Hrun1), Hrun2.
    split; [|split].
    + replace (length (vs ++ vs1))
        with (if worth_logging case then S (length vs) else length vs).
      * rewrite (loop_output_cons clock (length vs) i case rest), app_assoc. reflexivity.
      * rewrite length_app. apply (f_equal (@length _)) in Hp1. rewrite length_map in Hp1.
        rewrite Hp1. destruct (worth_logging case); cbn [length]; lia.
    + rewrite app_assoc. exact Hinv2.
    + rewrite map_app, Hp1, Hp2. cbn [logged_points].
      destruct (worth_logging case); reflexivity.
Qed.

(** X16. The loop of the simulation logs by its policy and nothing else:
    started on a built ledger, for any list of cases and any clock, as
    long as the indices stay within the digits limit of [json.dumps] (the
    length of a Python list always does), it ends without an exception; a
    case is logged exactly when it has at least three occurrences of
    arousal words or at least three more negative than positive
    occurrences; the chain grows by the logged cases, whose points are
    stored in order after the entries that were there, which read as
    before; the ledger still verifies; and the lines printed are those of
    [loop_output]. *)
Theorem cases_are_logged_by_policy
    (k : nat) (L : ValenceLedger.t) (s : store) (clock : nat -> pyfloat)
    (i : nat) (cases : list string) :
  built k L s ->
  Json.digits_ok (Z.of_nat (length (ValenceLedger.chain L) + length cases)) = true ->
  exists L' s',
    let n := length (ValenceLedger.chain L) in
    let logged := logged_points clock i cases in
    run_cases clock L i cases s = (Ok L', s')
    /\ length (ValenceLedger.chain L') = (n + length (List.filter worth_logging cases))%nat
    /\ map InteractionPoint.source_text logged = List.filter worth_logging cases
    /\ (forall j p, logged !! j = Some p ->
          point_data_at (objs s') L' (n + j) = Some (InteractionPoint.fields p))
    /\ (forall j, (j < n)%nat -> entry_at (objs s') L' j = entry_at (objs s) L j)
    /\ (exists s'', ValenceLedger.verify_integrity L' s' = (Ok true, s''))
    /\ stdout s' = stdout s ++ loop_output clock n i cases.
Proof.
  intros Hb Hidx. destruct (built_inv _ _ _ Hb) as (vs & Hinv & _).
  destruct s as [h out]. cbn [objs stdout] in *.
  rewrite (inv_length _ _ _ Hinv) in Hidx.
  destruct (run_cases_inv clock cases i h out L vs Hinv Hidx)
    as (L' & h' & vs' & Hrun & Hinv' & Hp).
  exists L', (Store h' (out ++ loop_output clock (length vs) i cases)).
  cbv zeta. cbn [objs stdout]. rewrite (inv_length _ _ _ Hinv).
  assert (Hsrc : forall c j, map InteractionPoint.source_text (logged_points clock j c)
                             = List.filter worth_logging c).
  { induction c as [|x c IHc]; intros j; cbn; [reflexivity|].
    destruct (worth_logging x); cbn; rewrite IHc; reflexivity. }
  split; [exact Hrun|]. split; [|split; [apply Hsrc|split; [|split; [|split]]]].
  - rewrite (inv_length _ _ _ Hinv'), length_app, <- (Hsrc cases i), <- Hp, !length_map.
    reflexivity.
  - intros j p Hj. rewrite <- Hp in Hj. apply list_lookup_fmap_Some in Hj as (v & -> & Hv).
    apply (inv_point_data_at _ _ _ _ _ Hinv').
    rewrite lookup_app_r by lia. replace (length vs + j - length vs)%nat with j by lia.
    exact Hv.
  - intros j Hj. destruct (lookup_lt_is_Some_2 vs j Hj) as [w Hw].
    rewrite (inv_entry_at _ _ _ _ _ Hinv Hw).
    apply (inv_entry_at _ _ _ _ _ Hinv'). rewrite lookup_app_l; assumption.
  - destruct (inv_verify h' L' _ (out ++ loop_output clock (length vs) i cases) Hinv') as [g Hg].
    eexists. exact Hg.
  - reflexivity.
Qed.

Lemma cases_logged_witness :
  exists L' s',
    run_cases (fun _ => demo_clock) demo_ledger 0
      ["URGENT HELP NEEDED NOW!"; "This is a neutral statement."] demo_store = (Ok L', s')
    /\ length (ValenceLedger.chain L') = 4%nat.
Proof.
  destruct (cases_are_logged_by_policy 2 demo_ledger demo_store (fun _ => demo_clock) 0
              ["URGENT HELP NEEDED NOW!"; "This is a neutral statement."] demo_built eq_refl)
    as (L' & s' & Hrun & Hlen & _).
  exists L', s'. split; [exact Hrun|]. rewrite Hlen. vm_compute. reflexivity.
Defined.

(** ** The simulation block as a whole *)

Lemma ret_run {A B} (a : A) (k : A -> M B) s : bind (ret a) k s = k a s.
Proof. reflexivity. Qed.

Lemma bind_assoc {A B C} (c : M A) (k1 : A -> M B) (k2 : B -> M C) s :
  bind (bind c k1) k2 s = bind c (fun x => bind (k1 x) k2) s.
Proof. unfold bind. destruct (c s) as [[a|e|] s1]; reflexivity. Qed.

(** [verify_integrity] on a ledger of two entries after the point data of
    the second were rewritten. *)
Lemma tampered_verdict h L v0 v1 value g out :
  ledger_inv h L [v0; v1] -> printable value = true ->
  let d' := Dict.set "description" value (InteractionPoint.fields (v_point v1)) in
  let det := negb (String.eqb (v_hash v1)
                     (Sha256.hexdigest
                        (PyStr.encode (entry_text 1 (dict_text d') (v_prev v1))))) in
  exists g',
    ValenceLedger.verify_integrity L (Store (<[v_data v1 := d']> h ++ g) out)
    = (Ok (negb det),
       Store (<[v_data v1 := d']> h ++ g')
             (out ++ if det then ["Integrity check failed: Data tampered at index 1."]
                     else [])).
Proof.
  intros Hinv Hplain d' det.
  assert (Hv : [v0; v1] !! 1%nat = Some v1) by reflexivity.
  set (h' := <[v_data v1 := d']> h).
  assert (Hse := tamper_same_entries h L _ 1%nat v1 d' Hinv Hv).
  assert (Hd' : h' !! v_data v1 = Some d')
    by (apply list_lookup_insert_eq, (inv_bound _ _ _ _ _ Hinv Hv)).
  pose proof (inv_loggable _ _ _ _ _ Hinv Hv) as Hlog.
  assert (Hpd' : writable d' = true)
    by (apply set_writable; [assumption|apply (fields_writable _ _ Hlog)]).
  assert (Hidx : Json.digits_ok (Z.of_nat 1) = true) by (vm_compute; reflexivity).
  assert (Hbind : binding h' L 1 = negb det).
  { unfold binding. rewrite (same_entry_at _ _ _ _ Hse), (inv_entry_at _ _ _ _ _ Hinv Hv).
    change (Dict.get "hash" (entry_fields 1 (v_data v1) (VStr (v_prev v1))
                             ++ [("hash", VStr (v_hash v1))]))
      with (Some (VStr (v_hash v1))).
    change (Dict.del "hash" (entry_fields 1 (v_data v1) (VStr (v_prev v1))
                             ++ [("hash", VStr (v_hash v1))]))
      with (entry_fields 1 (v_data v1) (VStr (v_prev v1))).
    unfold ContentHasher.
    rewrite (content_string_entry _ _ _ _ _ Hd' Hpd' Hidx). cbn [digest_of].
    subst det. rewrite negb_involutive. reflexivity. }
  assert (Hlink : linkage h' L 1 = true).
  { rewrite (same_linkage _ _ _ _ Hse). eapply inv_linkage; [eassumption|simpl; lia]. }
  assert (Hty : entries_typed h' L = true)
    by (apply (tamper_typed _ _ _ _ _ "description" value Hinv Hv Hplain)).
  destruct (verify_from_typed L h' Hty (checked L) (checked_range L) g out) as [g' Hg].
  exists g'. unfold ValenceLedger.verify_integrity. fold (checked L). rewrite Hg.
  unfold checked. rewrite (inv_length _ _ _ Hinv).
  cbn [length Nat.sub seq first_violation]. unfold violation. rewrite Hlink, Hbind.
  cbn [negb]. rewrite negb_involutive. destruct det; reflexivity.
Qed.

Lemma main_run clock :
  fst (main clock (Store [] [])) = Ok tt
  /\ stdout (snd (main clock (Store [] [])))
     = simulation_output (PyStr.take 10 (genesis_hash clock)) (tampering_detected clock).
Proof.
  unfold main. change (VStr "This was a happy event, not a sad one.") with happy.
  rewrite !print_run. cbn [app].
  set (out0 := [str_mul "=" 60; _; _]).
  destruct (init_inv (clock 0%nat) [] out0)
    as (L0 & [h0 o0] & v0 & Hr0 & _ & Ho0 & Hp0 & Hinv0).
  cbn [objs stdout] in *. subst o0.
  rewrite (bind_run _ _ _ _ _ Hr0), print_run.
  assert (Hv0 : [v0] !! 0%nat = Some v0) by reflexivity.
  assert (Hh0 : v_hash v0 = genesis_hash clock).
  { rewrite (inv_hash _ _ _ _ _ Hinv0 Hv0), Hp0.
    destruct Hinv0 as (_ & _ & _ & Hall). destruct (Hall _ _ Hv0) as [_ ->]. reflexivity. }
  rewrite (bind_run _ _ _ _ _
             (chain_at_run L0 0 _ _ (inv_chain_lookup _ _ _ _ _ Hinv0 Hv0))).
  destruct (inv_stored _ _ _ _ _ Hinv0 Hv0) as [He0 _].
  rewrite (bind_run _ _ _ _ _
             (getitem_run _ "hash" _ (VStr (v_hash v0)) _ _ He0 eq_refl)).
  cbn [prefix10]. rewrite ret_run, print_run, Hh0.
  destruct (inv_verify h0 L0 _ (out0 ++ ["Step 1: ValenceLedger initialized."]
                                ++ [("  - Genesis Block Hash: "
                                     ++ PyStr.take 10 (genesis_hash clock) ++ "...")%string])
              Hinv0) as [g0 Hg0].
  rewrite <- app_assoc. rewrite (bind_run _ _ _ _ _ Hg0), !print_run.
  match goal with
  | |- context [bind _ _ (Store _ ?o)] => set (out1 := o)
  end.
  assert (Hidx : Json.digits_ok (Z.of_nat (length [v0] + length test_cases)) = true)
    by (vm_compute; reflexivity).
  destruct (run_cases_inv (fun i => clock (S i)) test_cases 0 (h0 ++ g0) out1 L0 [v0]
              (ledger_inv_extends _ g0 _ _ Hinv0) Hidx)
    as (L1 & h1 & vs1 & Hrun1 & Hinv1 & Hp1).
  rewrite (bind_run _ _ _ _ _ Hrun1), !print_run.
  assert (Hlogged : logged_points (fun i => clock (S i)) 0 test_cases = [urgent_point clock]).
  { unfold test_cases. cbn [logged_points].
    repeat match goal with
           | |- context [worth_logging ?c] =>
               let b := eval vm_compute in (worth_logging c) in
               change (worth_logging c) with b; cbv iota
           end.
    reflexivity. }
  rewrite Hlogged in Hp1.
  destruct vs1 as [|v1 vs1]; [discriminate Hp1|].
  destruct vs1 as [|v2 vs1]; [|discriminate Hp1].
  cbn [map] in Hp1. injection Hp1 as Hp1.
  cbn [app] in Hinv1.
  assert (Hv1 : [v0; v1] !! 1%nat = Some v1) by reflexivity.
  assert (Hprev1 : v_prev v1 = genesis_hash clock).
  { rewrite (inv_prev _ _ _ 1%nat v1 v0 Hinv1); [|lia|reflexivity|reflexivity].
    rewrite (inv_hash _ _ _ 0%nat v0 Hinv1 eq_refl), Hp0.
    destruct Hinv1 as (_ & _ & _ & Hall). destruct (Hall 0%nat v0 eq_refl) as [_ ->].
    reflexivity. }
  assert (Hh1 : v_hash v1 = Sha256.hexdigest (PyStr.encode (logged_text clock))).
  { rewrite (inv_hash _ _ _ _ _ Hinv1 Hv1), Hp1, Hprev1. reflexivity. }
  assert (Hlen : length (ValenceLedger.chain L1) = 2%nat)
    by (rewrite (inv_length _ _ _ Hinv1); reflexivity).
  rewrite Hlen.
  match goal with
  | |- context [bind _ _ (Store _ ?o)] => set (out2 := o)
  end.
  destruct (inv_verify h1 L1 _ out2 Hinv1) as [g1 Hg1].
  rewrite (bind_run _ _ _ _ _ Hg1), !print_run.
  change (1 <? 2)%nat with true. cbv iota.
  pose proof (ledger_inv_extends _ g1 _ _ Hinv1) as Hinv1'.
  match goal with
  | |- context [bind _ _ (Store _ ?o)] => set (out3 := o)
  end.
  rewrite bind_assoc.
  rewrite (bind_run _ _ _ _ _ (tamper_run _ _ _ _ _ "description" happy out3 Hinv1' Hv1)).
  rewrite print_run.
  set (d' := Dict.set "description" happy (InteractionPoint.fields (v_point v1))).
  match goal with
  | |- context [bind _ _ (Store ?hh ?o)] =>
      set (out4 := o); rewrite <- (app_nil_r hh)
  end.
  assert (Hhappy : printable happy = true) by (vm_compute; reflexivity).
  destruct (tampered_verdict _ _ _ _ happy [] out4 Hinv1' Hhappy) as [g2 Hg2].
  cbv zeta in Hg2. fold d' in Hg2.
  assert (Hdet : negb (String.eqb (v_hash v1)
                         (Sha256.hexdigest
                            (PyStr.encode (entry_text 1 (dict_text d') (v_prev v1)))))
                 = tampering_detected clock).
  { subst d'. rewrite Hh1, Hprev1, Hp1. reflexivity. }
  rewrite Hdet in Hg2.
  rewrite (bind_run _ _ _ _ _ Hg2), print_run.
  match goal with
  | |- context [bind _ _ (Store _ ?o)] => set (out5 := o)
  end.
  destruct (tampered_verdict _ _ _ _ happy g2 out5 Hinv1' eq_refl) as [g3 Hg3].
  cbv zeta in Hg3. fold d' in Hg3. rewrite Hdet in Hg3.
  rewrite (bind_run _ _ _ _ _ Hg3).
  subst out5 out4 out3 out2 out1 out0.
  generalize (PyStr.take 10 (genesis_hash clock)). intros gp.
  generalize (tampering_detected clock). intros det.
  destruct det; cbn [negb]; rewrite !print_run; cbn [fst snd stdout];
    (split; [reflexivity|]); vm_compute; reflexivity.
Qed.

(** X17. The simulation as a whole: whatever the clock returns, the
    block under [__main__] ends without an exception and prints exactly
    the transcript [simulation_output]: only the genesis hash prefix
    depends on the clock, case 4 alone is logged (at index 1, so the
    ledger has 2 entries when it is tampered with), both checks before
    the tampering pass, and the two checks after it print FAILED and
    SUCCESS, each after the line of [verify_integrity], unless SHA-256
    gives the text of the logged entry and its tampered text, which
    differ, the same digest. *)
Theorem simulation_transcript (clock : nat -> pyfloat) :
  exists s',
    main clock (Store [] []) = (Ok tt, s')
    /\ stdout s'
       = simulation_output (PyStr.take 10 (genesis_hash clock)) (tampering_detected clock)
    /\ tampered_text clock <> logged_text clock.
Proof.
  destruct (main_run clock) as [Hr Hout].
  destruct (main clock (Store [] [])) as [r s'] eqn:E. cbn [fst snd] in *. subst r.
  exists s'. split; [reflexivity|]. split; [exact Hout|].
  unfold tampered_text, logged_text. intros Etext. apply entry_text_inj in Etext.
  revert Etext.
  apply dict_text_changed
    with (old := VStr (InteractionPoint.description (urgent_point clock))).
  - reflexivity.
  - vm_compute. discriminate.
Qed.

(** At a concrete clock SHA-256 does tell the two texts apart. *)
Example tampering_detected_demo : tampering_detected (fun _ => demo_clock) = true.
Proof. vm_compute. reflexivity. Qed.
